(** * PyonFX [ass_core.py]: the extended-information pipeline of [Ass.__init__]

    A shallow embedding of the loader of [pyonfx/ass_core.py]: the section
    dispatch of the file loop, the tag tokenizer, the karaoke syllable fold,
    the word splitter, the syllable-to-word mapping, the layout of lines,
    words, syllables and characters, and the lead-in / lead-out pass; then
    the events branch and the number arms of the metadata branch of the file
    loop, [write_line] and [save].

    Conventions.
    - A Python [str] is a list of characters; a character is a code point
      below 256 (an [ascii]).
    - A Python number is an [int] (a [Z]) or a [float] (an IEEE binary64,
      Rocq's primitive [float]); [/] is true division and always gives a
      float.
    - A field declared [Optional[...] = None] is an [option]; arithmetic or
      an ordering comparison on [None] raises [TypeError].
    - Code that can raise returns a [result]. *)

From Stdlib Require Import String Ascii.
From Stdlib Require Import ZArith List Bool Lia PrimFloat Uint63.
From Stdlib Require Import Permutation Sorted.
Import ListNotations.

Set Warnings "-inexact-float".
Set Implicit Arguments.

(* ================================================================== *)
(** ** Python values                                                   *)
(* ================================================================== *)

Module Py.

(** The exceptions the embedded code can raise. *)
Inductive exn : Type :=
| TypeError
| ValueError (msg : list ascii).

Inductive result (A : Type) : Type :=
| Ok (a : A)
| Raise (e : exn).
Arguments Ok {A} a.
Arguments Raise {A} e.

Definition bind {A B} (c : result A) (k : A -> result B) : result B :=
  match c with
  | Ok a => k a
  | Raise e => Raise e
  end.

Definition is_ok {A} (c : result A) : bool :=
  match c with Ok _ => true | Raise _ => false end.

(** A [str]. *)
Definition str : Type := list ascii.

Definition lit (s : string) : str := list_ascii_of_string s.

Fixpoint str_eqb (a b : str) : bool :=
  match a, b with
  | [], [] => true
  | x :: a', y :: b' => Ascii.eqb x y && str_eqb a' b'
  | _, _ => false
  end.

(** Truthiness of a [str] or a [list]: non-empty. *)
Definition truthy {A} (l : list A) : bool :=
  match l with [] => false | _ :: _ => true end.

(** Numbers: [int] or [float]. *)
Inductive num : Type :=
| PyInt (z : Z)
| PyFloat (f : float).

(** [float(z)]; exact for [|z| < 2^53], which covers pixel and
    millisecond quantities. *)
Definition float_of_Z (z : Z) : float :=
  match z with
  | Z0 => 0%float
  | Zpos _ => PrimFloat.of_uint63 (Uint63.of_Z z)
  | Zneg _ => PrimFloat.opp (PrimFloat.of_uint63 (Uint63.of_Z (Z.opp z)))
  end.

Definition to_float (n : num) : float :=
  match n with
  | PyInt z => float_of_Z z
  | PyFloat f => f
  end.

Definition add (a b : num) : num :=
  match a, b with
  | PyInt x, PyInt y => PyInt (x + y)
  | _, _ => PyFloat (PrimFloat.add (to_float a) (to_float b))
  end.

Definition sub (a b : num) : num :=
  match a, b with
  | PyInt x, PyInt y => PyInt (x - y)
  | _, _ => PyFloat (PrimFloat.sub (to_float a) (to_float b))
  end.

Definition mul (a b : num) : num :=
  match a, b with
  | PyInt x, PyInt y => PyInt (x * y)
  | _, _ => PyFloat (PrimFloat.mul (to_float a) (to_float b))
  end.

(** [a / 2]: the only divisor the loader uses is the literal 2. *)
Definition half (a : num) : num :=
  PyFloat (PrimFloat.div (to_float a) 2%float).

Definition ltb (a b : num) : bool :=
  match a, b with
  | PyInt x, PyInt y => Z.ltb x y
  | _, _ => PrimFloat.ltb (to_float a) (to_float b)
  end.

(** [max(a, b)]: the second argument only when it is strictly greater. *)
Definition max (a b : num) : num := if ltb a b then b else a.

(** [v > 0] on an [Optional[int]]: [None > 0] raises [TypeError]. *)
Definition gt0 (v : option Z) : result bool :=
  match v with
  | Some z => Ok (0 <? z)%Z
  | None => Raise TypeError
  end.

(** Use of an optional value as an operand of arithmetic. *)
Definition operand {A} (v : option A) : result A :=
  match v with
  | Some a => Ok a
  | None => Raise TypeError
  end.

End Py.

Import Py.

Declare Scope py_scope.
Delimit Scope py_scope with py.
Notation "x <- c ;; k" := (bind c (fun x => k))
  (at level 61, c at next level, right associativity) : py_scope.
Infix "+~" := Py.add (at level 50, left associativity) : py_scope.
Infix "-~" := Py.sub (at level 50, left associativity) : py_scope.
Infix "*~" := Py.mul (at level 40, left associativity) : py_scope.
Open Scope py_scope.

(* ================================================================== *)
(** ** Characters and the regular expressions of the loader            *)
(* ================================================================== *)

Module Re.

Definition chr (n : nat) : ascii := ascii_of_nat n.
Definition lbrace : ascii := "{"%char.
Definition rbrace : ascii := "}"%char.
Definition backslash : ascii := "\"%char.
Definition newline : ascii := chr 10.

Definition ch (c d : ascii) : bool := Ascii.eqb c d.

(** [\s] and [str.isspace] on code points below 256: tab to carriage
    return, the four separators 28..31, space, NEL and no-break space. *)
Definition is_space (c : ascii) : bool :=
  let n := nat_of_ascii c in
  ((9 <=? n) && (n <=? 13)) || ((28 <=? n) && (n <=? 32))
  || (n =? 133) || (n =? 160).

(** [\d] on code points below 256. *)
Definition is_digit (c : ascii) : bool :=
  let n := nat_of_ascii c in (48 <=? n) && (n <=? 57).

Fixpoint take_while (p : ascii -> bool) (u : str) : str :=
  match u with
  | c :: u' => if p c then c :: take_while p u' else []
  | [] => []
  end.

Fixpoint drop_while (p : ascii -> bool) (u : str) : str :=
  match u with
  | c :: u' => if p c then drop_while p u' else u
  | [] => []
  end.

(** [s.lstrip()], [s.rstrip()], [s.strip()]. *)
Definition lstrip (u : str) : str := drop_while is_space u.
Definition rstrip (u : str) : str := rev (drop_while is_space (rev u)).
Definition strip (u : str) : str := rstrip (lstrip u).

(** Whether [\{.*?\}] matches at a position whose [{] has just been
    read and whose remainder is [u]: a [}] comes before any newline
    ([.] does not match a newline). *)
Fixpoint closes (u : str) : bool :=
  match u with
  | [] => false
  | c :: u' =>
      if ch c rbrace then true
      else if ch c newline then false
      else closes u'
  end.

(** [re.split(r"(\{.*?\})", raw)]: the texts between the matches and,
    because the pattern is one capturing group, the matches themselves;
    [inside] holds while the scan is within a match, [acc] is the part
    being read, reversed. *)
Fixpoint split_scan (inside : bool) (acc : str) (u : str) : list str :=
  match u with
  | [] => [rev acc]
  | c :: u' =>
      if inside then
        if ch c rbrace then rev (c :: acc) :: split_scan false [] u'
        else split_scan true (c :: acc) u'
      else
        if ch c lbrace && closes u' then rev acc :: split_scan true [c] u'
        else split_scan false (c :: acc) u'
  end.

Definition split_groups (raw : str) : list str := split_scan false [] raw.

(** [re.sub(r"\{.*?\}", "", raw)]. *)
Fixpoint sub_scan (inside : bool) (u : str) : str :=
  match u with
  | [] => []
  | c :: u' =>
      if inside then
        if ch c rbrace then sub_scan false u' else sub_scan true u'
      else
        if ch c lbrace && closes u' then sub_scan true u'
        else c :: sub_scan false u'
  end.

Definition sub_groups (raw : str) : str := sub_scan false raw.

(** One match of the karaoke pattern (a backslash, [k] or [K], an
    optional [o] or [f], one or more digits, and optionally a backslash, a
    hyphen and a run of characters other than backslash and closing
    brace), with the text in front of it since the previous match: [token_value[last_end:k.start()]],
    [k.group(0)] and [k.group(1)]. *)
Record k_match : Type := mk_k_match {
  k_before : str;
  k_full : str;
  k_digits : str
}.

Definition is_k (c : ascii) : bool := ch c "k"%char || ch c "K"%char.
Definition is_of (c : ascii) : bool := ch c "o"%char || ch c "f"%char.
Definition fx_char (c : ascii) : bool := negb (ch c backslash || ch c rbrace).

(** The optional tail of the karaoke pattern at [u]. *)
Definition k_tail (u : str) : str :=
  match u with
  | b :: m :: u' =>
      if ch b backslash && ch m "-"%char
      then b :: m :: take_while fx_char u'
      else []
  | _ => []
  end.

(** The digits and the optional tail at [u], after the prefix [pre] of
    the match. *)
Definition k_number (pre u : str) : option (str * str) :=
  match take_while is_digit u with
  | [] => None
  | ds => Some (pre ++ ds ++ k_tail (drop_while is_digit u), ds)
  end.

(** The karaoke pattern anchored at [u]: the whole match and its digits.
    When an [o] or [f] follows the [k], the digits must follow it: without
    the optional letter the next character would have to be a digit. *)
Definition k_at (u : str) : option (str * str) :=
  match u with
  | b :: k :: u1 =>
      if ch b backslash && is_k k then
        match u1 with
        | c :: u2 =>
            if is_of c then k_number [b; k; c] u2 else k_number [b; k] u1
        | [] => None
        end
      else None
  | _ => None
  end.

(** [re.finditer] of the karaoke pattern over a tag string: the matches
    from left to right, not overlapping, and the text after the last one
    ([token_value[last_end:]]). [skip] counts the characters still inside
    the match just found; [acc] is the text since the last match,
    reversed. *)
Fixpoint k_scan (skip : nat) (acc : str) (u : str) : list k_match * str :=
  match u with
  | [] => ([], rev acc)
  | c :: u' =>
      match skip with
      | S n => k_scan n acc u'
      | O =>
          match k_at u with
          | Some (full, ds) =>
              let (ms, trail) := k_scan (length full - 1) [] u' in
              (mk_k_match (rev acc) full ds :: ms, trail)
          | None => k_scan 0 (c :: acc) u'
          end
      end
  end.

Definition k_tags (token_value : str) : list k_match * str :=
  k_scan 0 [] token_value.

(** [re.search(r"\\\-([^\s\\}]+)", tags)]: group 1 of the first match. *)
Definition fx_name_char (c : ascii) : bool :=
  negb (is_space c || ch c backslash || ch c rbrace).

Fixpoint search_inline_fx (u : str) : option str :=
  match u with
  | [] => None
  | b :: u' =>
      match u' with
      | m :: u'' =>
          if ch b backslash && ch m "-"%char && truthy (take_while fx_name_char u'')
          then Some (take_while fx_name_char u'')
          else search_inline_fx u'
      | [] => None
      end
  end.

(** [int(digits)] on a run of decimal digits. *)
Definition digit_val (c : ascii) : Z := Z.of_nat (nat_of_ascii c) - 48.

Definition int_of_digits (ds : str) : Z :=
  fold_left (fun n c => 10 * n + digit_val c)%Z ds 0%Z.

(** [re.findall] of the word pattern (a run of blanks, one or more
    non-blank characters, a run of blanks): the scan is in one of three
    states, reading the leading blanks, the word, or the trailing blanks
    of the current match. Blanks with no word after them match nothing. *)
Inductive word_state : Type :=
| InPre (pre : nat)
| InWord (pre : nat) (w : str)
| InPost (pre : nat) (w : str) (post : nat).

Fixpoint words_scan (st : word_state) (u : str) : list (nat * str * nat) :=
  match u with
  | [] =>
      match st with
      | InPre _ => []
      | InWord pre w => [(pre, rev w, 0)]
      | InPost pre w post => [(pre, rev w, post)]
      end
  | c :: u' =>
      match st with
      | InPre pre =>
          if is_space c then words_scan (InPre (S pre)) u'
          else words_scan (InWord pre [c]) u'
      | InWord pre w =>
          if is_space c then words_scan (InPost pre w 1) u'
          else words_scan (InWord pre (c :: w)) u'
      | InPost pre w post =>
          if is_space c then words_scan (InPost pre w (S post)) u'
          else (pre, rev w, post) :: words_scan (InWord 0 [c]) u'
      end
  end.

Definition findall_words (text : str) : list (nat * str * nat) :=
  words_scan (InPre 0) text.

End Re.

(* ================================================================== *)
(** ** Data model: the dataclasses of [ass_core.py]                    *)
(* ================================================================== *)

Module Meta.
Record t : Type := mk {
  wrap_style : option Z;
  scaled_border_and_shadow : option bool;
  play_res_x : option Z;
  play_res_y : option Z;
  audio : option str;
  video : option str
}.
(** [Meta()]: every field at its default [None]. *)
Definition empty : t := mk None None None None None None.
End Meta.

Module Style.
Record t : Type := mk {
  fontname : str;
  fontsize : float;
  color1 : str; alpha1 : str;
  color2 : str; alpha2 : str;
  color3 : str; alpha3 : str;
  color4 : str; alpha4 : str;
  bold : bool; italic : bool; underline : bool; strikeout : bool;
  scale_x : float; scale_y : float;
  spacing : float;
  angle : float;
  border_style : bool;
  outline : float;
  shadow : float;
  alignment : Z;
  margin_l : Z; margin_r : Z; margin_v : Z;
  encoding : Z
}.
End Style.

Module Word.
Record t : Type := mk {
  i : nat;
  start_time : Z; end_time : Z; duration : Z;
  styleref : Style.t;
  text : str;
  prespace : nat; postspace : nat;
  width : num; height : num;
  x : option num; y : option num;
  left : option num; center : option num; right : option num;
  top : option num; middle : option num; bottom : option num
}.
Definition set_pos (w : t) (x y left center right top middle bottom : option num) : t :=
  mk (i w) (start_time w) (end_time w) (duration w) (styleref w) (text w)
     (prespace w) (postspace w) (width w) (height w)
     x y left center right top middle bottom.
End Word.

Module Syllable.
Record t : Type := mk {
  i : nat;
  word_i : nat;
  start_time : Z; end_time : Z; duration : Z;
  styleref : Style.t;
  text : str;
  tags : str;
  inline_fx : str;
  prespace : nat; postspace : nat;
  width : num; height : num;
  x : option num; y : option num;
  left : option num; center : option num; right : option num;
  top : option num; middle : option num; bottom : option num
}.
Definition set_pos (s : t) (x y left center right top middle bottom : option num) : t :=
  mk (i s) (word_i s) (start_time s) (end_time s) (duration s) (styleref s)
     (text s) (tags s) (inline_fx s) (prespace s) (postspace s)
     (width s) (height s)
     x y left center right top middle bottom.
End Syllable.

Module Char.
Record t : Type := mk {
  i : nat;
  word_i : nat;
  syl_i : option nat;
  syl_char_i : nat;
  start_time : Z; end_time : Z; duration : Z;
  styleref : Style.t;
  text : str;
  inline_fx : str;
  width : num; height : num;
  x : option num; y : option num;
  left : option num; center : option num; right : option num;
  top : option num; middle : option num; bottom : option num
}.
Definition set_pos (c : t) (x y left center right top middle bottom : option num) : t :=
  mk (i c) (word_i c) (syl_i c) (syl_char_i c) (start_time c) (end_time c)
     (duration c) (styleref c) (text c) (inline_fx c) (width c) (height c)
     x y left center right top middle bottom.
End Char.

Module Line.
Record t : Type := mk {
  comment : bool;
  layer : Z;
  start_time : Z; end_time : Z;
  style : str;
  styleref : option Style.t;
  actor : str;
  margin_l : Z; margin_r : Z; margin_v : Z;
  effect : str;
  raw_text : str;
  text : option str;
  i : option nat;
  duration : option Z;
  leadin : option num; leadout : option num;
  width : option num; height : option num;
  ascent : option num; descent : option num;
  internal_leading : option num; external_leading : option num;
  x : option num; y : option num;
  left : option num; center : option num; right : option num;
  top : option num; middle : option num; bottom : option num;
  words : option (list Word.t);
  syls : option (list Syllable.t);
  chars : option (list Char.t)
}.

(** The constructor call of the events section: the twelve parsed fields
    and [i]; every other field at its default [None]. *)
Definition parsed (comment : bool) (layer start_time end_time : Z) (style : str)
    (styleref : option Style.t) (actor : str) (margin_l margin_r margin_v : Z)
    (effect raw_text : str) (i : nat) : t :=
  mk comment layer start_time end_time style styleref actor
     margin_l margin_r margin_v effect raw_text
     None (Some i) None None None None None None None None None
     None None None None None None None None None None None.

Definition set_duration_text (l : t) (d : Z) (tx : str) : t :=
  mk (comment l) (layer l) (start_time l) (end_time l) (style l) (styleref l)
     (actor l) (margin_l l) (margin_r l) (margin_v l) (effect l) (raw_text l)
     (Some tx) (i l) (Some d) (leadin l) (leadout l) (width l) (height l)
     (ascent l) (descent l) (internal_leading l) (external_leading l)
     (x l) (y l) (left l) (center l) (right l) (top l) (middle l) (bottom l)
     (words l) (syls l) (chars l).

Definition set_lead (l : t) (lin lout : num) : t :=
  mk (comment l) (layer l) (start_time l) (end_time l) (style l) (styleref l)
     (actor l) (margin_l l) (margin_r l) (margin_v l) (effect l) (raw_text l)
     (text l) (i l) (duration l) (Some lin) (Some lout) (width l) (height l)
     (ascent l) (descent l) (internal_leading l) (external_leading l)
     (x l) (y l) (left l) (center l) (right l) (top l) (middle l) (bottom l)
     (words l) (syls l) (chars l).

Definition set_extents (l : t) (w h : num) (m : num * num * num * num) : t :=
  let '(a, d, il, el) := m in
  mk (comment l) (layer l) (start_time l) (end_time l) (style l) (styleref l)
     (actor l) (margin_l l) (margin_r l) (margin_v l) (effect l) (raw_text l)
     (text l) (i l) (duration l) (leadin l) (leadout l) (Some w) (Some h)
     (Some a) (Some d) (Some il) (Some el)
     (x l) (y l) (left l) (center l) (right l) (top l) (middle l) (bottom l)
     (words l) (syls l) (chars l).

(** Assignment of the whole geometry: extents and the eight position
    fields. *)
Definition set_box (l : t) (w h x y left center right top middle bottom : option num) : t :=
  mk (comment l) (layer l) (start_time l) (end_time l) (style l) (styleref l)
     (actor l) (margin_l l) (margin_r l) (margin_v l) (effect l) (raw_text l)
     (text l) (i l) (duration l) (leadin l) (leadout l) w h
     (ascent l) (descent l) (internal_leading l) (external_leading l)
     x y left center right top middle bottom
     (words l) (syls l) (chars l).

Definition set_words (l : t) (ws : list Word.t) : t :=
  mk (comment l) (layer l) (start_time l) (end_time l) (style l) (styleref l)
     (actor l) (margin_l l) (margin_r l) (margin_v l) (effect l) (raw_text l)
     (text l) (i l) (duration l) (leadin l) (leadout l) (width l) (height l)
     (ascent l) (descent l) (internal_leading l) (external_leading l)
     (x l) (y l) (left l) (center l) (right l) (top l) (middle l) (bottom l)
     (Some ws) (syls l) (chars l).

Definition set_syls (l : t) (ss : list Syllable.t) : t :=
  mk (comment l) (layer l) (start_time l) (end_time l) (style l) (styleref l)
     (actor l) (margin_l l) (margin_r l) (margin_v l) (effect l) (raw_text l)
     (text l) (i l) (duration l) (leadin l) (leadout l) (width l) (height l)
     (ascent l) (descent l) (internal_leading l) (external_leading l)
     (x l) (y l) (left l) (center l) (right l) (top l) (middle l) (bottom l)
     (words l) (Some ss) (chars l).

Definition set_chars (l : t) (cs : list Char.t) : t :=
  mk (comment l) (layer l) (start_time l) (end_time l) (style l) (styleref l)
     (actor l) (margin_l l) (margin_r l) (margin_v l) (effect l) (raw_text l)
     (text l) (i l) (duration l) (leadin l) (leadout l) (width l) (height l)
     (ascent l) (descent l) (internal_leading l) (external_leading l)
     (x l) (y l) (left l) (center l) (right l) (top l) (middle l) (bottom l)
     (words l) (syls l) (Some cs).
End Line.

(** The font collaborator of [font_utility.py]: [Font(style)] with its
    [get_text_extents(text)] (width, height) and [get_metrics()] (ascent,
    descent, internal leading, external leading). *)
Module Font.
Record provider : Type := mk {
  get_text_extents : Style.t -> str -> num * num;
  get_metrics : Style.t -> num * num * num * num
}.
End Font.

(* ================================================================== *)
(** ** Tag tokenizer and karaoke syllable fold                         *)
(* ================================================================== *)

Module Tokenizer.

Inductive token : Type :=
| Tags (value : str)
| Text (value : str).

Definition startswith (part : str) (c : ascii) : bool :=
  match part with x :: _ => Re.ch x c | [] => false end.

Definition endswith (part : str) (c : ascii) : bool :=
  match rev part with x :: _ => Re.ch x c | [] => false end.

(** [part[1:-1]]. *)
Definition inner (part : str) : str := removelast (tl part).

Definition classify (part : str) : token :=
  if startswith part Re.lbrace && endswith part Re.rbrace
  then Tags (inner part)
  else Text part.

(** The list comprehension over [token_pattern.split(line.raw_text)],
    with its filter [if part]. *)
Definition tokens (raw_text : str) : list token :=
  map classify (filter truthy (Re.split_groups raw_text)).

(** A token written back: a tag segment gets its braces again. *)
Definition render (t : token) : str :=
  match t with
  | Tags v => Re.lbrace :: v ++ [Re.rbrace]
  | Text v => v
  end.

Definition rejoin (ts : list token) : str := concat (map render ts).

End Tokenizer.

Module Karaoke.
Import Tokenizer.

(** One entry of [syllable_data]. [k] holds the keys [k_tag] and
    [k_duration], which the loop sets and clears together. *)
Record syl_data : Type := mk_data {
  tags : str;
  k : option (str * str);
  text : str
}.

Record state : Type := mk_state {
  syllable_data : list syl_data;
  current_tags : str;
  current_k : option (str * str);
  current_text : str
}.

Definition init : state := mk_state [] [] None [].

(** Body of [for k_match in k_tags]. *)
Definition on_k_match (st : state) (m : Re.k_match) : state :=
  let tags1 := current_tags st ++ Re.k_before m in
  match current_k st with
  | Some _ =>
      mk_state (syllable_data st ++ [mk_data tags1 (current_k st) (current_text st)])
               ([] ++ Re.k_full m)
               (Some (Re.k_full m, Re.k_digits m))
               []
  | None =>
      mk_state (syllable_data st)
               (tags1 ++ Re.k_full m)
               (Some (Re.k_full m, Re.k_digits m))
               (current_text st)
  end.

Definition on_tags (st : state) (token_value : str) : state :=
  let (ms, trail) := Re.k_tags token_value in
  let st' := fold_left on_k_match ms st in
  mk_state (syllable_data st') (current_tags st' ++ trail)
           (current_k st') (current_text st').

Definition on_text (st : state) (token_value : str) : state :=
  let text1 := current_text st ++ token_value in
  match current_k st with
  | Some _ =>
      mk_state (syllable_data st ++ [mk_data (current_tags st) (current_k st) text1])
               [] None []
  | None =>
      mk_state (syllable_data st) (current_tags st) None text1
  end.

Definition step (st : state) (t : token) : state :=
  match t with
  | Tags v => on_tags st v
  | Text v => on_text st v
  end.

(** [if current_k_tag is not None or current_text: ...append(...)]. *)
Definition finish (st : state) : list syl_data :=
  match current_k st, current_text st with
  | None, [] => syllable_data st
  | _, _ =>
      syllable_data st ++ [mk_data (current_tags st) (current_k st) (current_text st)]
  end.

Definition parse (toks : list token) : list syl_data :=
  finish (fold_left step toks init).

End Karaoke.

(* ================================================================== *)
(** ** The extended pass over one line                                 *)
(* ================================================================== *)

Module Extended.
Import Tokenizer.

(** [(alignment - 1) % 3 == 0], [(alignment - 2) % 3 == 0], else: which of
    left, center and right is the anchor [x]. *)
Definition anchor_x (alignment : Z) (left center right : num) : num :=
  if ((alignment - 1) mod 3 =? 0)%Z then left
  else if ((alignment - 2) mod 3 =? 0)%Z then center
  else right.

(** [alignment > 6 or alignment < 4]. *)
Definition outside_middle_row (alignment : Z) : bool :=
  ((6 <? alignment) || (alignment <? 4))%Z.

Definition of_nat (n : nat) : num := PyInt (Z.of_nat n).

(** [self.meta.play_res_x > 0 and self.meta.play_res_y > 0], with the
    two values when it holds. [and] does not evaluate its second operand
    when the first is false; [>] raises on [None]. *)
Definition positive_resolution (meta : Meta.t) : result (option (Z * Z)) :=
  bx <- gt0 (Meta.play_res_x meta) ;;
  if bx : bool then
    by_ <- gt0 (Meta.play_res_y meta) ;;
    if by_ : bool then
      px <- operand (Meta.play_res_x meta) ;;
      py <- operand (Meta.play_res_y meta) ;;
      Ok (Some (px, py))
    else Ok None
  else Ok None.

(** [line.margin_x if line.margin_x != 0 else line.styleref.margin_x]. *)
Definition effective_margin (line_margin style_margin : Z) : Z :=
  if (line_margin =? 0)%Z then style_margin else line_margin.

(** Horizontal and vertical position of the line inside the frame
    [px] by [py]; [w] and [h] are [line.width] and [line.height]. *)
Definition position_line (px py : Z) (st : Style.t) (l : Line.t) (w h : num) : Line.t :=
  let al := Style.alignment st in
  let tmp_margin_l := effective_margin (Line.margin_l l) (Style.margin_l st) in
  let tmp_margin_r := effective_margin (Line.margin_r l) (Style.margin_r st) in
  let left :=
    if ((al - 1) mod 3 =? 0)%Z then PyInt tmp_margin_l
    else if ((al - 2) mod 3 =? 0)%Z then
      half (PyInt px) -~ half w +~ half (PyInt tmp_margin_l) -~ half (PyInt tmp_margin_r)
    else PyInt px -~ PyInt tmp_margin_r -~ w in
  let center := left +~ half w in
  let right := left +~ w in
  let x := anchor_x al left center right in
  let margin_v := effective_margin (Line.margin_v l) (Style.margin_v st) in
  let top :=
    if (6 <? al)%Z then PyInt margin_v
    else if (3 <? al)%Z then half (PyInt py) -~ half h
    else PyInt py -~ PyInt margin_v -~ h in
  let middle := top +~ half h in
  let bottom := top +~ h in
  let y :=
    if (6 <? al)%Z then top
    else if (3 <? al)%Z then middle
    else bottom in
  Line.set_box l (Some w) (Some h) (Some x) (Some y)
    (Some left) (Some center) (Some right) (Some top) (Some middle) (Some bottom).

(** *** Words *)

(** The loop over [re.findall] that fills [line.words]; [wi] counts. *)
Fixpoint make_words (font : Font.provider) (st : Style.t) (start_time end_time duration : Z)
    (wi : nat) (found : list (nat * str * nat)) : list Word.t :=
  match found with
  | [] => []
  | (prespace, word_text, postspace) :: rest =>
      let (width, height) := Font.get_text_extents font st word_text in
      Word.mk wi start_time end_time duration st word_text
              prespace postspace width height
              None None None None None None None None
      :: make_words font st start_time end_time duration (S wi) rest
  end.

(** Left-to-right placement of the words, from [cur_x]. *)
Fixpoint words_left_to_right (al : Z) (space_width style_spacing : num) (l : Line.t)
    (cur_x : num) (ws : list Word.t) : list Word.t :=
  match ws with
  | [] => []
  | word :: rest =>
      let cur_x := cur_x +~ of_nat (Word.prespace word) *~ (space_width +~ style_spacing) in
      let left := cur_x in
      let center := left +~ half (Word.width word) in
      let right := left +~ Word.width word in
      let x := anchor_x al left center right in
      let cur_x' :=
        cur_x +~ Word.width word
        +~ of_nat (Word.postspace word) *~ (space_width +~ style_spacing)
        +~ style_spacing in
      Word.set_pos word (Some x) (Line.y l) (Some left) (Some center) (Some right)
                   (Line.top l) (Line.middle l) (Line.bottom l)
      :: words_left_to_right al space_width style_spacing l cur_x' rest
  end.

(** Top-to-bottom placement of the words, from [cur_y]. *)
Fixpoint words_top_to_bottom (al px : Z) (l : Line.t) (max_width : num)
    (cur_y : num) (ws : list Word.t) : result (list Word.t) :=
  match ws with
  | [] => Ok []
  | word :: rest =>
      let x_fix := half (max_width -~ Word.width word) in
      left <-
        (if (al =? 4)%Z then
           ll <- operand (Line.left l) ;; Ok (ll +~ x_fix)
         else if (al =? 5)%Z then
           Ok (half (PyInt px) -~ half (Word.width word))
         else
           lr <- operand (Line.right l) ;; Ok (lr -~ Word.width word -~ x_fix)) ;;
      let center := left +~ half (Word.width word) in
      let right := left +~ Word.width word in
      let x := if (al =? 4)%Z then left else if (al =? 5)%Z then center else right in
      let top := cur_y in
      let middle := top +~ half (Word.height word) in
      let bottom := top +~ Word.height word in
      rest' <- words_top_to_bottom al px l max_width (cur_y +~ Word.height word) rest ;;
      Ok (Word.set_pos word (Some x) (Some middle) (Some left) (Some center) (Some right)
                       (Some top) (Some middle) (Some bottom) :: rest')
  end.

(** The first loop of a stacked layout: [max_width] and [sum_height],
    both starting at the integer 0. *)
Definition stack_extents {E} (width height : E -> num) (es : list E) : num * num :=
  fold_left (fun acc e => (Py.max (fst acc) (width e), snd acc +~ height e))
            es (PyInt 0, PyInt 0).

(** [if line.words and play_res_x > 0 and play_res_y > 0: ...]. The word
    level takes the stacked layout for every line of the middle row. *)
Definition position_words (meta : Meta.t) (st : Style.t) (space_width style_spacing : num)
    (l : Line.t) (ws : list Word.t) : result (list Word.t) :=
  if truthy ws then
    res <- positive_resolution meta ;;
    match res with
    | None => Ok ws
    | Some (px, py) =>
        let al := Style.alignment st in
        if outside_middle_row al then
          cur_x <- operand (Line.left l) ;;
          Ok (words_left_to_right al space_width style_spacing l cur_x ws)
        else
          let (max_width, sum_height) := stack_extents Word.width Word.height ws in
          let cur_y := half (PyInt py) -~ half sum_height in
          words_top_to_bottom al px l max_width cur_y ws
    end
  else Ok ws.

(** *** Syllables *)

(** [word_boundaries]: one [(start, end, word_i)] per word, over the
    stream of [prespace + text + postspace]; [idx] is the running offset. *)
Fixpoint boundaries (idx : nat) (ws : list Word.t) : list (nat * nat * nat) :=
  match ws with
  | [] => []
  | w :: rest =>
      let start := idx + Word.prespace w in
      let end_ := start + length (Word.text w) in
      (start, end_, Word.i w) :: boundaries (end_ + Word.postspace w) rest
  end.

Definition word_boundaries (ws : list Word.t) : list (nat * nat * nat) :=
  boundaries 0 ws.

(** The scan [for start, end, w_i in word_boundaries] with its [break];
    [syl_word_i] starts at 0. *)
Fixpoint find_word (wbs : list (nat * nat * nat)) (syl_start : nat) : nat :=
  match wbs with
  | [] => 0
  | (start, end_, w_i) :: rest =>
      if (start <=? syl_start) && (syl_start <? end_) then w_i
      else find_word rest syl_start
  end.

(** The loop that builds [line.syls] from [syllable_data]; [si],
    [last_time] and [syl_char_idx] are its three counters. *)
Fixpoint make_syls (font : Font.provider) (st : Style.t) (wbs : list (nat * nat * nat))
    (si : nat) (last_time : Z) (syl_char_idx : nat)
    (data : list Karaoke.syl_data) : list Syllable.t :=
  match data with
  | [] => []
  | syl_data :: rest =>
      let tags := Karaoke.tags syl_data in
      let text := Karaoke.text syl_data in
      let inline_fx_val :=
        match Re.search_inline_fx tags with Some name => name | None => [] end in
      let prespace := length text - length (Re.lstrip text) in
      let postspace := length text - length (Re.rstrip text) in
      let text_stripped := Re.strip text in
      let duration :=
        match Karaoke.k syl_data with
        | Some (_, k_duration) => (Re.int_of_digits k_duration * 10)%Z
        | None => 0%Z
        end in
      let end_time :=
        match Karaoke.k syl_data with
        | Some _ => (last_time + duration)%Z
        | None => last_time
        end in
      let syl_start := syl_char_idx + prespace in
      let syl_word_i := find_word wbs syl_start in
      let syl_char_idx' := syl_char_idx + (prespace + length text_stripped + postspace) in
      Syllable.mk si syl_word_i last_time end_time duration st text_stripped tags
                  inline_fx_val prespace postspace
                  (fst (Font.get_text_extents font st text_stripped))
                  (snd (Font.get_text_extents font st text_stripped))
                  None None None None None None None None
      :: make_syls font st wbs (S si) end_time syl_char_idx' rest
  end.

Fixpoint syls_left_to_right (al : Z) (space_width style_spacing : num) (l : Line.t)
    (cur_x : num) (ss : list Syllable.t) : list Syllable.t :=
  match ss with
  | [] => []
  | syl :: rest =>
      let cur_x := cur_x +~ of_nat (Syllable.prespace syl) *~ (space_width +~ style_spacing) in
      let left := cur_x in
      let center := left +~ half (Syllable.width syl) in
      let right := left +~ Syllable.width syl in
      let x := anchor_x al left center right in
      let cur_x' :=
        cur_x +~ Syllable.width syl
        +~ of_nat (Syllable.postspace syl) *~ (space_width +~ style_spacing)
        +~ style_spacing in
      Syllable.set_pos syl (Some x) (Line.y l) (Some left) (Some center) (Some right)
                       (Line.top l) (Line.middle l) (Line.bottom l)
      :: syls_left_to_right al space_width style_spacing l cur_x' rest
  end.

Fixpoint syls_top_to_bottom (al : Z) (l : Line.t) (max_width : num)
    (cur_y : num) (ss : list Syllable.t) : result (list Syllable.t) :=
  match ss with
  | [] => Ok []
  | syl :: rest =>
      let x_fix := half (max_width -~ Syllable.width syl) in
      left <-
        (if (al =? 4)%Z then
           ll <- operand (Line.left l) ;; Ok (ll +~ x_fix)
         else if (al =? 5)%Z then
           lc <- operand (Line.center l) ;; Ok (lc -~ half (Syllable.width syl))
         else
           lr <- operand (Line.right l) ;; Ok (lr -~ Syllable.width syl -~ x_fix)) ;;
      let center := left +~ half (Syllable.width syl) in
      let right := left +~ Syllable.width syl in
      let x := if (al =? 4)%Z then left else if (al =? 5)%Z then center else right in
      let top := cur_y in
      let middle := top +~ half (Syllable.height syl) in
      let bottom := top +~ Syllable.height syl in
      rest' <- syls_top_to_bottom al l max_width (cur_y +~ Syllable.height syl) rest ;;
      Ok (Syllable.set_pos syl (Some x) (Some middle) (Some left) (Some center) (Some right)
                           (Some top) (Some middle) (Some bottom) :: rest')
  end.

(** [if line.syls and play_res_x > 0 and play_res_y > 0: ...]. *)
Definition position_syls (meta : Meta.t) (vertical_kanji : bool) (st : Style.t)
    (space_width style_spacing : num) (l : Line.t) (ss : list Syllable.t)
    : result (list Syllable.t) :=
  if truthy ss then
    res <- positive_resolution meta ;;
    match res with
    | None => Ok ss
    | Some (px, py) =>
        let al := Style.alignment st in
        if outside_middle_row al || negb vertical_kanji then
          cur_x <- operand (Line.left l) ;;
          Ok (syls_left_to_right al space_width style_spacing l cur_x ss)
        else
          let (max_width, sum_height) := stack_extents Syllable.width Syllable.height ss in
          let cur_y := half (PyInt py) -~ half sum_height in
          syls_top_to_bottom al l max_width cur_y ss
    end
  else Ok ss.

(** *** Characters *)

(** What the character loop reads of an entry of [words_or_syls]: a
    syllable gives its word and syllable indices and its inline effect, a
    word its own index, no syllable index and no inline effect. *)
Record element : Type := mk_element {
  el_prespace : nat;
  el_text : str;
  el_postspace : nat;
  el_word_i : nat;
  el_syl_i : option nat;
  el_start_time : Z;
  el_end_time : Z;
  el_duration : Z;
  el_inline_fx : str
}.

Definition of_syl (s : Syllable.t) : element :=
  mk_element (Syllable.prespace s) (Syllable.text s) (Syllable.postspace s)
             (Syllable.word_i s) (Some (Syllable.i s))
             (Syllable.start_time s) (Syllable.end_time s) (Syllable.duration s)
             (Syllable.inline_fx s).

Definition of_word (w : Word.t) : element :=
  mk_element (Word.prespace w) (Word.text w) (Word.postspace w)
             (Word.i w) None
             (Word.start_time w) (Word.end_time w) (Word.duration w) [].

(** [line.syls if line.syls else line.words]. *)
Definition words_or_syls (ws : list Word.t) (ss : list Syllable.t) : list element :=
  if truthy ss then map of_syl ss else map of_word ws.

Definition blank : ascii := " "%char.

(** The formatted string of the character loop: [prespace] blanks, the
    text, [postspace] blanks. *)
Definition el_full_text (el : element) : str :=
  repeat blank (el_prespace el) ++ el_text el ++ repeat blank (el_postspace el).

(** The inner loop [for ci, char_text in enumerate(list(el_text))]. *)
Fixpoint chars_of (font : Font.provider) (st : Style.t) (el : element)
    (char_index ci : nat) (el_text : str) : list Char.t :=
  match el_text with
  | [] => []
  | char_text :: rest =>
      let (width, height) := Font.get_text_extents font st [char_text] in
      Char.mk char_index (el_word_i el) (el_syl_i el) ci
              (el_start_time el) (el_end_time el) (el_duration el) st
              [char_text] (el_inline_fx el) width height
              None None None None None None None None
      :: chars_of font st el (S char_index) (S ci) rest
  end.

Fixpoint make_chars (font : Font.provider) (st : Style.t) (char_index : nat)
    (els : list element) : list Char.t :=
  match els with
  | [] => []
  | el :: rest =>
      chars_of font st el char_index 0 (el_full_text el)
      ++ make_chars font st (char_index + length (el_full_text el)) rest
  end.

Fixpoint chars_left_to_right (al : Z) (style_spacing : num) (l : Line.t)
    (cur_x : num) (cs : list Char.t) : list Char.t :=
  match cs with
  | [] => []
  | char :: rest =>
      let left := cur_x in
      let center := left +~ half (Char.width char) in
      let right := left +~ Char.width char in
      let x := anchor_x al left center right in
      Char.set_pos char (Some x) (Line.y l) (Some left) (Some center) (Some right)
                   (Line.top l) (Line.middle l) (Line.bottom l)
      :: chars_left_to_right al style_spacing l
           (cur_x +~ Char.width char +~ style_spacing) rest
  end.

Fixpoint chars_top_to_bottom (al px : Z) (l : Line.t) (max_width : num)
    (cur_y : num) (cs : list Char.t) : result (list Char.t) :=
  match cs with
  | [] => Ok []
  | char :: rest =>
      let x_fix := half (max_width -~ Char.width char) in
      left <-
        (if (al =? 4)%Z then
           ll <- operand (Line.left l) ;; Ok (ll +~ x_fix)
         else if (al =? 5)%Z then
           Ok (half (PyInt px) -~ half (Char.width char))
         else
           lr <- operand (Line.right l) ;; Ok (lr -~ Char.width char -~ x_fix)) ;;
      let center := left +~ half (Char.width char) in
      let right := left +~ Char.width char in
      let x := if (al =? 4)%Z then left else if (al =? 5)%Z then center else right in
      let top := cur_y in
      let middle := top +~ half (Char.height char) in
      let bottom := top +~ Char.height char in
      rest' <- chars_top_to_bottom al px l max_width (cur_y +~ Char.height char) rest ;;
      Ok (Char.set_pos char (Some x) (Some middle) (Some left) (Some center) (Some right)
                       (Some top) (Some middle) (Some bottom) :: rest')
  end.

(** "Fixing line positions": the line takes the bounding box of its
    stacked characters; [line.x] and [line.y] stay. *)
Definition fix_line (al py : Z) (l : Line.t) (max_width sum_height cur_y : num)
    : result Line.t :=
  let top := cur_y in
  let middle := half (PyInt py) in
  let bottom := top +~ sum_height in
  if (al =? 4)%Z then
    ll <- operand (Line.left l) ;;
    Ok (Line.set_box l (Some max_width) (Some sum_height) (Line.x l) (Line.y l)
          (Some ll) (Some (ll +~ half max_width)) (Some (ll +~ max_width))
          (Some top) (Some middle) (Some bottom))
  else if (al =? 5)%Z then
    lc <- operand (Line.center l) ;;
    let left := lc -~ half max_width in
    Ok (Line.set_box l (Some max_width) (Some sum_height) (Line.x l) (Line.y l)
          (Some left) (Some lc) (Some (left +~ max_width))
          (Some top) (Some middle) (Some bottom))
  else
    lr <- operand (Line.right l) ;;
    let left := lr -~ max_width in
    Ok (Line.set_box l (Some max_width) (Some sum_height) (Line.x l) (Line.y l)
          (Some left) (Some (left +~ half max_width)) (Some lr)
          (Some top) (Some middle) (Some bottom)).

(** [if line.chars and play_res_x > 0 and play_res_y > 0: ...]; the
    stacked branch also rewrites the line. *)
Definition position_chars (meta : Meta.t) (vertical_kanji : bool) (st : Style.t)
    (style_spacing : num) (l : Line.t) (cs : list Char.t)
    : result (Line.t * list Char.t) :=
  if truthy cs then
    res <- positive_resolution meta ;;
    match res with
    | None => Ok (l, cs)
    | Some (px, py) =>
        let al := Style.alignment st in
        if outside_middle_row al || negb vertical_kanji then
          cur_x <- operand (Line.left l) ;;
          Ok (l, chars_left_to_right al style_spacing l cur_x cs)
        else
          let (max_width, sum_height) := stack_extents Char.width Char.height cs in
          let cur_y := half (PyInt py) -~ half sum_height in
          l' <- fix_line al py l max_width sum_height cur_y ;;
          cs' <- chars_top_to_bottom al px l' max_width cur_y cs ;;
          Ok (l', cs')
    end
  else Ok (l, cs).

(** *** The body of [for li, line in enumerate(self.lines)] *)

Definition words_of (font : Font.provider) (st : Style.t) (l : Line.t) (text : str)
    : list Word.t :=
  make_words font st (Line.start_time l) (Line.end_time l)
             (Line.end_time l - Line.start_time l)%Z 0 (Re.findall_words text).

Definition syls_of (font : Font.provider) (st : Style.t) (ws : list Word.t)
    (raw_text : str) : list Syllable.t :=
  make_syls font st (word_boundaries ws) 0 0%Z 0 (Karaoke.parse (tokens raw_text)).

Definition extend_line (font : Font.provider) (meta : Meta.t) (vertical_kanji : bool)
    (l0 : Line.t) : result Line.t :=
  let text := Re.sub_groups (Line.raw_text l0) in
  let l1 := Line.set_duration_text l0 (Line.end_time l0 - Line.start_time l0)%Z text in
  match Line.styleref l1 with
  | None => Ok l1
  | Some st =>
      let (width, height) := Font.get_text_extents font st text in
      let l2 := Line.set_extents l1 width height (Font.get_metrics font st) in
      res <- positive_resolution meta ;;
      let l3 :=
        match res with
        | Some (px, py) => position_line px py st l2 width height
        | None => l2
        end in
      let space_width := fst (Font.get_text_extents font st [blank]) in
      let style_spacing := PyFloat (Style.spacing st) in
      ws <- position_words meta st space_width style_spacing l3 (words_of font st l3 text) ;;
      let l4 := Line.set_words l3 ws in
      ss <- position_syls meta vertical_kanji st space_width style_spacing l4
              (syls_of font st ws (Line.raw_text l4)) ;;
      let l5 := Line.set_syls l4 ss in
      lcs <- position_chars meta vertical_kanji st style_spacing l5
               (make_chars font st 0 (words_or_syls ws ss)) ;;
      Ok (Line.set_chars (fst lcs) (snd lcs))
  end.

End Extended.

(* ================================================================== *)
(** ** Durations between dialogs: lead-in and lead-out                 *)
(* ================================================================== *)

Module Timing.

(** The float literal [1000.1]. *)
Definition no_neighbour : num := PyFloat 1000.1%float.

(** The keys of [lines_by_styles], in order of first appearance. *)
Fixpoint style_names (seen : list str) (ls : list Line.t) : list str :=
  match ls with
  | [] => []
  | l :: rest =>
      if existsb (str_eqb (Line.style l)) seen then style_names seen rest
      else Line.style l :: style_names (Line.style l :: seen) rest
  end.

(** [lines_by_styles[style]] before it is sorted: the lines of that style
    name, in input order. *)
Definition style_group (ls : list Line.t) (style : str) : list Line.t :=
  filter (fun l => str_eqb (Line.style l) style) ls.

(** [list.sort(key=lambda x: x.start_time)], a stable sort: an insertion
    of each line in front of the sorted rest, after every line that starts
    strictly earlier. *)
Fixpoint insert (l : Line.t) (sorted : list Line.t) : list Line.t :=
  match sorted with
  | [] => [l]
  | l' :: rest =>
      if (Line.start_time l <=? Line.start_time l')%Z then l :: sorted
      else l' :: insert l rest
  end.

Fixpoint sort (g : list Line.t) : list Line.t :=
  match g with
  | [] => []
  | l :: rest => insert l (sort rest)
  end.

(** Body of [for li, line in enumerate(lines_by_styles[style])]; [g] is
    the sorted group. The indices [li - 1] and [li + 1] are read only
    where they are in range. *)
Definition lead (g : list Line.t) (li : nat) (line : Line.t) : Line.t :=
  let leadin :=
    if li =? 0 then no_neighbour
    else PyInt (Line.start_time line - Line.end_time (nth (li - 1) g line)) in
  let leadout :=
    if li =? length g - 1 then no_neighbour
    else PyInt (Line.start_time (nth (li + 1) g line) - Line.end_time line) in
  Line.set_lead line leadin leadout.

Fixpoint lead_from (g : list Line.t) (li : nat) (rest : list Line.t) : list Line.t :=
  match rest with
  | [] => []
  | line :: rest' => lead g li line :: lead_from g (S li) rest'
  end.

Definition annotate (g : list Line.t) : list Line.t := lead_from g 0 g.

(** The groups after the pass, in key order. *)
Definition groups (ls : list Line.t) : list (list Line.t) :=
  map (fun style => annotate (sort (style_group ls style))) (style_names [] ls).

Definition same_line (a b : Line.t) : bool :=
  match Line.i a, Line.i b with
  | Some x, Some y => x =? y
  | _, _ => false
  end.

(** [self.lines] after the pass: the groups hold the very objects of
    [self.lines], so each line, found by its index [i], carries what the
    pass wrote. *)
Definition lead_pass (ls : list Line.t) : list Line.t :=
  map (fun l =>
         match find (same_line l) (concat (groups ls)) with
         | Some l' => l'
         | None => l
         end) ls.

End Timing.

(* ================================================================== *)
(** ** The file loop and [Ass.__init__]                                *)
(* ================================================================== *)

Module Loader.

(** What [self] holds: [meta], [styles] (a dict, in insertion order),
    [lines], and the private output lists; [li] is the line counter of the
    loop. *)
Record model : Type := mk_model {
  meta : Meta.t;
  styles : list (str * Style.t);
  lines : list Line.t;
  li : nat;
  output : list str;
  output_extradata : list str
}.

Definition initial : model := mk_model Meta.empty [] [] 0 [] [].

(** The bodies of the three parsing branches (metadata, styles, events):
    each reads one line of the file, updates the model and can raise. None
    of them assigns the loop variable [section]. *)
Record parsers : Type := mk_parsers {
  parse_meta : model -> str -> result model;
  parse_style : model -> str -> result model;
  parse_event : model -> str -> result model
}.

(** [section_pattern.match(line)]: the line starts with an opening
    bracket. *)
Definition is_header (line : str) : bool :=
  Tokenizer.startswith line "["%char.

(** Group 1 of the match: what follows the bracket, up to the first
    closing bracket. *)
Definition header_name (line : str) : str :=
  Re.take_while (fun c => negb (Re.ch c "]"%char)) (tl line).

Definition script_info : str := lit "Script Info".
Definition project_garbage : str := lit "Aegisub Project Garbage".
Definition v4_styles : str := lit "V4+ Styles".
Definition events : str := lit "Events".
Definition extradata : str := lit "Aegisub Extradata".


Definition unexpected_section (name : str) : exn :=
  ValueError (lit "Unexpected section in the input file: [" ++ name ++ lit "]").

(** Body of [for line in open(self.path_input, ...)]: the section and the
    model after the line. *)
Definition step (P : parsers) (section : str) (m : model) (line : str)
    : result (str * model) :=
  if is_header line then
    let name := header_name line in
    Ok (name,
        mk_model (meta m) (styles m) (lines m) (li m)
                 (if str_eqb name extradata then output m else output m ++ [line])
                 (output_extradata m))
  else if str_eqb section script_info || str_eqb section project_garbage then
    m' <- parse_meta P m line ;; Ok (section, m')
  else if str_eqb section v4_styles then
    m' <- parse_style P m line ;; Ok (section, m')
  else if str_eqb section events then
    m' <- parse_event P m line ;; Ok (section, m')
  else if str_eqb section extradata then
    Ok (section,
        mk_model (meta m) (styles m) (lines m) (li m)
                 (output m) (output_extradata m ++ [line]))
  else Raise (unexpected_section section).

Fixpoint read (P : parsers) (section : str) (m : model) (file : list str)
    : result (str * model) :=
  match file with
  | [] => Ok (section, m)
  | line :: rest =>
      sm <- step P section m line ;;
      read P (fst sm) (snd sm) rest
  end.

Fixpoint extend_all (font : Font.provider) (meta : Meta.t) (vertical_kanji : bool)
    (ls : list Line.t) : result (list Line.t) :=
  match ls with
  | [] => Ok []
  | l :: rest =>
      l' <- Extended.extend_line font meta vertical_kanji l ;;
      rest' <- extend_all font meta vertical_kanji rest ;;
      Ok (l' :: rest')
  end.

(** [Ass.__init__] on the lines of the input file: the model it leaves
    in [self], or the exception it raises. [section] starts empty. *)
Definition init (P : parsers) (font : Font.provider) (extended vertical_kanji : bool)
    (file : list str) : result model :=
  sm <- read P [] initial file ;;
  let m := snd sm in
  if negb extended then Ok m
  else
    ls <- extend_all font (meta m) vertical_kanji (lines m) ;;
    Ok (mk_model (meta m) (styles m) (Timing.lead_pass ls) (li m)
                 (output m) (output_extradata m)).

End Loader.

(* ================================================================== *)
(** ** Vocabulary of the statements                                   *)
(* ================================================================== *)


Module KaraokeFree.
Import Tokenizer.



Definition newline_free (u : str) : bool :=
  forallb (fun c => negb (Re.ch c Re.newline)) u.

Definition text_of (ts : list token) : str :=
  concat (map (fun t => match t with Text v => v | Tags _ => [] end) ts).


Definition no_rbrace (u : str) : bool :=
  forallb (fun c => negb (Re.ch c Re.rbrace)) u.

Definition text_parts (parts : list str) : str :=
  text_of (map classify (filter truthy parts)).

End KaraokeFree.

Module WordLink.

(** A half-open range [(start, end, word_i)] holds an offset. *)
Definition contains (r : nat * nat * nat) (offset : nat) : bool :=
  let '(start, end_, _) := r in (start <=? offset) && (offset <? end_).

(** What a syllable adds to the running cursor. *)
Definition span (s : Syllable.t) : nat :=
  Syllable.prespace s + length (Syllable.text s) + Syllable.postspace s.

(** The start offset of a syllable, as the specification words it: the
    spans of the syllables before it, plus its own prespace. *)
Definition start_offset (prior : list Syllable.t) (s : Syllable.t) : nat :=
  list_sum (map span prior) + Syllable.prespace s.

(** The word index as the specification words it: the range that holds
    the offset, found by a scan in list order, else 0. *)
Definition word_index (wbs : list (nat * nat * nat)) (offset : nat) : nat :=
  match find (fun r => contains r offset) wbs with
  | Some (_, _, w_i) => w_i
  | None => 0
  end.

End WordLink.

Module Vocabulary.

(** The timing of a word. *)
Definition word_timing (w : Word.t) : Z * Z * Z :=
  (Word.start_time w, Word.end_time w, Word.duration w).




Definition line_position (l : Line.t) : list (option num) :=
  [Line.x l; Line.y l; Line.left l; Line.center l; Line.right l;
   Line.top l; Line.middle l; Line.bottom l].







End Vocabulary.

(* ================================================================== *)
(** ** Further vocabulary                                              *)
(* ================================================================== *)

Module Core.

(** An element without its position: what the building loops give it. *)
Definition word (w : Word.t) : Word.t :=
  Word.set_pos w None None None None None None None None.

Definition syl (s : Syllable.t) : Syllable.t :=
  Syllable.set_pos s None None None None None None None None.

Definition char (c : Char.t) : Char.t :=
  Char.set_pos c None None None None None None None None.

End Core.

Module Records.

(** The texts of the entries of [syllable_data], put end to end. *)
Definition texts (data : list Karaoke.syl_data) : str :=
  concat (map Karaoke.text data).

Definition has_k (d : Karaoke.syl_data) : bool :=
  match Karaoke.k d with Some _ => true | None => false end.

(** The number of matches of the karaoke pattern in the tag segments. *)
Fixpoint k_count (ts : list Tokenizer.token) : nat :=
  match ts with
  | [] => 0
  | Tokenizer.Tags v :: rest => length (fst (Re.k_tags v)) + k_count rest
  | Tokenizer.Text _ :: rest => k_count rest
  end.

(** A text holds a character that is not a blank. *)
Definition has_ink (u : str) : bool := existsb (fun c => negb (Re.is_space c)) u.

(** What an entry of [words_or_syls] adds to the characters of the line. *)
Definition el_span (el : Extended.element) : nat :=
  Extended.el_prespace el + length (Extended.el_text el) + Extended.el_postspace el.


(** What a found word covers of the text. *)
Definition found_span (f : nat * str * nat) : nat :=
  let '(pre, w, post) := f in pre + length w + post.

End Records.

Module Pieces.

(** A karaoke match with the text in front of it, as it stands in the tag
    string. *)
Definition piece (m : Re.k_match) : str := Re.k_before m ++ Re.k_full m.

(** The digits of a match: at least one, all decimal. *)
Definition digits_ok (ds : str) : Prop := ds <> [] /\ forallb Re.is_digit ds = true.

(** The span of a syllable built from a record text: the text itself when it
    holds a character that is not a blank; a text of blanks only is counted
    by [lstrip] and by [rstrip], so twice. *)
Definition text_span (t : str) : nat :=
  if Records.has_ink t then length t else 2 * length t.

End Pieces.

Module Found.

(** A word that the word pattern can match: not empty, no blank in it. *)
Definition inked (w : str) : Prop :=
  w <> [] /\ forallb (fun c => negb (Re.is_space c)) w = true.

Definition prespace (f : nat * str * nat) : nat := fst (fst f).
Definition word (f : nat * str * nat) : str := snd (fst f).

(** The matches from a state of the scan on: the first one has the leading
    blanks counted so far, the next ones have none. *)
Definition led_by (pre : nat) (found : list (nat * str * nat)) : Prop :=
  match found with
  | [] => False
  | f :: rest => prespace f = pre /\ Forall (fun g => prespace g = 0) rest
  end.

End Found.

Module Placed.




End Placed.

(* ================================================================== *)
(** ** The events branch of the file loop                              *)
(* ================================================================== *)

Module Events.

(** What the branch can raise: [IndexError] on a missing field, or what
    [int] and [Convert.time] raise. *)
Inductive exn : Type :=
| IndexError
| Builtin (e : Py.exn).

Inductive outcome (A : Type) : Type :=
| Done (a : A)
| Fail (e : exn).
Arguments Done {A} a.
Arguments Fail {A} e.

Definition and_then {A B} (c : outcome A) (k : A -> outcome B) : outcome B :=
  match c with
  | Done a => k a
  | Fail e => Fail e
  end.

Definition lift {A} (r : result A) : outcome A :=
  match r with
  | Ok a => Done a
  | Raise e => Fail (Builtin e)
  end.

(** The two functions the branch calls on fields: the builtin [int] and
    [Convert.time] of [convert.py]. *)
Record builtins : Type := mk_builtins {
  int : str -> result Z;
  time : str -> result Z
}.

Definition comma : ascii := ","%char.

(** [s.split(",")]; [field] is the field being read, reversed. *)
Fixpoint split_on (field : str) (u : str) : list str :=
  match u with
  | [] => [rev field]
  | c :: u' =>
      if Re.ch c comma then rev field :: split_on [] u'
      else split_on (c :: field) u'
  end.

Definition split (u : str) : list str := split_on [] u.

(** [",".join(fields)]. *)
Fixpoint join (fields : list str) : str :=
  match fields with
  | [] => []
  | f :: rest =>
      match rest with
      | [] => f
      | _ :: _ => f ++ comma :: join rest
      end
  end.

(** [line_fields[k]]. *)
Definition item (fields : list str) (k : nat) : outcome str :=
  match nth_error fields k with
  | Some f => Done f
  | None => Fail IndexError
  end.

(** What follows a prefix, when the text starts with it. *)
Fixpoint after_prefix (prefix u : str) : option str :=
  match prefix, u with
  | [], _ => Some u
  | x :: prefix', y :: u' => if Re.ch x y then after_prefix prefix' u' else None
  | _ :: _, [] => None
  end.

Definition not_newline (c : ascii) : bool := negb (Re.ch c Re.newline).

(** The tail of the event pattern, one or more characters other than a
    newline up to the end of the line: the end of the string, or a newline
    that ends it. *)
Definition to_end_of_line (body : str) : option str :=
  let content := Re.take_while not_newline body in
  match content, Re.drop_while not_newline body with
  | _ :: _, [] => Some content
  | _ :: _, [_] => Some content
  | _, _ => None
  end.

(** [re.match] of the event pattern: whether group 1 is "Comment", and
    group 2. *)
Definition match_event (line : str) : option (bool * str) :=
  match after_prefix (lit "Dialogue: ") line with
  | Some body => option_map (pair false) (to_end_of_line body)
  | None =>
      match after_prefix (lit "Comment: ") line with
      | Some body => option_map (pair true) (to_end_of_line body)
      | None => None
      end
  end.

(** [re.sub] of a leading "Dialogue:" or "Comment:" by "Comment:". *)
Definition kept (line : str) : str :=
  match after_prefix (lit "Dialogue:") line with
  | Some rest => lit "Comment:" ++ rest
  | None => line
  end.

(** [self.styles.get(name)]. *)
Fixpoint get (styles : list (str * Style.t)) (name : str) : option Style.t :=
  match styles with
  | [] => None
  | (k, v) :: rest => if str_eqb k name then Some v else get rest name
  end.

Declare Scope events_scope.
Notation "x <~ c ;; k" := (and_then c (fun x => k))
  (at level 61, c at next level, right associativity) : events_scope.
Open Scope events_scope.

(** The call [Line(...)]: its arguments are evaluated in order. *)
Definition make_line (B : builtins) (styles : list (str * Style.t)) (li : nat)
    (comment : bool) (line_fields : list str) : outcome Line.t :=
  f0 <~ item line_fields 0 ;;
  layer <~ lift (int B f0) ;;
  f1 <~ item line_fields 1 ;;
  start_time <~ lift (time B f1) ;;
  f2 <~ item line_fields 2 ;;
  end_time <~ lift (time B f2) ;;
  style <~ item line_fields 3 ;;
  actor <~ item line_fields 4 ;;
  f5 <~ item line_fields 5 ;;
  margin_l <~ lift (int B f5) ;;
  f6 <~ item line_fields 6 ;;
  margin_r <~ lift (int B f6) ;;
  f7 <~ item line_fields 7 ;;
  margin_v <~ lift (int B f7) ;;
  effect <~ item line_fields 8 ;;
  Done (Line.parsed comment layer start_time end_time style (get styles style) actor
          margin_l margin_r margin_v effect (join (skipn 9 line_fields)) li).

(** The body of [elif section == "Events"]. *)
Definition branch (B : builtins) (keep_original : bool) (m : Loader.model) (line : str)
    : outcome Loader.model :=
  let output :=
    if keep_original then Loader.output m ++ [kept line]
    else match after_prefix (lit "Format") line with
         | Some _ => Loader.output m ++ [Re.strip line]
         | None => Loader.output m
         end in
  match match_event line with
  | Some (comment, content) =>
      l <~ make_line B (Loader.styles m) (Loader.li m) comment (split content) ;;
      Done (Loader.mk_model (Loader.meta m) (Loader.styles m) (Loader.lines m ++ [l])
              (S (Loader.li m)) output (Loader.output_extradata m))
  | None =>
      Done (Loader.mk_model (Loader.meta m) (Loader.styles m) (Loader.lines m)
              (Loader.li m) output (Loader.output_extradata m))
  end.

(** The branch over the lines of an events section. *)
Fixpoint read (B : builtins) (keep_original : bool) (m : Loader.model) (body : list str)
    : outcome Loader.model :=
  match body with
  | [] => Done m
  | line :: rest => m' <~ branch B keep_original m line ;; read B keep_original m' rest
  end.

Close Scope events_scope.

(** Builtins for the worked inputs: [int] on a run of digits, and times
    given in milliseconds. *)
Definition digits_only : builtins :=
  mk_builtins
    (fun f => if truthy f && forallb Re.is_digit f then Ok (Re.int_of_digits f)
              else Raise (ValueError (lit "invalid literal for int()")))
    (fun f => if truthy f && forallb Re.is_digit f then Ok (Re.int_of_digits f)
              else Raise (ValueError (lit "invalid time")))
.

End Events.

(* ================================================================== *)
(** ** write_line and save                                             *)
(* ================================================================== *)

From Stdlib Require DecimalString.

Module Output.

(** What [self] holds for writing: the two private output lists, the count
    of produced lines and the saved flag. *)
Record t : Type := mk {
  output : list str;
  output_extradata : list str;
  plines : nat;
  saved : bool
}.

(** The output lists that [__init__] leaves. *)
Definition of_model (m : Loader.model) : t :=
  mk (Loader.output m) (Loader.output_extradata m) 0 false.

(** The conversion [d] of the format operator on an int: decimal digits,
    with a minus sign below zero. *)
Definition percent_d (n : Z) : str :=
  list_ascii_of_string (DecimalString.NilZero.string_of_int (Z.to_int n)).

(** The conversion [04d]: padded with zeros to four characters, the sign
    counted and put first. *)
Definition percent_04d (n : Z) : str :=
  let sign := if (n <? 0)%Z then ["-"%char] else [] in
  let digits := percent_d (Z.abs n) in
  sign ++ repeat "0"%char (4 - length sign - length digits) ++ digits.

(** The conversion [s] on an optional string. *)
Definition percent_s (v : option str) : str :=
  match v with
  | Some s => s
  | None => lit "None"
  end.

(** The string that [write_line] formats; [time_text] is [Convert.time] on
    an int, of [convert.py]. *)
Definition record (time_text : Z -> str) (line : Line.t) : str :=
  Re.newline
  :: (if Line.comment line then lit "Comment" else lit "Dialogue")
  ++ lit ": " ++ percent_d (Line.layer line)
  ++ Events.comma :: time_text (Z.max 0 (Line.start_time line))
  ++ Events.comma :: time_text (Z.max 0 (Line.end_time line))
  ++ Events.comma :: Line.style line
  ++ Events.comma :: Line.actor line
  ++ Events.comma :: percent_04d (Line.margin_l line)
  ++ Events.comma :: percent_04d (Line.margin_r line)
  ++ Events.comma :: percent_04d (Line.margin_v line)
  ++ Events.comma :: Line.effect line
  ++ Events.comma :: percent_s (Line.text line).

(** [write_line] on a [Line]. *)
Definition write_line (time_text : Z -> str) (s : t) (line : Line.t) : t :=
  mk (output s ++ [record time_text line]) (output_extradata s) (S (plines s)) (saved s).

Definition extradata_header : str :=
  Re.newline :: lit "[Aegisub Extradata]" ++ [Re.newline].

(** [save]: the text written to the output file (with the newline as the
    line separator of the platform), and [self] after it. *)
Definition save (s : t) : str * t :=
  (concat (output s ++ [[Re.newline]])
   ++ (if truthy (output_extradata s)
       then extradata_header ++ concat (output_extradata s)
       else []),
   mk (output s) (output_extradata s) (plines s) true).

(** A field that holds no comma and no newline. *)
Definition plain (f : str) : bool :=
  forallb (fun c => negb (Re.ch c Events.comma) && negb (Re.ch c Re.newline)) f.

Definition carriage_return : ascii := ascii_of_nat 13.

(** A text that holds no line ending. *)
Definition one_line (u : str) : bool :=
  forallb (fun c => negb (Re.ch c Re.newline) && negb (Re.ch c carriage_return)) u.

(** The lines of a text, as iterating over the file opened in text mode
    gives them: a line ends at a newline, at a carriage return, or at a
    carriage return followed by a newline, and each ending is read as one
    newline, which the line keeps; [cur] is the line being read, reversed. *)
Fixpoint lines_from (cur : str) (u : str) : list str :=
  match u with
  | [] => match cur with [] => [] | _ :: _ => [rev cur] end
  | c :: u' =>
      if Re.ch c Re.newline then rev (Re.newline :: cur) :: lines_from [] u'
      else if Re.ch c carriage_return then
        rev (Re.newline :: cur)
        :: match u' with
           | d :: u'' =>
               if Re.ch d Re.newline then lines_from [] u'' else lines_from [] u'
           | [] => lines_from [] u'
           end
      else lines_from (c :: cur) u'
  end.

Definition file_lines (u : str) : list str := lines_from [] u.

End Output.

(* ================================================================== *)
(** ** The metadata branch                                             *)
(* ================================================================== *)

Module Metadata.
Import Events.
Local Open Scope events_scope.

Definition space : ascii := " "%char.

(** [$]: the end of the string, or the newline that ends it. *)
Definition at_end (rest : str) : bool :=
  match rest with
  | [] => true
  | [c] => Re.ch c Re.newline
  | _ :: _ :: _ => false
  end.

(** [re.match] of a key, spaces, one or more digits and the end of the
    line. *)
Definition match_number (key : str) (line : str) : bool :=
  match after_prefix key line with
  | Some rest =>
      let value := Re.drop_while (fun c => Re.ch c space) rest in
      truthy (Re.take_while Re.is_digit value)
      && at_end (Re.drop_while Re.is_digit value)
  | None => false
  end.

(** [re.match] of a key, spaces, one or more characters other than a
    newline and the end of the line. *)
Definition match_text (key : str) (line : str) : bool :=
  match after_prefix key line with
  | Some rest =>
      match to_end_of_line rest with
      | Some _ => true
      | None => false
      end
  | None => false
  end.

Definition set_wrap_style (t : Meta.t) (v : Z) : Meta.t :=
  Meta.mk (Some v) (Meta.scaled_border_and_shadow t) (Meta.play_res_x t)
    (Meta.play_res_y t) (Meta.audio t) (Meta.video t).

Definition set_scaled_border_and_shadow (t : Meta.t) (v : bool) : Meta.t :=
  Meta.mk (Meta.wrap_style t) (Some v) (Meta.play_res_x t)
    (Meta.play_res_y t) (Meta.audio t) (Meta.video t).

Definition set_play_res_x (t : Meta.t) (v : Z) : Meta.t :=
  Meta.mk (Meta.wrap_style t) (Meta.scaled_border_and_shadow t) (Some v)
    (Meta.play_res_y t) (Meta.audio t) (Meta.video t).

Definition set_play_res_y (t : Meta.t) (v : Z) : Meta.t :=
  Meta.mk (Meta.wrap_style t) (Meta.scaled_border_and_shadow t) (Meta.play_res_x t)
    (Some v) (Meta.audio t) (Meta.video t).

(** The switch of the branch: the metadata after it and the line to
    append. Its last two arms, on the audio and the video file, read the
    file system: [media_arms] stands for them and for a line that no arm
    matches. *)
Definition switch (B : builtins) (media_arms : Meta.t -> str -> outcome (Meta.t * str))
    (t : Meta.t) (line : str) : outcome (Meta.t * str) :=
  if match_number (lit "WrapStyle:") line then
    v <~ lift (int B (Re.strip (skipn 11 line))) ;;
    Done (set_wrap_style t v, line)
  else if match_text (lit "ScaledBorderAndShadow:") line then
    Done (set_scaled_border_and_shadow t
            (str_eqb (Re.strip (skipn 23 line)) (lit "yes")), line)
  else if match_number (lit "PlayResX:") line then
    v <~ lift (int B (Re.strip (skipn 10 line))) ;;
    Done (set_play_res_x t v, line)
  else if match_number (lit "PlayResY:") line then
    v <~ lift (int B (Re.strip (skipn 10 line))) ;;
    Done (set_play_res_y t v, line)
  else media_arms t line.

(** The body of the branch of the two metadata sections. *)
Definition branch (B : builtins) (media_arms : Meta.t -> str -> outcome (Meta.t * str))
    (m : Loader.model) (line : str) : outcome Loader.model :=
  r <~ switch B media_arms (Loader.meta m) line ;;
  Done (Loader.mk_model (fst r) (Loader.styles m) (Loader.lines m) (Loader.li m)
          (Loader.output m ++ [snd r]) (Loader.output_extradata m)).

End Metadata.

(* ================================================================== *)
(** ** Worked inputs                                                   *)
(* ================================================================== *)

Module Fixture.

(** A fixed-pitch font: every character is 10 wide and 20 high. *)
Definition fixed_pitch : Font.provider :=
  Font.mk (fun _ text => (PyFloat (float_of_Z (10 * Z.of_nat (length text))), PyFloat 20%float))
          (fun _ => (PyFloat 16%float, PyFloat 4%float, PyFloat 2%float, PyFloat 1%float)).

(** A style with the given alignment, no margins and no spacing. *)
Definition style (alignment : Z) : Style.t :=
  Style.mk (lit "Arial") 20%float
           (lit "&HFFFFFF&") (lit "&H00&") (lit "&H0000FF&") (lit "&H00&")
           (lit "&H000000&") (lit "&H00&") (lit "&H000000&") (lit "&H00&")
           false false false false 100%float 100%float 0%float 0%float
           false 2%float 2%float alignment 0 0 0 1.

Definition frame (x y : option Z) : Meta.t :=
  Meta.mk None None x y None None.

(** A dialogue line from 1 s to 3 s in style "Default". *)
Definition dialogue (styleref : option Style.t) (raw_text : string) : Line.t :=
  Line.parsed false 0 1000 3000 (lit "Default") styleref [] 0 0 0 [] (lit raw_text) 0.

(** Stand-ins for the three parsing branches: the metadata and style
    branches leave the model as it is, the events branch appends one line
    of the given style reference whose raw text is the line read. *)
Definition parsers (styleref : option Style.t) : Loader.parsers :=
  Loader.mk_parsers
    (fun m _ => Ok m)
    (fun m _ => Ok m)
    (fun m line =>
       Ok (Loader.mk_model (Loader.meta m) (Loader.styles m)
             (Loader.lines m
              ++ [Line.parsed false 0 1000 3000 (lit "Default") styleref [] 0 0 0 []
                    line (Loader.li m)])
             (S (Loader.li m)) (Loader.output m) (Loader.output_extradata m))).

End Fixture.

(* ================================================================== *)
(** ** The scanners on small inputs                                    *)
(* ================================================================== *)

Example split_groups_hello :
  Re.split_groups (lit "Hello {\k50}world") = [lit "Hello "; lit "{\k50}"; lit "world"].
Proof. reflexivity. Qed.

Example split_groups_leading_group :
  Re.split_groups (lit "{\i1}a{b") = [lit ""; lit "{\i1}"; lit "a{b"].
Proof. reflexivity. Qed.

Example k_tags_two :
  Re.k_tags (lit "\i1\kf12\-fx\K3\b1")
  = ([Re.mk_k_match (lit "\i1") (lit "\kf12\-fx") (lit "12");
      Re.mk_k_match (lit "") (lit "\K3") (lit "3")], lit "\b1").
Proof. reflexivity. Qed.

Example findall_words_example :
  Re.findall_words (lit "  ab  cd e ") = [(2, lit "ab", 2); (0, lit "cd", 1); (0, lit "e", 1)].
Proof. reflexivity. Qed.

Example hello_world_syllable_data :
  Karaoke.parse (Tokenizer.tokens (lit "Hello {\k50}world"))
  = [Karaoke.mk_data (lit "\k50") (Some (lit "\k50", lit "50")) (lit "Hello world")].
Proof. reflexivity. Qed.

Example two_k_syllable_data :
  Karaoke.parse (Tokenizer.tokens (lit "{\k10}ka{\i1\k20}ra{\k5}"))
  = [Karaoke.mk_data (lit "\k10") (Some (lit "\k10", lit "10")) (lit "ka");
     Karaoke.mk_data (lit "\i1\k20") (Some (lit "\k20", lit "20")) (lit "ra");
     Karaoke.mk_data (lit "\k5") (Some (lit "\k5", lit "5")) (lit "")].
Proof. reflexivity. Qed.

(* ================================================================== *)
(** ** The tokenizer                                                   *)
(* ================================================================== *)

Section TokenizerFacts.
Import Tokenizer.

(** The parts of a split, put end to end, are the text that was split. *)
Lemma split_scan_concat (u : str) :
  forall inside acc, concat (Re.split_scan inside acc u) = rev acc ++ u.
Proof.
  induction u as [|c u IH]; intros inside acc; simpl.
  - reflexivity.
  - destruct inside.
    + destruct (Re.ch c Re.rbrace); simpl; rewrite IH; simpl;
        rewrite <- ?app_assoc; reflexivity.
    + destruct (Re.ch c Re.lbrace && Re.closes u); simpl; rewrite IH; simpl;
        rewrite <- ?app_assoc; reflexivity.
Qed.

Lemma concat_filter_truthy (parts : list str) :
  concat (filter truthy parts) = concat parts.
Proof.
  induction parts as [|p parts IH]; simpl; [reflexivity|].
  destruct p; simpl; [exact IH | now rewrite IH].
Qed.

Lemma ch_eq (c d : ascii) : Re.ch c d = true -> c = d.
Proof. unfold Re.ch. apply Ascii.eqb_eq. Qed.

(** A part that starts with an opening brace and ends with a closing one
    is its own inner slice between the two braces. *)
Lemma render_classify (part : str) : render (classify part) = part.
Proof.
  unfold classify.
  destruct (startswith part Re.lbrace && endswith part Re.rbrace) eqn:E;
    [|reflexivity].
  apply andb_true_iff in E as [Hs He].
  destruct part as [|a q]; [discriminate|].
  simpl in Hs. apply ch_eq in Hs. subst a.
  destruct (exists_last (l := Re.lbrace :: q)) as (q' & z & Hq); [discriminate|].
  unfold endswith in He. rewrite Hq, rev_app_distr in He. simpl in He.
  apply ch_eq in He. subst z.
  destruct q' as [|b q'].
  - simpl in Hq. inversion Hq.
  - simpl in Hq. inversion Hq; subst.
    unfold render, inner. simpl tl. now rewrite removelast_last.
Qed.

Lemma rejoin_map_classify (parts : list str) :
  rejoin (map classify parts) = concat parts.
Proof.
  unfold rejoin. induction parts as [|p parts IH]; simpl; [reflexivity|].
  now rewrite render_classify, IH.
Qed.

Lemma tokens_nonempty (raw : str) :
  Forall (fun t => render t <> []) (tokens raw).
Proof.
  unfold tokens. apply Forall_forall. intros t Ht.
  apply in_map_iff in Ht as (p & <- & Hp).
  apply filter_In in Hp as [_ Hp].
  rewrite render_classify. now destruct p.
Qed.

End TokenizerFacts.

(** C4. Round trip of the tag tokenizer: for every raw line text, and so
    for every text whose brace groups are balanced and not nested, writing
    the tokens back in order, each tag segment inside braces again, gives
    the raw text exactly; and no token stands for an empty segment. *)
Theorem tokenizer_round_trip (raw_text : str) :
  Tokenizer.rejoin (Tokenizer.tokens raw_text) = raw_text
  /\ Forall (fun t => Tokenizer.render t <> []) (Tokenizer.tokens raw_text).
Proof.
  split.
  - unfold Tokenizer.tokens.
    rewrite rejoin_map_classify, concat_filter_truthy.
    unfold Re.split_groups. now rewrite split_scan_concat.
  - apply tokens_nonempty.
Qed.

(* ================================================================== *)
(** ** The karaoke fold                                                *)
(* ================================================================== *)



Section KaraokeFacts.
Import Tokenizer KaraokeFree.

Lemma k_scan_cons (c : ascii) (u acc : str) :
  Re.k_scan 0 acc (c :: u)
  = match Re.k_at (c :: u) with
    | Some (full, ds) =>
        let (ms, trail) := Re.k_scan (length full - 1) [] u in
        (Re.mk_k_match (rev acc) full ds :: ms, trail)
    | None => Re.k_scan 0 (c :: acc) u
    end.
Proof. reflexivity. Qed.





(** *** The text tokens of a line are its tag-stripped text *)

Lemma text_parts_cons (p : str) (parts : list str) :
  text_parts (p :: parts)
  = (if startswith p Re.lbrace && endswith p Re.rbrace then [] else p)
    ++ text_parts parts.
Proof.
  unfold text_parts, text_of. destruct p as [|a p]; [reflexivity|].
  cbn [filter truthy map concat]. unfold classify at 1.
  now destruct (startswith (a :: p) Re.lbrace && endswith (a :: p) Re.rbrace).
Qed.

Lemma closes_false_no_rbrace (u : str) :
  newline_free u = true -> Re.closes u = false -> no_rbrace u = true.
Proof.
  induction u as [|c u IH]; simpl; intros Hn Hc; [reflexivity|].
  apply andb_true_iff in Hn as [Hc1 Hn].
  destruct (Re.ch c Re.rbrace); [discriminate|].
  destruct (Re.ch c Re.newline); [discriminate|]. simpl. auto.
Qed.

Lemma startswith_app (p q : str) (c : ascii) :
  p <> [] -> startswith (p ++ q) c = startswith p c.
Proof. destruct p; [congruence|reflexivity]. Qed.

Lemma endswith_snoc (p : str) (x c : ascii) :
  endswith (p ++ [x]) c = Re.ch x c.
Proof. unfold endswith. now rewrite rev_app_distr. Qed.

Lemma rev_nonempty (c : ascii) (acc : str) : rev (c :: acc) <> [].
Proof. simpl. now destruct (rev acc). Qed.

(** The two modes of the split scan against the two modes of the
    substitution scan. Outside a group, a pending part that starts with an
    opening brace was refused as a group, so no closing brace follows it. *)
Lemma split_scan_text (u : str) :
  newline_free u = true ->
  forall acc,
    ((startswith (rev acc) Re.lbrace = true ->
      endswith (rev acc) Re.rbrace = false /\ no_rbrace u = true) ->
     text_parts (Re.split_scan false acc u) = rev acc ++ Re.sub_scan false u)
    /\ (startswith (rev acc) Re.lbrace = true -> Re.closes u = true ->
        text_parts (Re.split_scan true acc u) = Re.sub_scan true u).
Proof.
  induction u as [|c u IH]; intros Hn acc.
  - split.
    + intros Hinv. simpl. rewrite text_parts_cons.
      unfold text_parts, text_of. simpl. rewrite !app_nil_r.
      destruct (startswith (rev acc) Re.lbrace) eqn:Es; [|reflexivity].
      destruct (Hinv eq_refl) as [He _]. now rewrite He.
    + intros _ Hc. discriminate.
  - simpl in Hn. apply andb_true_iff in Hn as [Hc1 Hn].
    apply negb_true_iff in Hc1.
    split.
    + intros Hinv. simpl.
      destruct (Re.ch c Re.lbrace && Re.closes u) eqn:Em.
      * apply andb_true_iff in Em as [Hl Hcl]. apply ch_eq in Hl. subst c.
        rewrite text_parts_cons.
        destruct (IH Hn [Re.lbrace]) as [_ IHin].
        rewrite IHin by (assumption || reflexivity).
        destruct (startswith (rev acc) Re.lbrace) eqn:Es; [|reflexivity].
        destruct (Hinv eq_refl) as [He _]. now rewrite He.
      * destruct (IH Hn (c :: acc)) as [IHout _].
        rewrite IHout; [simpl; now rewrite <- app_assoc|].
        intros Hs. simpl in Hs.
        destruct acc as [|a acc].
        -- simpl in Hs. rewrite Hs in Em. simpl in Em.
           split; [|now apply closes_false_no_rbrace].
           apply ch_eq in Hs. subst c. reflexivity.
        -- rewrite startswith_app in Hs by apply rev_nonempty.
           destruct (Hinv Hs) as [_ Hr]. simpl in Hr.
           apply andb_true_iff in Hr as [Hr1 Hr2].
           split; [|assumption].
           simpl rev. rewrite endswith_snoc. now apply negb_true_iff.
    + intros Hs Hcl. simpl in Hcl |- *.
      destruct (Re.ch c Re.rbrace) eqn:Er.
      * rewrite text_parts_cons. simpl rev.
        assert (Hne : rev acc <> []) by (destruct (rev acc); [discriminate|congruence]).
        rewrite startswith_app by assumption. rewrite Hs, endswith_snoc, Er. simpl.
        destruct (IH Hn []) as [IHout _]. apply IHout. discriminate.
      * rewrite Hc1 in Hcl.
        destruct (IH Hn (c :: acc)) as [_ IHin]. apply IHin; [|assumption].
        simpl rev.
        assert (Hne : rev acc <> []) by (destruct (rev acc); [discriminate|congruence]).
        now rewrite startswith_app.
Qed.

(** On a raw text without a newline, as one line of the file is, the text
    tokens put end to end are [line.text]. *)
Lemma text_of_tokens (raw : str) :
  newline_free raw = true -> text_of (tokens raw) = Re.sub_groups raw.
Proof.
  intros Hn. destruct (split_scan_text raw Hn []) as [H _].
  apply H. discriminate.
Qed.

End KaraokeFacts.




(* ================================================================== *)
(** ** Linking syllables to words                                      *)
(* ================================================================== *)

Section WordLinkFacts.
Import WordLink.

Lemma find_word_word_index (wbs : list (nat * nat * nat)) (offset : nat) :
  Extended.find_word wbs offset = word_index wbs offset.
Proof.
  unfold word_index. induction wbs as [|[[s e] w] wbs IH]; simpl; [reflexivity|].
  destruct ((s <=? offset) && (offset <? e)); [reflexivity|exact IH].
Qed.

(** Every range starts at or after the running offset it was built from. *)
Lemma boundaries_lower (ws : list Word.t) :
  forall idx s e w, In (s, e, w) (Extended.boundaries idx ws) -> idx <= s.
Proof.
  induction ws as [|w0 ws IH]; simpl; intros idx s e w H; [contradiction|].
  destruct H as [H|H].
  - inversion H; subst. lia.
  - apply IH in H. lia.
Qed.

(** The ranges do not overlap: at most one holds a given offset. *)
Lemma boundaries_disjoint (ws : list Word.t) :
  forall idx r r' offset,
    In r (Extended.boundaries idx ws) -> In r' (Extended.boundaries idx ws) ->
    contains r offset = true -> contains r' offset = true -> r = r'.
Proof.
  assert (Hlate : forall ws idx s e w offset,
             In (s, e, w) (Extended.boundaries idx ws) -> offset < idx ->
             contains (s, e, w) offset = true -> False).
  { intros ws0 idx s e w offset Hin Hlt Hc. apply boundaries_lower in Hin.
    simpl in Hc. apply andb_true_iff in Hc as [Hc _].
    apply Nat.leb_le in Hc. lia. }
  induction ws as [|w0 ws IH]; simpl; intros idx r r' offset Hr Hr' Hc Hc';
    [contradiction|].
  destruct Hr as [Hr|Hr], Hr' as [Hr'|Hr'].
  - congruence.
  - exfalso. subst r. destruct r' as [[s' e'] w'].
    simpl in Hc. apply andb_true_iff in Hc as [_ Hc]. apply Nat.ltb_lt in Hc.
    eapply Hlate; [exact Hr'| |exact Hc']. lia.
  - exfalso. subst r'. destruct r as [[s e] w].
    simpl in Hc'. apply andb_true_iff in Hc' as [_ Hc']. apply Nat.ltb_lt in Hc'.
    eapply Hlate; [exact Hr| |exact Hc]. lia.
  - eapply IH; eassumption.
Qed.

Lemma start_offset_cons (h : Syllable.t) (prior : list Syllable.t) (s : Syllable.t) :
  start_offset (h :: prior) s = span h + start_offset prior s.
Proof. unfold start_offset. simpl. lia. Qed.

(** The loop's cursor is the sum of the spans of the syllables built so
    far. *)
Lemma make_syls_word_i (font : Font.provider) (st : Style.t)
    (wbs : list (nat * nat * nat)) (data : list Karaoke.syl_data) :
  forall k si last_time syl_char_idx syl,
    nth_error (Extended.make_syls font st wbs si last_time syl_char_idx data) k = Some syl ->
    Syllable.word_i syl
    = Extended.find_word wbs
        (syl_char_idx
         + start_offset
             (firstn k (Extended.make_syls font st wbs si last_time syl_char_idx data)) syl).
Proof.
  induction data as [|d data IH]; intros k si lt idx syl H.
  - destruct k; discriminate.
  - destruct k as [|k].
    + simpl in H. inversion H; subst. unfold start_offset. simpl. reflexivity.
    + cbn [Extended.make_syls nth_error] in H. apply IH in H.
      rewrite H. f_equal. cbn [Extended.make_syls firstn].
      rewrite start_offset_cons. unfold span.
      cbn [Syllable.prespace Syllable.text Syllable.postspace]. lia.
Qed.

End WordLinkFacts.

(** C6. For every line, the word index of each syllable is found from its
    start offset, which is the running cursor (the sum of prespace +
    len(text) + postspace over the syllables before it) plus its own
    prespace: it is the index of the range of [word_boundaries] that holds
    the offset, found by a scan in ascending order; that range is the only
    one holding the offset; and when no range holds it the word index is 0. *)
Theorem syllable_word_index
    (font : Font.provider) (st : Style.t) (ws : list Word.t) (raw_text : str)
    (k : nat) (syl : Syllable.t) :
  nth_error (Extended.syls_of font st ws raw_text) k = Some syl ->
  let wbs := Extended.word_boundaries ws in
  let offset :=
    WordLink.start_offset (firstn k (Extended.syls_of font st ws raw_text)) syl in
  Syllable.word_i syl = WordLink.word_index wbs offset
  /\ (forall r r', In r wbs -> In r' wbs ->
        WordLink.contains r offset = true -> WordLink.contains r' offset = true ->
        r = r')
  /\ (forall r, In r wbs -> WordLink.contains r offset = true ->
        Syllable.word_i syl = snd r)
  /\ ((forall r, In r wbs -> WordLink.contains r offset = false) ->
        Syllable.word_i syl = 0).
Proof.
  intros H wbs offset.
  assert (Hw : Syllable.word_i syl = WordLink.word_index wbs offset).
  { unfold Extended.syls_of in H. apply make_syls_word_i in H.
    rewrite H, find_word_word_index. reflexivity. }
  assert (Hu : forall r r', In r wbs -> In r' wbs ->
             WordLink.contains r offset = true -> WordLink.contains r' offset = true ->
             r = r').
  { intros r r'. apply boundaries_disjoint. }
  split; [exact Hw|]. split; [exact Hu|]. split.
  - intros r Hr Hc. rewrite Hw. unfold WordLink.word_index.
    destruct (find (fun r0 => WordLink.contains r0 offset) wbs) as [r0|] eqn:Ef.
    + apply find_some in Ef as [Hin0 Hc0].
      rewrite (Hu r r0 Hr Hin0 Hc Hc0). now destruct r0 as [[s e] w].
    + eapply find_none in Ef; [|exact Hr]. simpl in Ef. congruence.
  - intros Hnone. rewrite Hw. unfold WordLink.word_index.
    destruct (find (fun r0 => WordLink.contains r0 offset) wbs) as [r0|] eqn:Ef;
      [|reflexivity].
    apply find_some in Ef as [Hin0 Hc0]. rewrite Hnone in Hc0 by assumption.
    discriminate.
Qed.

Lemma syllable_word_index_witness :
  let st := Fixture.style 2 in
  let raw := lit "{\k10}ab {\k20}cd" in
  let ws :=
    Extended.words_of Fixture.fixed_pitch st (Fixture.dialogue (Some st) "") (Re.sub_groups raw) in
  exists syl,
    nth_error (Extended.syls_of Fixture.fixed_pitch st ws raw) 1 = Some syl
    /\ Syllable.text syl = lit "cd"
    /\ Syllable.word_i syl = 1.
Proof.
  intros st raw ws. eexists. split; [reflexivity|]. split; [reflexivity|].
  refine (proj1 (syllable_word_index Fixture.fixed_pitch st ws raw 1 _)).
  reflexivity.
Defined.

(* ================================================================== *)
(** ** Geometry of the line                                            *)
(* ================================================================== *)

(** C9. For a line of alignment 5 (middle-center) the line geometry follows
    the center-column rule left = W/2 - w/2 + mL/2 - mR/2 with anchor x =
    center and the middle-row rule top = H/2 - h/2 with anchor y = middle;
    in a frame of 1920 by 1080, with measured width 200 and height 50 and
    zero effective left and right margins, it is left = 860, center = 960,
    right = 1060, x = 960, top = 515, middle = 540, bottom = 565, y = 540. *)
Theorem middle_center_line_geometry (l : Line.t) (st : Style.t) :
  Style.alignment st = 5%Z ->
  (forall px py w h,
     let l' := Extended.position_line px py st l w h in
     let mL := Extended.effective_margin (Line.margin_l l) (Style.margin_l st) in
     let mR := Extended.effective_margin (Line.margin_r l) (Style.margin_r st) in
     Line.left l' = Some (half (PyInt px) -~ half w +~ half (PyInt mL) -~ half (PyInt mR))
     /\ Line.top l' = Some (half (PyInt py) -~ half h)
     /\ Line.x l' = Line.center l'
     /\ Line.y l' = Line.middle l')
  /\ (Extended.effective_margin (Line.margin_l l) (Style.margin_l st) = 0%Z ->
      Extended.effective_margin (Line.margin_r l) (Style.margin_r st) = 0%Z ->
      let l' := Extended.position_line 1920 1080 st l (PyFloat 200) (PyFloat 50) in
      Line.left l' = Some (PyFloat 860)
      /\ Line.center l' = Some (PyFloat 960)
      /\ Line.right l' = Some (PyFloat 1060)
      /\ Line.x l' = Some (PyFloat 960)
      /\ Line.top l' = Some (PyFloat 515)
      /\ Line.middle l' = Some (PyFloat 540)
      /\ Line.bottom l' = Some (PyFloat 565)
      /\ Line.y l' = Some (PyFloat 540)).
Proof.
  intros Ha. split.
  - intros px py w h. unfold Extended.position_line, Extended.anchor_x.
    rewrite Ha. cbn. repeat split.
  - intros HmL HmR. unfold Extended.position_line, Extended.anchor_x.
    rewrite Ha, HmL, HmR. cbn. repeat split.
Qed.

Lemma middle_center_line_geometry_witness :
  let l' :=
    Extended.position_line 1920 1080 (Fixture.style 5)
      (Fixture.dialogue (Some (Fixture.style 5)) "Hello") (PyFloat 200) (PyFloat 50) in
  Line.left l' = Some (PyFloat 860) /\ Line.top l' = Some (PyFloat 515).
Proof.
  destruct (middle_center_line_geometry
              (Fixture.dialogue (Some (Fixture.style 5)) "Hello") (Fixture.style 5) eq_refl)
    as [_ H].
  destruct (H eq_refl eq_refl) as (Hl & _ & _ & _ & Ht & _).
  split; assumption.
Defined.

(* ================================================================== *)
(** ** The pass over one line: what each stage keeps                   *)
(* ================================================================== *)

(** Case analysis on the scrutinee of a match in a hypothesis. *)
Ltac break_in H :=
  match type of H with
  | context [match ?x with _ => _ end] => destruct x eqn:?
  | context [if ?x then _ else _] => destruct x eqn:?
  end.

Ltac break_all H :=
  unfold bind in H;
  repeat (break_in H; cbn [fst snd] in H; try discriminate H).

Section StageFacts.
Import Vocabulary.
Variable font : Font.provider.
Variable meta : Meta.t.
Variable vertical_kanji : bool.
Variable st : Style.t.

Lemma make_words_timing (s e d : Z) (found : list (nat * str * nat)) :
  forall wi w, In w (Extended.make_words font st s e d wi found) -> word_timing w = (s, e, d).
Proof.
  induction found as [|[[pre wt] post] found IH]; intros wi w H; simpl in H;
    [contradiction|].
  destruct (Font.get_text_extents font st wt) as [width height].
  destruct H as [H|H]; [now subst w | eauto].
Qed.

Lemma words_left_to_right_timing (al : Z) (sw sp : num) (l : Line.t) (ws : list Word.t) :
  forall cur_x,
    map word_timing (Extended.words_left_to_right al sw sp l cur_x ws) = map word_timing ws.
Proof.
  induction ws as [|w ws IH]; intros cur_x; simpl; [reflexivity|].
  now rewrite IH.
Qed.

Lemma words_top_to_bottom_timing (al px : Z) (l : Line.t) (mw : num) (ws : list Word.t) :
  forall cur_y ws',
    Extended.words_top_to_bottom al px l mw cur_y ws = Ok ws' ->
    map word_timing ws' = map word_timing ws.
Proof.
  induction ws as [|w ws IH]; intros cur_y ws' H; simpl in H.
  - now inversion H.
  - destruct (Extended.words_top_to_bottom al px l mw (cur_y +~ Word.height w) ws)
      as [rest|] eqn:Er.
    + apply IH in Er. break_all H; inversion H; subst; simpl; now rewrite Er.
    + unfold bind in H. break_all H.
Qed.

Lemma position_words_timing (sw sp : num) (l : Line.t) (ws ws' : list Word.t) :
  Extended.position_words meta st sw sp l ws = Ok ws' ->
  map word_timing ws' = map word_timing ws.
Proof.
  unfold Extended.position_words. intros H.
  destruct (truthy ws); [|now inversion H].
  destruct (Extended.positive_resolution meta) as [[[px py]|]|]; cbn [bind] in H;
    [| now inversion H | discriminate].
  destruct (Extended.outside_middle_row (Style.alignment st)).
  - destruct (operand (Line.left l)); cbn [bind] in H; [|discriminate].
    inversion H. apply words_left_to_right_timing.
  - destruct (Extended.stack_extents Word.width Word.height ws) as [mw sh].
    eapply words_top_to_bottom_timing; eassumption.
Qed.

Lemma fix_line_keeps (al py : Z) (l l' : Line.t) (mw sh cur_y : num) :
  Extended.fix_line al py l mw sh cur_y = Ok l' ->
  Line.words l' = Line.words l /\ Line.syls l' = Line.syls l
  /\ Line.start_time l' = Line.start_time l /\ Line.end_time l' = Line.end_time l
  /\ Line.duration l' = Line.duration l /\ Line.styleref l' = Line.styleref l.
Proof.
  unfold Extended.fix_line. intros H.
  break_all H; inversion H; subst; cbn; repeat split.
Qed.

(** The character stage rewrites the box of the line at most. *)
Lemma position_chars_keeps (sp : num) (l l' : Line.t) (cs cs' : list Char.t) :
  Extended.position_chars meta vertical_kanji st sp l cs = Ok (l', cs') ->
  Line.words l' = Line.words l /\ Line.syls l' = Line.syls l
  /\ Line.start_time l' = Line.start_time l /\ Line.end_time l' = Line.end_time l
  /\ Line.duration l' = Line.duration l /\ Line.styleref l' = Line.styleref l.
Proof.
  unfold Extended.position_chars. intros H.
  break_all H; inversion H; subst; try (repeat split; reflexivity).
  eapply fix_line_keeps; eassumption.
Qed.

End StageFacts.

(** What [extend_line] leaves in [line.words]: the positioned words of the
    tag-stripped text, on a line whose times are those read from the file. *)
Lemma extend_line_words (font : Font.provider) (meta : Meta.t) (vertical_kanji : bool)
    (l l' : Line.t) (ws : list Word.t) :
  Line.words l = None ->
  Extended.extend_line font meta vertical_kanji l = Ok l' ->
  Line.words l' = Some ws ->
  Line.start_time l' = Line.start_time l
  /\ Line.end_time l' = Line.end_time l
  /\ Line.duration l' = Some (Line.end_time l - Line.start_time l)%Z
  /\ forall w, In w ws ->
       Vocabulary.word_timing w
       = (Line.start_time l, Line.end_time l, (Line.end_time l - Line.start_time l)%Z).
Proof.
  unfold Extended.extend_line. cbn [Line.styleref Line.set_duration_text].
  intros Hfresh H Hw.
  destruct (Line.styleref l) as [st|].
  2:{ inversion H; subst. cbn in Hw. congruence. }
  destruct (Font.get_text_extents font st (Re.sub_groups (Line.raw_text l)))
    as [width height].
  destruct (Extended.positive_resolution meta) as [res|]; cbn [bind] in H; [|discriminate].
  match type of H with
  | bind (Extended.position_words ?m ?s ?sw ?sp ?l3 ?ws0) _ = _ =>
      destruct (Extended.position_words m s sw sp l3 ws0) as [ws1|] eqn:Ew;
        cbn [bind] in H; [|discriminate];
      set (line3 := l3) in *
  end.
  match type of H with
  | bind ?c _ = _ => destruct c as [ss|]; cbn [bind] in H; [|discriminate]
  end.
  match type of H with
  | bind ?c _ = _ => destruct c as [[l5 cs]|] eqn:Ec; cbn [bind] in H; [|discriminate]
  end.
  inversion H; subst l'. clear H. cbn [fst snd] in *.
  apply position_chars_keeps in Ec.
  destruct Ec as (Hws & _ & Hs & He & Hd & _).
  cbn in Hw, Hws, Hs, He, Hd |- *. rewrite Hws in Hw. inversion Hw; subst ws1. clear Hw.
  assert (Hl3 : Line.start_time line3 = Line.start_time l
                /\ Line.end_time line3 = Line.end_time l).
  { subst line3. destruct res as [[px py]|]; cbn; destruct (Font.get_metrics font st) as [[[a d] il] el];
      cbn; split; reflexivity. }
  destruct Hl3 as [Hs3 He3].
  repeat split.
  - rewrite Hs. subst line3. destruct res as [[px py]|];
      destruct (Font.get_metrics font st) as [[[a d] il] el]; reflexivity.
  - rewrite He. subst line3. destruct res as [[px py]|];
      destruct (Font.get_metrics font st) as [[[a d] il] el]; reflexivity.
  - rewrite Hd. subst line3. destruct res as [[px py]|];
      destruct (Font.get_metrics font st) as [[[a d] il] el]; reflexivity.
  - intros w Hin. apply position_words_timing in Ew.
    apply (in_map Vocabulary.word_timing) in Hin. rewrite Ew in Hin.
    apply in_map_iff in Hin as (w0 & <- & Hin0).
    unfold Extended.words_of in Hin0. apply make_words_timing in Hin0.
    rewrite Hin0, Hs3, He3. reflexivity.
Qed.

(** C10. Every word that the extended pass builds on a line (a line that
    comes from the events branch holds no word yet) has the start_time and
    the end_time of its line, and the duration of its line, which is
    end_time - start_time; no karaoke tag enters the timing of a word. *)
Theorem word_timing_is_line_timing
    (font : Font.provider) (meta : Meta.t) (vertical_kanji : bool)
    (l l' : Line.t) (ws : list Word.t) (w : Word.t) :
  Line.words l = None ->
  Extended.extend_line font meta vertical_kanji l = Ok l' ->
  Line.words l' = Some ws ->
  In w ws ->
  Word.start_time w = Line.start_time l'
  /\ Word.end_time w = Line.end_time l'
  /\ Line.duration l' = Some (Word.duration w)
  /\ Word.duration w = (Line.end_time l' - Line.start_time l')%Z.
Proof.
  intros Hfresh H Hw Hin.
  destruct (extend_line_words _ _ _ _ Hfresh H Hw) as (Hs & He & Hd & Hall).
  specialize (Hall w Hin). unfold Vocabulary.word_timing in Hall.
  injection Hall as H1 H2 H3. rewrite Hs, He, Hd, H1, H2, H3.
  split; [reflexivity|]. split; [reflexivity|]. split; reflexivity.
Qed.

Lemma word_timing_is_line_timing_witness :
  match Extended.extend_line Fixture.fixed_pitch (Fixture.frame (Some 1920%Z) (Some 1080%Z))
          false (Fixture.dialogue (Some (Fixture.style 2)) "{\k50}Hello {\k70}world") with
  | Ok l' =>
      match Line.words l' with
      | Some ws =>
          length ws = 2
          /\ forall w, In w ws ->
               Word.start_time w = 1000%Z /\ Word.end_time w = 3000%Z
               /\ Word.duration w = 2000%Z
      | None => False
      end
  | Raise _ => False
  end.
Proof.
  destruct (Extended.extend_line Fixture.fixed_pitch
              (Fixture.frame (Some 1920%Z) (Some 1080%Z)) false
              (Fixture.dialogue (Some (Fixture.style 2)) "{\k50}Hello {\k70}world"))
    as [l'|e] eqn:E.
  2:{ vm_compute in E. discriminate E. }
  destruct (Line.words l') as [ws|] eqn:Ew.
  2:{ vm_compute in E. injection E as <-. vm_compute in Ew. discriminate Ew. }
  split.
  { vm_compute in E. injection E as <-. vm_compute in Ew. injection Ew as <-. reflexivity. }
  intros w Hin.
  destruct (@word_timing_is_line_timing Fixture.fixed_pitch
              (Fixture.frame (Some 1920%Z) (Some 1080%Z)) false
              (Fixture.dialogue (Some (Fixture.style 2)) "{\k50}Hello {\k70}world")
              l' ws w eq_refl E Ew Hin)
    as (Hs & He & _ & Hd).
  assert (Hl : Line.start_time l' = 1000%Z /\ Line.end_time l' = 3000%Z).
  { vm_compute in E. injection E as <-. split; reflexivity. }
  destruct Hl as [Hls Hle]. rewrite Hs, He, Hd, Hls, Hle.
  split; [reflexivity|]. split; reflexivity.
Defined.

(* ================================================================== *)
(** ** Frame resolution: unset, or set and not positive                *)
(* ================================================================== *)

Section ResolutionFacts.
Import Vocabulary.
Variable font : Font.provider.
Variable meta : Meta.t.
Variable vertical_kanji : bool.

Lemma positive_resolution_unset :
  Meta.play_res_x meta = None -> Extended.positive_resolution meta = Raise TypeError.
Proof. unfold Extended.positive_resolution. now intros ->. Qed.


(** The first guard on the resolution is evaluated for every line with a
    resolved style; on an unset width it raises. *)
Lemma extend_line_unset (l : Line.t) (st : Style.t) :
  Meta.play_res_x meta = None -> Line.styleref l = Some st ->
  Extended.extend_line font meta vertical_kanji l = Raise TypeError.
Proof.
  intros Hx Hs. unfold Extended.extend_line. cbn [Line.styleref Line.set_duration_text].
  rewrite Hs. destruct (Font.get_text_extents font st _) as [w h].
  now rewrite positive_resolution_unset.
Qed.

Lemma extend_line_unstyled (l : Line.t) :
  Line.styleref l = None ->
  Py.is_ok (Extended.extend_line font meta vertical_kanji l) = true.
Proof.
  intros Hs. unfold Extended.extend_line. cbn [Line.styleref Line.set_duration_text].
  now rewrite Hs.
Qed.

Lemma extend_all_unset (ls : list Line.t) (l : Line.t) (st : Style.t) :
  Meta.play_res_x meta = None -> In l ls -> Line.styleref l = Some st ->
  Loader.extend_all font meta vertical_kanji ls = Raise TypeError.
Proof.
  intros Hx. induction ls as [|l0 ls IH]; intros Hin Hs; [contradiction|].
  cbn [Loader.extend_all].
  destruct (Line.styleref l0) as [st0|] eqn:E0.
  - now rewrite (extend_line_unset l0 Hx E0).
  - pose proof (extend_line_unstyled l0 E0) as Hok.
    destruct (Extended.extend_line font meta vertical_kanji l0); [|discriminate].
    cbn [bind]. destruct Hin as [->|Hin]; [congruence|].
    now rewrite IH.
Qed.

(** *** Set and not positive: extents only *)






End ResolutionFacts.

(** C3, on an unset frame resolution: with the frame width
    unset ([play_res_x] is [None], as [Meta()] has it when the file gives no
    PlayResX), the load of a file that holds a line with a resolved style
    does not complete: the comparison of the first resolution guard raises
    [TypeError]. *)
Theorem unset_resolution_aborts_load
    (P : Loader.parsers) (font : Font.provider) (vertical_kanji : bool)
    (file : list str) (section : str) (m : Loader.model) (l : Line.t) (st : Style.t) :
  Loader.read P [] Loader.initial file = Ok (section, m) ->
  Meta.play_res_x (Loader.meta m) = None ->
  In l (Loader.lines m) ->
  Line.styleref l = Some st ->
  Loader.init P font true vertical_kanji file = Raise TypeError.
Proof.
  intros Hr Hx Hin Hs. unfold Loader.init. rewrite Hr. cbn [bind snd negb].
  erewrite extend_all_unset by eassumption. reflexivity.
Qed.

Lemma unset_resolution_aborts_load_witness :
  Loader.init (Fixture.parsers (Some (Fixture.style 2))) Fixture.fixed_pitch true false
    [lit "[Events]"; lit "Hello"] = Raise TypeError.
Proof.
  refine (@unset_resolution_aborts_load (Fixture.parsers (Some (Fixture.style 2)))
            Fixture.fixed_pitch false [lit "[Events]"; lit "Hello"]
            Loader.events _
            (Line.parsed false 0 1000 3000 (lit "Default") (Some (Fixture.style 2)) [] 0 0 0 []
               (lit "Hello") 0)
            (Fixture.style 2) eq_refl eq_refl (or_introl eq_refl) eq_refl).
Defined.

(* ================================================================== *)
(** ** Stacked layout and the [vertical_kanji] flag                    *)
(* ================================================================== *)

Section StackFacts.
Variable meta : Meta.t.
Variable st : Style.t.
Variables px py : Z.
Hypothesis resolution : Extended.positive_resolution meta = Ok (Some (px, py)).

Lemma syls_left_to_right_row (al : Z) (sw sp : num) (l : Line.t) (ss : list Syllable.t) :
  forall cur_x,
    Forall (fun s => Syllable.top s = Line.top l /\ Syllable.middle s = Line.middle l
                     /\ Syllable.bottom s = Line.bottom l /\ Syllable.y s = Line.y l)
           (Extended.syls_left_to_right al sw sp l cur_x ss).
Proof.
  induction ss as [|s ss IH]; intros cur_x; simpl; constructor; [|apply IH].
  cbn. repeat split.
Qed.

Lemma chars_left_to_right_row (al : Z) (sp : num) (l : Line.t) (cs : list Char.t) :
  forall cur_x,
    Forall (fun c => Char.top c = Line.top l /\ Char.middle c = Line.middle l
                     /\ Char.bottom c = Line.bottom l /\ Char.y c = Line.y l)
           (Extended.chars_left_to_right al sp l cur_x cs).
Proof.
  induction cs as [|c cs IH]; intros cur_x; simpl; constructor; [|apply IH].
  cbn. repeat split.
Qed.

(** Syllables: without the flag they are laid out in the row of the line,
    whatever the alignment. *)
Lemma syls_in_a_row_without_flag (sw sp : num) (l : Line.t) (ss ss' : list Syllable.t) :
  ss <> [] ->
  Extended.position_syls meta false st sw sp l ss = Ok ss' ->
  Forall (fun s => Syllable.top s = Line.top l /\ Syllable.middle s = Line.middle l
                   /\ Syllable.bottom s = Line.bottom l /\ Syllable.y s = Line.y l) ss'.
Proof.
  intros Hne. unfold Extended.position_syls. rewrite resolution.
  replace (truthy ss) with true by (destruct ss; [congruence|reflexivity]).
  cbn [bind negb]. rewrite orb_true_r.
  destruct (operand (Line.left l)) as [cur_x|]; cbn [bind]; intros H; [|discriminate].
  injection H as <-. apply syls_left_to_right_row.
Qed.

(** Characters: the same, and the line is not rewritten. *)
Lemma chars_in_a_row_without_flag (sp : num) (l l' : Line.t) (cs cs' : list Char.t) :
  cs <> [] ->
  Extended.position_chars meta false st sp l cs = Ok (l', cs') ->
  l' = l
  /\ Forall (fun c => Char.top c = Line.top l /\ Char.middle c = Line.middle l
                      /\ Char.bottom c = Line.bottom l /\ Char.y c = Line.y l) cs'.
Proof.
  intros Hne. unfold Extended.position_chars. rewrite resolution.
  replace (truthy cs) with true by (destruct cs; [congruence|reflexivity]).
  cbn [bind negb]. rewrite orb_true_r.
  destruct (operand (Line.left l)) as [cur_x|]; cbn [bind]; intros H; [|discriminate].
  injection H as <- <-. split; [reflexivity|]. apply chars_left_to_right_row.
Qed.

(** Words: on the middle row they are stacked; the word stage does not
    read the flag. *)
Lemma words_stacked_on_middle_row (sw sp : num) (l : Line.t) (ws : list Word.t) :
  ws <> [] ->
  Extended.outside_middle_row (Style.alignment st) = false ->
  Extended.position_words meta st sw sp l ws
  = Extended.words_top_to_bottom (Style.alignment st) px l
      (fst (Extended.stack_extents Word.width Word.height ws))
      (half (PyInt py) -~ half (snd (Extended.stack_extents Word.width Word.height ws)))
      ws.
Proof.
  intros Hne Hmid. unfold Extended.position_words. rewrite resolution, Hmid.
  replace (truthy ws) with true by (destruct ws; [congruence|reflexivity]).
  cbn [bind].
  now destruct (Extended.stack_extents Word.width Word.height ws).
Qed.

End StackFacts.

(** C2, at the word level with the flag off: a line of alignment 5
    with the text "ab cd", a frame of 1920 by 1080 and [vertical_kanji] off.
    The two words are stacked, one above the other at the same left edge,
    while the characters of the same line run left to right on one row. *)
Theorem words_stack_without_vertical_kanji :
  exists l',
    Extended.extend_line Fixture.fixed_pitch (Fixture.frame (Some 1920%Z) (Some 1080%Z)) false
      (Fixture.dialogue (Some (Fixture.style 5)) "ab cd") = Ok l'
    /\ option_map (map Word.top) (Line.words l')
       = Some [Some (PyFloat 520); Some (PyFloat 540)]
    /\ option_map (map Word.left) (Line.words l')
       = Some [Some (PyFloat 950); Some (PyFloat 950)]
    /\ option_map (map Char.top) (Line.chars l')
       = Some [Some (PyFloat 530); Some (PyFloat 530); Some (PyFloat 530);
               Some (PyFloat 530); Some (PyFloat 530)]
    /\ option_map (map Char.left) (Line.chars l')
       = Some [Some (PyFloat 935); Some (PyFloat 945); Some (PyFloat 955);
               Some (PyFloat 965); Some (PyFloat 975)].
Proof.
  eexists. split; [vm_compute; reflexivity|].
  repeat split; vm_compute; reflexivity.
Qed.

(* ================================================================== *)
(** ** Lead-in and lead-out                                            *)
(* ================================================================== *)

Section TimingFacts.
Import Vocabulary.

Lemma insert_perm (l : Line.t) (s : list Line.t) :
  Permutation (Timing.insert l s) (l :: s).
Proof.
  induction s as [|a s IH]; simpl; [reflexivity|].
  destruct (Line.start_time l <=? Line.start_time a)%Z; [reflexivity|].
  rewrite IH. apply perm_swap.
Qed.

Lemma sort_perm (g : list Line.t) : Permutation (Timing.sort g) g.
Proof.
  induction g as [|l g IH]; simpl; [reflexivity|].
  rewrite insert_perm. now constructor.
Qed.






Lemma lead_from_nth (g rest : list Line.t) :
  forall li k,
    nth_error (Timing.lead_from g li rest) k
    = option_map (Timing.lead g (li + k)) (nth_error rest k).
Proof.
  induction rest as [|l rest IH]; intros li k.
  - now destruct k.
  - destruct k as [|k]; cbn [Timing.lead_from nth_error option_map].
    + now rewrite Nat.add_0_r.
    + rewrite IH. now rewrite Nat.add_succ_comm.
Qed.

Lemma annotate_nth (g : list Line.t) (k : nat) :
  nth_error (Timing.annotate g) k = option_map (Timing.lead g k) (nth_error g k).
Proof. unfold Timing.annotate. now rewrite lead_from_nth. Qed.


End TimingFacts.


(** Two overlapping lines and a later one that starts with the second: the
    gap between the first two is negative, and the tie keeps input order. *)
Example overlapping_lines_example :
  let line (i : nat) (s e : Z) :=
    Line.parsed false 0 s e (lit "Default") None [] 0 0 0 [] (lit "x") i in
  map (fun l => (Line.i l, Line.leadin l, Line.leadout l))
      (Timing.lead_pass [line 0 2000%Z 2500%Z; line 1 2000%Z 2100%Z; line 2 0%Z 3000%Z])
  = [(Some 0, Some (PyInt (-1000)), Some (PyInt (-500)));
     (Some 1, Some (PyInt (-500)), Some Timing.no_neighbour);
     (Some 2, Some Timing.no_neighbour, Some (PyInt (-1000)))].
Proof. reflexivity. Qed.

(* ================================================================== *)
(** ** Sections of the input file                                      *)
(* ================================================================== *)

Section LoaderFacts.
Import Vocabulary.
Variable P : Loader.parsers.





End LoaderFacts.




(* ================================================================== *)
(** ** The tag-stripped text                                           *)
(* ================================================================== *)

Unset Implicit Arguments.

Section StripFacts.

Lemma closes_sub_scan (u : str) :
  Re.closes u = false -> Re.closes (Re.sub_scan false u) = false.
Proof.
  induction u as [|c u IH]; intros H; [reflexivity|].
  cbn [Re.closes] in H. cbn [Re.sub_scan].
  destruct (Re.ch c Re.rbrace) eqn:Er; [discriminate|].
  destruct (Re.ch c Re.lbrace && Re.closes u) eqn:Em.
  - apply andb_true_iff in Em as [Hl Hc]. apply ch_eq in Hl. subst c.
    cbn in H. congruence.
  - cbn [Re.closes]. rewrite Er. destruct (Re.ch c Re.newline); [reflexivity|].
    now apply IH.
Qed.

Lemma sub_scan_length (u : str) :
  forall inside, length (Re.sub_scan inside u) <= length u.
Proof.
  induction u as [|c u IH]; intros inside; [simpl; lia|].
  cbn [Re.sub_scan]. destruct inside.
  - destruct (Re.ch c Re.rbrace); [specialize (IH false)|specialize (IH true)];
      simpl; lia.
  - destruct (Re.ch c Re.lbrace && Re.closes u);
      [specialize (IH true)|specialize (IH false)]; simpl; lia.
Qed.

Lemma sub_scan_idem (u : str) :
  Re.sub_scan false (Re.sub_scan false u) = Re.sub_scan false u
  /\ Re.sub_scan false (Re.sub_scan true u) = Re.sub_scan true u.
Proof.
  induction u as [|c u [IHf IHt]]; [split; reflexivity|]. split.
  - cbn [Re.sub_scan]. destruct (Re.ch c Re.lbrace && Re.closes u) eqn:Em; [exact IHt|].
    cbn [Re.sub_scan].
    replace (Re.ch c Re.lbrace && Re.closes (Re.sub_scan false u)) with false.
    + now rewrite IHf.
    + symmetry. apply andb_false_iff in Em as [Hl|Hc].
      * now rewrite Hl.
      * rewrite (closes_sub_scan u Hc). apply andb_false_r.
  - cbn [Re.sub_scan]. now destruct (Re.ch c Re.rbrace).
Qed.

Lemma split_scan_no_group (u : str) :
  forall acc, Re.sub_scan false u = u -> Re.split_scan false acc u = [rev acc ++ u].
Proof.
  induction u as [|c u IH]; intros acc H.
  - simpl. now rewrite app_nil_r.
  - cbn [Re.sub_scan Re.split_scan] in *.
    destruct (Re.ch c Re.lbrace && Re.closes u).
    + pose proof (sub_scan_length u true) as Hl. rewrite H in Hl. simpl in Hl. lia.
    + injection H as H. rewrite IH by assumption. simpl. now rewrite <- app_assoc.
Qed.

End StripFacts.

(** X1. The tag-stripped text of a line holds no tag group any more:
    stripping it again changes nothing, and the tokenizer's split finds no
    group in it, whatever the raw text (nested or unbalanced braces too). *)
Theorem stripped_text_has_no_group (raw_text : str) :
  Re.sub_groups (Re.sub_groups raw_text) = Re.sub_groups raw_text
  /\ Re.split_groups (Re.sub_groups raw_text) = [Re.sub_groups raw_text].
Proof.
  unfold Re.sub_groups, Re.split_groups. split.
  - apply sub_scan_idem.
  - apply (split_scan_no_group _ []). apply sub_scan_idem.
Qed.

(* ================================================================== *)
(** ** Karaoke tags in a tag segment                                   *)
(* ================================================================== *)

Section KTagFacts.
Import Pieces.

Lemma take_drop_while (p : ascii -> bool) (u : str) :
  Re.take_while p u ++ Re.drop_while p u = u.
Proof.
  induction u as [|c u IH]; [reflexivity|]. simpl.
  destruct (p c); [simpl; now rewrite IH | reflexivity].
Qed.

Lemma take_while_all (p : ascii -> bool) (u : str) :
  forallb p (Re.take_while p u) = true.
Proof.
  induction u as [|c u IH]; [reflexivity|]. simpl.
  destruct (p c) eqn:E; [simpl; now rewrite E | reflexivity].
Qed.

Lemma k_tail_prefix (v : str) : exists r, v = Re.k_tail v ++ r.
Proof.
  unfold Re.k_tail. destruct v as [|b [|m v]]; try (eexists; reflexivity).
  destruct (Re.ch b Re.backslash && Re.ch m "-"%char); [|eexists; reflexivity].
  exists (Re.drop_while Re.fx_char v). simpl. now rewrite take_drop_while.
Qed.

Lemma k_number_prefix (pre u full ds : str) :
  Re.k_number pre u = Some (full, ds) ->
  (exists t r, full = pre ++ t /\ u = t ++ r) /\ digits_ok ds.
Proof.
  unfold Re.k_number. intros H.
  destruct (Re.take_while Re.is_digit u) as [|d ds'] eqn:E; [discriminate|].
  injection H as <- <-. split.
  - destruct (k_tail_prefix (Re.drop_while Re.is_digit u)) as [r Hr].
    exists ((d :: ds') ++ Re.k_tail (Re.drop_while Re.is_digit u)), r.
    split; [reflexivity|].
    rewrite <- (take_drop_while Re.is_digit u) at 1. rewrite E.
    rewrite Hr at 1. now rewrite <- app_assoc.
  - split; [discriminate|]. rewrite <- E. apply take_while_all.
Qed.

Lemma k_at_prefix (u full ds : str) :
  Re.k_at u = Some (full, ds) ->
  (exists c full' r, full = c :: full' /\ u = full ++ r) /\ digits_ok ds.
Proof.
  unfold Re.k_at. intros H.
  destruct u as [|b [|k u1]]; try discriminate.
  destruct (Re.ch b Re.backslash && Re.is_k k); [|discriminate].
  destruct u1 as [|c u2]; [discriminate|].
  destruct (Re.is_of c).
  - apply k_number_prefix in H as [(t & r & -> & ->) Hd]. split; [|exact Hd].
    exists b, ([k; c] ++ t), r. split; reflexivity.
  - apply k_number_prefix in H as [(t & r & -> & Hu) Hd]. split; [|exact Hd].
    exists b, ([k] ++ t), r. split; [reflexivity|]. simpl. now rewrite Hu.
Qed.

Lemma k_scan_skip (x : str) :
  forall rest acc, Re.k_scan (length x) acc (x ++ rest) = Re.k_scan 0 acc rest.
Proof.
  induction x as [|c x IH]; intros rest acc; [reflexivity|]. simpl. apply IH.
Qed.

(** The matches with the texts in front of them, then the trailing text,
    are the tag string; every match has its digits. *)
Lemma k_scan_partition (n : nat) :
  forall u acc, length u <= n ->
    concat (map piece (fst (Re.k_scan 0 acc u))) ++ snd (Re.k_scan 0 acc u) = rev acc ++ u
    /\ Forall (fun m => digits_ok (Re.k_digits m)) (fst (Re.k_scan 0 acc u)).
Proof.
  induction n as [|n IH]; intros u acc Hn.
  - destruct u; [|simpl in Hn; lia]. simpl. rewrite app_nil_r. split; [reflexivity|constructor].
  - destruct u as [|c u].
    + simpl. rewrite app_nil_r. split; [reflexivity|constructor].
    + rewrite k_scan_cons. simpl in Hn.
      destruct (Re.k_at (c :: u)) as [[full ds]|] eqn:E.
      * apply k_at_prefix in E as [(c' & full' & r & Hf & Hu) Hd].
        subst full. simpl in Hu. injection Hu as <- ->.
        cbn [length Nat.sub]. rewrite Nat.sub_0_r, k_scan_skip.
        destruct (IH r [] ltac:(rewrite length_app in Hn; lia)) as [Hp Hall].
        destruct (Re.k_scan 0 [] r) as [ms trail]. cbn [fst snd] in *.
        split.
        -- cbn [map concat]. unfold piece at 1. cbn [Re.k_before Re.k_full].
           rewrite <- !app_assoc. f_equal. simpl in Hp |- *. f_equal.
           now rewrite Hp.
        -- constructor; assumption.
      * destruct (IH u (c :: acc) ltac:(lia)) as [Hp Hall].
        split; [|exact Hall]. rewrite Hp. simpl. now rewrite <- app_assoc.
Qed.

End KTagFacts.

Lemma k_scan_pieces_whole (token_value : str) :
  concat (map Pieces.piece (fst (Re.k_tags token_value))) ++ snd (Re.k_tags token_value)
  = token_value
  /\ Forall (fun m => Pieces.digits_ok (Re.k_digits m)) (fst (Re.k_tags token_value)).
Proof.
  unfold Re.k_tags.
  exact (k_scan_partition (length token_value) token_value [] (le_n _)).
Qed.


(* ================================================================== *)
(** ** What the karaoke fold keeps                                     *)
(* ================================================================== *)

Section FoldFacts.
Import Records Pieces KaraokeFree.

(** The text held by a state: the texts of the records and the pending
    text. *)
Let held (st : Karaoke.state) : str :=
  texts (Karaoke.syllable_data st) ++ Karaoke.current_text st.

(** The karaoke tags seen by a state: the records with a tag, and the open
    tag. *)
Let seen (st : Karaoke.state) : nat :=
  length (filter has_k (Karaoke.syllable_data st))
  + match Karaoke.current_k st with Some _ => 1 | None => 0 end.

Let k_ok (k : option (str * str)) : Prop :=
  match k with Some (_, ds) => digits_ok ds | None => True end.

(** The invariant of the loop: every record carries a karaoke tag, with
    sound digits, and so does the open tag. *)
Let sound (st : Karaoke.state) : Prop :=
  Forall (fun d => has_k d = true /\ k_ok (Karaoke.k d)) (Karaoke.syllable_data st)
  /\ k_ok (Karaoke.current_k st).

Lemma texts_app (a b : list Karaoke.syl_data) : texts (a ++ b) = texts a ++ texts b.
Proof. unfold texts. now rewrite map_app, concat_app. Qed.

Lemma on_k_match_keeps (st : Karaoke.state) (m : Re.k_match) :
  digits_ok (Re.k_digits m) -> sound st ->
  held (Karaoke.on_k_match st m) = held st
  /\ seen (Karaoke.on_k_match st m) = S (seen st)
  /\ sound (Karaoke.on_k_match st m).
Proof.
  intros Hm [Hall Hk]. unfold held, seen, sound, Karaoke.on_k_match.
  destruct (Karaoke.current_k st) as [[tag ds]|] eqn:E;
    cbn [Karaoke.syllable_data Karaoke.current_text Karaoke.current_k].
  - rewrite texts_app, filter_app, length_app. cbn. rewrite !app_nil_r.
    split; [reflexivity|]. split; [lia|]. split; [|exact Hm].
    apply Forall_app. split; [exact Hall|]. constructor; [|constructor].
    cbn. split; [reflexivity|exact Hk].
  - split; [reflexivity|]. split; [lia|]. split; [exact Hall|exact Hm].
Qed.

Lemma fold_k_matches_keeps (ms : list Re.k_match) :
  forall st, Forall (fun m => digits_ok (Re.k_digits m)) ms -> sound st ->
    held (fold_left Karaoke.on_k_match ms st) = held st
    /\ seen (fold_left Karaoke.on_k_match ms st) = length ms + seen st
    /\ sound (fold_left Karaoke.on_k_match ms st).
Proof.
  induction ms as [|m ms IH]; intros st Hms Hs;
    [split; [reflexivity|split; [reflexivity|exact Hs]]|].
  inversion Hms as [|? ? Hm Hms']; subst. cbn [fold_left length].
  destruct (on_k_match_keeps st m Hm Hs) as (Hh & Hn & Hs').
  destruct (IH _ Hms' Hs') as (Hh2 & Hn2 & Hs2).
  rewrite Hh2, Hn2, Hh, Hn. split; [reflexivity|]. split; [lia|exact Hs2].
Qed.

Lemma step_keeps (st : Karaoke.state) (t : Tokenizer.token) :
  sound st ->
  held (Karaoke.step st t) = held st ++ text_of [t]
  /\ seen (Karaoke.step st t) = k_count [t] + seen st
  /\ sound (Karaoke.step st t).
Proof.
  intros Hs. destruct t as [v|v]; cbn [Karaoke.step k_count].
  - unfold Karaoke.on_tags.
    destruct (k_scan_pieces_whole v) as [_ Hms]. unfold Re.k_tags in *.
    destruct (Re.k_scan 0 [] v) as [ms trail] eqn:E. cbn [fst] in *.
    destruct (fold_k_matches_keeps ms st Hms Hs) as (Hh & Hn & [Hall Hk]).
    unfold held, seen, sound in *. cbn. unfold text_of. cbn.
    rewrite app_nil_r, Nat.add_0_r. repeat split; assumption.
  - destruct Hs as [Hall Hk]. unfold held, seen, sound, Karaoke.on_text, text_of.
    destruct (Karaoke.current_k st) as [[tag ds]|] eqn:E;
      cbn [Karaoke.syllable_data Karaoke.current_text Karaoke.current_k concat map].
    + rewrite texts_app, filter_app, length_app. cbn. rewrite !app_nil_r.
      split; [now rewrite app_assoc|]. split; [lia|]. split; [|exact I].
      apply Forall_app. split; [exact Hall|]. constructor; [|constructor].
      cbn. split; [reflexivity|exact Hk].
    + rewrite app_nil_r. split; [now rewrite app_assoc|]. split; [lia|].
      split; [exact Hall|exact I].
Qed.

Lemma fold_keeps (ts : list Tokenizer.token) :
  forall st, sound st ->
    held (fold_left Karaoke.step ts st) = held st ++ text_of ts
    /\ seen (fold_left Karaoke.step ts st) = k_count ts + seen st
    /\ sound (fold_left Karaoke.step ts st).
Proof.
  induction ts as [|t ts IH]; intros st Hs.
  - unfold text_of. cbn. rewrite app_nil_r.
    split; [reflexivity|split; [reflexivity|exact Hs]].
  - cbn [fold_left]. destruct (step_keeps st t Hs) as (Hh & Hn & Hs').
    destruct (IH _ Hs') as (Hh2 & Hn2 & Hs2).
    rewrite Hh2, Hn2, Hh, Hn. split; [|split; [|exact Hs2]].
    + unfold text_of. cbn. rewrite app_nil_r. now rewrite <- app_assoc.
    + destruct t; cbn [k_count]; lia.
Qed.

(** What [finish] adds: the pending text, and the open tag if there is
    one. *)
Lemma finish_keeps (st : Karaoke.state) :
  sound st ->
  texts (Karaoke.finish st) = held st
  /\ length (filter has_k (Karaoke.finish st)) = seen st
  /\ forallb has_k (removelast (Karaoke.finish st)) = true
  /\ Forall (fun d => has_k d = false -> Karaoke.text d <> []) (Karaoke.finish st)
  /\ Forall (fun d => k_ok (Karaoke.k d)) (Karaoke.finish st).
Proof.
  intros [Hall Hk]. unfold held, seen, Karaoke.finish.
  assert (Hb : forallb has_k (Karaoke.syllable_data st) = true).
  { apply forallb_forall. intros d Hd.
    rewrite Forall_forall in Hall. now apply Hall. }
  assert (Hne : Forall (fun d => has_k d = false -> Karaoke.text d <> [])
                  (Karaoke.syllable_data st)).
  { eapply Forall_impl; [|exact Hall]. cbn. intros d [Hd _] Hf. congruence. }
  assert (Hok : Forall (fun d => k_ok (Karaoke.k d)) (Karaoke.syllable_data st)).
  { eapply Forall_impl; [|exact Hall]. cbn. intros d [_ Hd]. exact Hd. }
  destruct (Karaoke.current_k st) as [[tag ds]|] eqn:E.
  - rewrite texts_app, filter_app, length_app, removelast_last. cbn.
    rewrite app_nil_r. repeat split; try assumption; try lia.
    + apply Forall_app. split; [exact Hne|]. constructor; [|constructor].
      cbn. discriminate.
    + apply Forall_app. split; [exact Hok|]. constructor; [|constructor]. exact Hk.
  - destruct (Karaoke.current_text st) as [|c tx] eqn:Et.
    + rewrite app_nil_r. repeat split; try assumption; try lia.
      clear - Hb. induction (Karaoke.syllable_data st) as [|d ds IH]; [reflexivity|].
      cbn in Hb. apply andb_true_iff in Hb as [Hd Hb].
      destruct ds as [|d' ds']; [reflexivity|].
      cbn [removelast forallb]. rewrite Hd. now apply IH.
    + rewrite texts_app, filter_app, length_app, removelast_last. cbn.
      rewrite app_nil_r. repeat split; try assumption; try lia.
      * apply Forall_app. split; [exact Hne|]. constructor; [|constructor].
        cbn. discriminate.
      * apply Forall_app. split; [exact Hok|]. constructor; [|constructor]. exact I.
Qed.

Lemma parse_keeps (ts : list Tokenizer.token) :
  texts (Karaoke.parse ts) = text_of ts
  /\ length (filter has_k (Karaoke.parse ts)) = k_count ts
  /\ forallb has_k (removelast (Karaoke.parse ts)) = true
  /\ Forall (fun d => has_k d = false -> Karaoke.text d <> []) (Karaoke.parse ts)
  /\ Forall (fun d => match Karaoke.k d with
                      | Some (_, ds) => digits_ok ds
                      | None => True
                      end) (Karaoke.parse ts).
Proof.
  unfold Karaoke.parse.
  assert (Hs : sound Karaoke.init) by (split; [constructor|exact I]).
  destruct (fold_keeps ts Karaoke.init Hs) as (Hh & Hn & Hs').
  destruct (finish_keeps _ Hs') as (H1 & H2 & H3 & H4 & H5).
  rewrite H1, H2, Hh, Hn. cbn. rewrite Nat.add_0_r. repeat split; assumption.
Qed.

End FoldFacts.

(** X3. No text is lost by the karaoke fold: the texts of the syllable
    records, put end to end, are the tag-stripped text of the line, for every
    raw text without a newline (as one line of the file is). *)
Theorem syllable_records_conserve_text (raw_text : str) :
  KaraokeFree.newline_free raw_text = true ->
  Records.texts (Karaoke.parse (Tokenizer.tokens raw_text)) = Re.sub_groups raw_text.
Proof.
  intros Hn. destruct (parse_keeps (Tokenizer.tokens raw_text)) as [H _].
  rewrite H. now apply text_of_tokens.
Qed.

Lemma syllable_records_conserve_text_witness :
  Records.texts (Karaoke.parse (Tokenizer.tokens (lit "{\k10}ka{\i1\k20}ra {\k5}o{\b1}ke")))
  = lit "kara oke".
Proof.
  exact (syllable_records_conserve_text (lit "{\k10}ka{\i1\k20}ra {\k5}o{\b1}ke") eq_refl).
Defined.

(** X4. Every karaoke tag of the line opens exactly one syllable record:
    the records that carry a karaoke tag are as many as the matches of the
    karaoke pattern in the tag segments; only the last record can be without
    a karaoke tag, and such a record has a text that is not empty. *)
Theorem karaoke_tags_and_records (ts : list Tokenizer.token) :
  length (filter Records.has_k (Karaoke.parse ts)) = Records.k_count ts
  /\ forallb Records.has_k (removelast (Karaoke.parse ts)) = true
  /\ Forall (fun d => Records.has_k d = false -> Karaoke.text d <> []) (Karaoke.parse ts).
Proof.
  destruct (parse_keeps ts) as (_ & H2 & H3 & H4 & _). repeat split; assumption.
Qed.

(* ================================================================== *)
(** ** Times and spans of the syllables                                *)
(* ================================================================== *)

Section SyllableFacts.
Import Records Pieces.
Variable font : Font.provider.
Variable st : Style.t.
Variable wbs : list (nat * nat * nat).

Lemma digit_val_nonneg (c : ascii) : Re.is_digit c = true -> (0 <= Re.digit_val c)%Z.
Proof.
  unfold Re.is_digit, Re.digit_val. cbv zeta. intros H.
  apply andb_true_iff in H as [H _]. apply Nat.leb_le in H. lia.
Qed.

Lemma int_of_digits_nonneg (ds : str) :
  forallb Re.is_digit ds = true -> (0 <= Re.int_of_digits ds)%Z.
Proof.
  unfold Re.int_of_digits. intros H.
  assert (G : forall n, (0 <= n)%Z ->
                (0 <= fold_left (fun n c => 10 * n + Re.digit_val c) ds n)%Z).
  { induction ds as [|c ds IH]; intros n Hn; [exact Hn|].
    cbn [forallb fold_left] in H |- *.
    apply andb_true_iff in H as [Hc H]. apply IH; [exact H|].
    pose proof (digit_val_nonneg c Hc). lia. }
  apply G. lia.
Qed.

(** The times of the syllables built by the loop, from [last_time] on. *)
Lemma make_syls_times (data : list Karaoke.syl_data) :
  Forall (fun d => match Karaoke.k d with
                   | Some (_, ds) => digits_ok ds
                   | None => True
                   end) data ->
  forall si last_time idx,
    let ss := Extended.make_syls font st wbs si last_time idx data in
    (forall s, nth_error ss 0 = Some s -> Syllable.start_time s = last_time)
    /\ (forall k a b, nth_error ss k = Some a -> nth_error ss (S k) = Some b ->
          Syllable.start_time b = Syllable.end_time a)
    /\ Forall (fun s => Syllable.end_time s = (Syllable.start_time s + Syllable.duration s)%Z
                        /\ (0 <= Syllable.duration s)%Z) ss.
Proof.
  induction data as [|d data IH]; intros Hd si lt idx ss.
  - subst ss. cbn. split; [intros s H; discriminate|].
    split; [intros k a b H; destruct k; discriminate|constructor].
  - inversion Hd as [|? ? Hd0 Hd']; subst.
    subst ss. cbn [Extended.make_syls].
    match goal with
    | |- context [Extended.make_syls font st wbs (S si) ?e ?i data] =>
        specialize (IH Hd' (S si) e i); set (rest := Extended.make_syls font st wbs (S si) e i data) in *;
        set (end_time := e) in *
    end.
    destruct IH as (IH0 & IHc & IHall).
    split; [|split].
    + intros s H. cbn in H. now injection H as <-.
    + intros k a b Ha Hb. destruct k as [|k].
      * cbn in Ha. injection Ha as <-. cbn [nth_error] in Hb.
        apply IH0 in Hb. rewrite Hb. reflexivity.
      * cbn [nth_error] in Ha, Hb. eapply IHc; eassumption.
    + constructor; [|exact IHall]. cbn [Syllable.end_time Syllable.start_time Syllable.duration].
      destruct (Karaoke.k d) as [[tag ds]|].
      * split; [reflexivity|]. destruct Hd0 as [_ Hds].
        pose proof (int_of_digits_nonneg ds Hds). lia.
      * split; lia.
Qed.

(** *** Blanks around the text of a syllable *)

Lemma drop_while_length (p : ascii -> bool) (u : str) :
  length (Re.drop_while p u) <= length u.
Proof.
  induction u as [|c u IH]; [simpl; lia|]. simpl. destruct (p c); simpl; lia.
Qed.

Lemma drop_while_app_keep (p : ascii -> bool) (x y : str) :
  Re.drop_while p x <> [] -> Re.drop_while p (x ++ y) = Re.drop_while p x ++ y.
Proof.
  induction x as [|c x IH]; intros H; [now contradiction H|]. simpl in *.
  destruct (p c); [now apply IH | reflexivity].
Qed.

Lemma drop_while_blank (u : str) :
  has_ink u = false -> Re.drop_while Re.is_space u = [].
Proof.
  induction u as [|c u IH]; intros H; [reflexivity|]. cbn in H |- *.
  apply orb_false_iff in H as [Hc H]. apply negb_false_iff in Hc. rewrite Hc. now apply IH.
Qed.

Lemma drop_while_ink (u : str) :
  has_ink u = true -> Re.drop_while Re.is_space u <> [].
Proof.
  induction u as [|c u IH]; intros H; [discriminate|]. cbn in H |- *.
  destruct (Re.is_space c); [|discriminate]. now apply IH.
Qed.

Lemma has_ink_rev (u : str) : has_ink (rev u) = has_ink u.
Proof.
  unfold has_ink. induction u as [|c u IH]; [reflexivity|]. cbn.
  rewrite existsb_app, IH. cbn. rewrite orb_false_r. apply orb_comm.
Qed.

Lemma has_ink_drop (u : str) : has_ink (Re.drop_while Re.is_space u) = has_ink u.
Proof.
  induction u as [|c u IH]; [reflexivity|]. cbn.
  destruct (Re.is_space c) eqn:E; [exact IH | cbn; now rewrite E].
Qed.

(** The span of a syllable, from the text of its record. *)
Lemma strip_span (t : str) :
  (length t - length (Re.lstrip t)) + length (Re.strip t)
  + (length t - length (Re.rstrip t)) = text_span t.
Proof.
  unfold text_span, Re.strip, Re.lstrip, Re.rstrip.
  destruct (has_ink t) eqn:E.
  - set (D := Re.drop_while Re.is_space t).
    set (A := Re.take_while Re.is_space t).
    assert (Ht : t = A ++ D) by (symmetry; apply take_drop_while).
    assert (HD : has_ink D = true) by (unfold D; now rewrite has_ink_drop).
    assert (Hr : Re.drop_while Re.is_space (rev t)
                 = Re.drop_while Re.is_space (rev D) ++ rev A).
    { rewrite Ht at 1. rewrite rev_app_distr. apply drop_while_app_keep.
      apply drop_while_ink. now rewrite has_ink_rev. }
    rewrite Hr. rewrite rev_app_distr, rev_involutive, !length_app, !length_rev.
    pose proof (drop_while_length Re.is_space (rev D)) as Hl. rewrite length_rev in Hl.
    assert (Hlen : length t = length A + length D) by (rewrite Ht at 1; apply length_app).
    lia.
  - rewrite (drop_while_blank t E). cbn [rev Re.drop_while length].
    rewrite drop_while_blank by now rewrite has_ink_rev. cbn [rev length]. lia.
Qed.

Lemma make_syls_spans (data : list Karaoke.syl_data) :
  forall si last_time idx,
    map WordLink.span (Extended.make_syls font st wbs si last_time idx data)
    = map (fun d => text_span (Karaoke.text d)) data.
Proof.
  induction data as [|d data IH]; intros si lt idx; [reflexivity|].
  cbn [Extended.make_syls map]. rewrite IH. f_equal.
  unfold WordLink.span. cbn [Syllable.prespace Syllable.text Syllable.postspace].
  apply strip_span.
Qed.

Lemma texts_length (data : list Karaoke.syl_data) :
  forallb (fun d => has_ink (Karaoke.text d)) data = true ->
  list_sum (map (fun d => text_span (Karaoke.text d)) data) = length (texts data).
Proof.
  induction data as [|d data IH]; intros H; [reflexivity|]. cbn in H.
  apply andb_true_iff in H as [Hd H]. unfold texts in *.
  cbn [map concat list_sum fold_right]. specialize (IH H). unfold list_sum in IH.
  rewrite length_app, IH. unfold text_span. now rewrite Hd.
Qed.

End SyllableFacts.

(** X5. The syllables of a line follow one another in time: the first
    starts at 0, each next one starts where the one before it ends, and for
    each of them end_time = start_time + duration with a duration that is not
    negative, so start_time <= end_time. *)
Theorem syllable_times_chain
    (font : Font.provider) (st : Style.t) (ws : list Word.t) (raw_text : str) :
  let ss := Extended.syls_of font st ws raw_text in
  (forall s, nth_error ss 0 = Some s -> Syllable.start_time s = 0%Z)
  /\ (forall k a b, nth_error ss k = Some a -> nth_error ss (S k) = Some b ->
        Syllable.start_time b = Syllable.end_time a)
  /\ Forall (fun s => Syllable.end_time s = (Syllable.start_time s + Syllable.duration s)%Z
                      /\ (0 <= Syllable.duration s)%Z
                      /\ (Syllable.start_time s <= Syllable.end_time s)%Z) ss.
Proof.
  intros ss. subst ss. unfold Extended.syls_of.
  destruct (parse_keeps (Tokenizer.tokens raw_text)) as (_ & _ & _ & _ & Hd).
  destruct (make_syls_times font st (Extended.word_boundaries ws) _ Hd 0 0%Z 0)
    as (H0 & Hc & Hall).
  split; [exact H0|]. split; [exact Hc|].
  eapply Forall_impl; [|exact Hall]. cbn. intros s [He Hn]. repeat split; lia.
Qed.

(** X6. The span prespace + len(text) + postspace of a syllable is the
    length of the text of its record when that text holds a character that is
    not a blank, and twice that length when it holds blanks only (the same
    blanks are counted as leading and as trailing). So, on a raw text without
    a newline whose records all hold such a character, the spans of the
    syllables add up to the length of the tag-stripped text: the syllable
    cursor and the word boundaries measure the same text. *)
Theorem syllable_spans
    (font : Font.provider) (st : Style.t) (ws : list Word.t) (raw_text : str) :
  let data := Karaoke.parse (Tokenizer.tokens raw_text) in
  let ss := Extended.syls_of font st ws raw_text in
  map WordLink.span ss = map (fun d => Pieces.text_span (Karaoke.text d)) data
  /\ (KaraokeFree.newline_free raw_text = true ->
      forallb (fun d => Records.has_ink (Karaoke.text d)) data = true ->
      list_sum (map WordLink.span ss) = length (Re.sub_groups raw_text)).
Proof.
  intros data ss. subst ss data. unfold Extended.syls_of.
  rewrite make_syls_spans. split; [reflexivity|].
  intros Hn Hink. rewrite texts_length by assumption.
  destruct (parse_keeps (Tokenizer.tokens raw_text)) as [H _].
  rewrite H. now rewrite text_of_tokens.
Qed.

(* ================================================================== *)
(** ** The word splitter                                               *)
(* ================================================================== *)

Section WordFacts.
Import Records Found.

Let ink (u : str) : str := filter (fun c => negb (Re.is_space c)) u.

Lemma inked_snoc (w : str) (c : ascii) :
  Re.is_space c = false -> (w = [] \/ inked (rev w)) -> inked (rev (c :: w)).
Proof.
  intros Hc Hw. unfold inked. cbn [rev]. split; [now destruct (rev w)|].
  rewrite forallb_app. cbn. rewrite Hc. cbn.
  destruct Hw as [->|[_ Hw]]; [reflexivity|now rewrite Hw].
Qed.

(** The scan, from each of its three states. *)
Lemma words_scan_spec (u : str) :
  forall st,
    let found := Re.words_scan st u in
    Forall (fun f => inked (word f)) (match st with Re.InPre _ => found | _ => tl found end)
    /\ match st with
       | Re.InPre pre =>
           Forall (fun g => prespace g = 0) (tl found)
           /\ concat (map word found) = ink u
           /\ list_sum (map found_span found) = (if has_ink u then pre + length u else 0)
           /\ (has_ink u = false -> found = [])
       | Re.InWord pre w =>
           led_by pre found
           /\ concat (map word found) = rev w ++ ink u
           /\ list_sum (map found_span found) = pre + length w + length u
           /\ (inked (rev w) -> inked (word (hd (0, [], 0) found)))
       | Re.InPost pre w post =>
           led_by pre found
           /\ concat (map word found) = rev w ++ ink u
           /\ list_sum (map found_span found) = pre + length w + post + length u
           /\ (inked (rev w) -> inked (word (hd (0, [], 0) found)))
       end.
Proof.
  induction u as [|c u IH]; intros st.
  - destruct st as [pre|pre w|pre w post]; cbn.
    + repeat split; constructor.
    + rewrite app_nil_r, length_rev. split; [constructor|].
      split; [split; [reflexivity|constructor]|]. split; [reflexivity|].
      split; [lia|]. intros H; exact H.
    + rewrite app_nil_r, length_rev. split; [constructor|].
      split; [split; [reflexivity|constructor]|]. split; [reflexivity|].
      split; [lia|]. intros H; exact H.
  - destruct st as [pre|pre w|pre w post]; cbn [Re.words_scan]; cbv zeta;
      destruct (Re.is_space c) eqn:Ec.
    + destruct (IH (Re.InPre (S pre))) as (Ha & Hb & Hc & Hd & He). cbv zeta in *.
      split; [exact Ha|]. split; [exact Hb|]. cbn [has_ink existsb filter ink].
      unfold ink. cbn [filter]. rewrite Ec. cbn [negb orb].
      split; [exact Hc|]. split; [|exact He].
      rewrite Hd. fold (has_ink u). destruct (has_ink u); cbn [length]; lia.
    + destruct (IH (Re.InWord pre [c])) as (Ha & Hb & Hc & Hd & He). cbv zeta in *.
      assert (Hi : inked (word (hd (0, [], 0) (Re.words_scan (Re.InWord pre [c]) u)))).
      { apply He. apply (inked_snoc [] c Ec). now left. }
      destruct (Re.words_scan (Re.InWord pre [c]) u) as [|f rest] eqn:Ef;
        [contradiction Hb|].
      destruct Hb as [Hp H0]. cbn [tl hd] in *.
      split; [constructor; assumption|]. split; [exact H0|].
      unfold ink. cbn [filter has_ink existsb]. rewrite Ec. cbn [negb orb].
      split; [exact Hc|]. split; [|discriminate].
      rewrite Hd. cbn [length]. lia.
    + destruct (IH (Re.InPost pre w 1)) as (Ha & Hb & Hc & Hd & He). cbv zeta in *.
      split; [exact Ha|]. split; [exact Hb|].
      unfold ink. cbn [filter]. rewrite Ec. cbn [negb].
      split; [exact Hc|]. split; [|exact He]. rewrite Hd. cbn [length]. lia.
    + destruct (IH (Re.InWord pre (c :: w))) as (Ha & Hb & Hc & Hd & He). cbv zeta in *.
      split; [exact Ha|]. split; [exact Hb|].
      unfold ink. cbn [filter]. rewrite Ec. cbn [negb].
      split; [rewrite Hc; cbn [rev]; now rewrite <- app_assoc|].
      split; [rewrite Hd; cbn [length]; lia|].
      intros Hw. apply He. apply inked_snoc; [exact Ec|now right].
    + destruct (IH (Re.InPost pre w (S post))) as (Ha & Hb & Hc & Hd & He). cbv zeta in *.
      split; [exact Ha|]. split; [exact Hb|].
      unfold ink. cbn [filter]. rewrite Ec. cbn [negb].
      split; [exact Hc|]. split; [|exact He]. rewrite Hd. cbn [length]. lia.
    + destruct (IH (Re.InWord 0 [c])) as (Ha & Hb & Hc & Hd & He). cbv zeta in *.
      assert (Hi : inked (word (hd (0, [], 0) (Re.words_scan (Re.InWord 0 [c]) u)))).
      { apply He. apply (inked_snoc [] c Ec). now left. }
      destruct (Re.words_scan (Re.InWord 0 [c]) u) as [|f rest] eqn:Ef;
        [contradiction Hb|].
      destruct Hb as [Hp H0]. cbn [tl hd] in *.
      split; [constructor; assumption|].
      split; [split; [reflexivity|constructor; assumption]|].
      unfold ink. cbn [filter map concat word fst snd]. rewrite Ec. cbn [negb].
      split; [f_equal; exact Hc|].
      split; [|intros Hw; exact Hw].
      change (list_sum (found_span (pre, rev w, post) :: found_span f :: map found_span rest))
        with (found_span (pre, rev w, post) + list_sum (map found_span (f :: rest))).
      rewrite Hd. cbn [found_span length]. rewrite length_rev. lia.
Qed.

End WordFacts.

(** X7. The word splitter on a text: every word it finds is not empty and
    holds no blank; only the first word can have leading blanks to count
    (the blanks between two words are the trailing blanks of the first); the
    words put end to end are the text without its blanks; and prespace +
    len(word) + postspace, added over the words, is the length of the text,
    unless the text holds blanks only, where no word is found. *)
Theorem word_splitter_covers_text (text : str) :
  let found := Re.findall_words text in
  Forall (fun f => Found.inked (Found.word f)) found
  /\ Forall (fun f => Found.prespace f = 0) (tl found)
  /\ concat (map Found.word found) = filter (fun c => negb (Re.is_space c)) text
  /\ list_sum (map Records.found_span found)
     = (if Records.has_ink text then length text else 0)
  /\ (Records.has_ink text = false -> found = []).
Proof.
  intros found. subst found. unfold Re.findall_words.
  destruct (words_scan_spec text (Re.InPre 0)) as (Ha & Hb & Hc & Hd & He).
  cbv zeta in *. repeat split; assumption.
Qed.

(* ================================================================== *)
(** ** Positioning changes positions only                              *)
(* ================================================================== *)

Section CoreFacts.
Variable meta : Meta.t.
Variable vertical_kanji : bool.
Variable st : Style.t.

Lemma words_left_to_right_core (al : Z) (sw sp : num) (l : Line.t) (ws : list Word.t) :
  forall cur_x,
    map Core.word (Extended.words_left_to_right al sw sp l cur_x ws) = map Core.word ws.
Proof.
  induction ws as [|w ws IH]; intros cur_x; [reflexivity|].
  cbn [Extended.words_left_to_right map]. now rewrite IH.
Qed.

Lemma words_top_to_bottom_core (al px : Z) (l : Line.t) (mw : num) (ws : list Word.t) :
  forall cur_y ws',
    Extended.words_top_to_bottom al px l mw cur_y ws = Ok ws' ->
    map Core.word ws' = map Core.word ws.
Proof.
  induction ws as [|w ws IH]; intros cur_y ws' H; cbn [Extended.words_top_to_bottom] in H.
  - now injection H as <-.
  - destruct (Extended.words_top_to_bottom al px l mw (cur_y +~ Word.height w) ws)
      as [rest|] eqn:Er.
    + apply IH in Er. break_all H; injection H as <-; cbn [map]; now rewrite Er.
    + break_all H.
Qed.

Lemma position_words_core (sw sp : num) (l : Line.t) (ws ws' : list Word.t) :
  Extended.position_words meta st sw sp l ws = Ok ws' ->
  map Core.word ws' = map Core.word ws.
Proof.
  unfold Extended.position_words. intros H.
  destruct (truthy ws); [|now injection H as <-].
  destruct (Extended.positive_resolution meta) as [[[px py]|]|]; cbn [bind] in H;
    [| now injection H as <- | discriminate].
  destruct (Extended.outside_middle_row (Style.alignment st)).
  - destruct (operand (Line.left l)); cbn [bind] in H; [|discriminate].
    injection H as <-. apply words_left_to_right_core.
  - destruct (Extended.stack_extents Word.width Word.height ws) as [mw sh].
    eapply words_top_to_bottom_core; eassumption.
Qed.

Lemma syls_left_to_right_core (al : Z) (sw sp : num) (l : Line.t) (ss : list Syllable.t) :
  forall cur_x,
    map Core.syl (Extended.syls_left_to_right al sw sp l cur_x ss) = map Core.syl ss.
Proof.
  induction ss as [|s ss IH]; intros cur_x; [reflexivity|].
  cbn [Extended.syls_left_to_right map]. now rewrite IH.
Qed.

Lemma syls_top_to_bottom_core (al : Z) (l : Line.t) (mw : num) (ss : list Syllable.t) :
  forall cur_y ss',
    Extended.syls_top_to_bottom al l mw cur_y ss = Ok ss' ->
    map Core.syl ss' = map Core.syl ss.
Proof.
  induction ss as [|s ss IH]; intros cur_y ss' H; cbn [Extended.syls_top_to_bottom] in H.
  - now injection H as <-.
  - destruct (Extended.syls_top_to_bottom al l mw (cur_y +~ Syllable.height s) ss)
      as [rest|] eqn:Er.
    + apply IH in Er. break_all H; injection H as <-; cbn [map]; now rewrite Er.
    + break_all H.
Qed.

Lemma position_syls_core (sw sp : num) (l : Line.t) (ss ss' : list Syllable.t) :
  Extended.position_syls meta vertical_kanji st sw sp l ss = Ok ss' ->
  map Core.syl ss' = map Core.syl ss.
Proof.
  unfold Extended.position_syls. intros H.
  destruct (truthy ss); [|now injection H as <-].
  destruct (Extended.positive_resolution meta) as [[[px py]|]|]; cbn [bind] in H;
    [| now injection H as <- | discriminate].
  destruct (Extended.outside_middle_row (Style.alignment st) || negb vertical_kanji).
  - destruct (operand (Line.left l)); cbn [bind] in H; [|discriminate].
    injection H as <-. apply syls_left_to_right_core.
  - destruct (Extended.stack_extents Syllable.width Syllable.height ss) as [mw sh].
    eapply syls_top_to_bottom_core; eassumption.
Qed.

Lemma chars_left_to_right_core (al : Z) (sp : num) (l : Line.t) (cs : list Char.t) :
  forall cur_x,
    map Core.char (Extended.chars_left_to_right al sp l cur_x cs) = map Core.char cs.
Proof.
  induction cs as [|c cs IH]; intros cur_x; [reflexivity|].
  cbn [Extended.chars_left_to_right map]. now rewrite IH.
Qed.

Lemma chars_top_to_bottom_core (al px : Z) (l : Line.t) (mw : num) (cs : list Char.t) :
  forall cur_y cs',
    Extended.chars_top_to_bottom al px l mw cur_y cs = Ok cs' ->
    map Core.char cs' = map Core.char cs.
Proof.
  induction cs as [|c cs IH]; intros cur_y cs' H; cbn [Extended.chars_top_to_bottom] in H.
  - now injection H as <-.
  - destruct (Extended.chars_top_to_bottom al px l mw (cur_y +~ Char.height c) cs)
      as [rest|] eqn:Er.
    + apply IH in Er. break_all H; injection H as <-; cbn [map]; now rewrite Er.
    + break_all H.
Qed.

Lemma position_chars_core (sp : num) (l l' : Line.t) (cs cs' : list Char.t) :
  Extended.position_chars meta vertical_kanji st sp l cs = Ok (l', cs') ->
  map Core.char cs' = map Core.char cs.
Proof.
  unfold Extended.position_chars. intros H.
  destruct (truthy cs); [|now injection H as <- <-].
  destruct (Extended.positive_resolution meta) as [[[px py]|]|]; cbn [bind] in H;
    [| now injection H as <- <- | discriminate].
  destruct (Extended.outside_middle_row (Style.alignment st) || negb vertical_kanji).
  - destruct (operand (Line.left l)); cbn [bind] in H; [|discriminate].
    injection H as <- <-. apply chars_left_to_right_core.
  - destruct (Extended.stack_extents Char.width Char.height cs) as [mw sh].
    destruct (Extended.fix_line _ _ _ _ _ _) as [l1|]; cbn [bind] in H; [|discriminate].
    destruct (Extended.chars_top_to_bottom _ _ _ _ _ _) as [cs1|] eqn:Ec;
      cbn [bind] in H; [|discriminate].
    injection H as <- <-. eapply chars_top_to_bottom_core; eassumption.
Qed.

(** The builders read the positions of nothing. *)
Lemma boundaries_core (ws ws0 : list Word.t) :
  map Core.word ws = map Core.word ws0 ->
  forall idx, Extended.boundaries idx ws = Extended.boundaries idx ws0.
Proof.
  revert ws0. induction ws as [|w ws IH]; intros [|w0 ws0] H idx; try discriminate;
    [reflexivity|].
  cbn [map] in H. injection H as Hi _ _ _ _ Ht Hp Hq _ _ H. cbn [Extended.boundaries].
  rewrite Hp, Ht, Hq, Hi. f_equal. now apply IH.
Qed.

Lemma of_word_core (ws ws0 : list Word.t) :
  map Core.word ws = map Core.word ws0 ->
  map Extended.of_word ws = map Extended.of_word ws0.
Proof.
  intros H. assert (E : forall w, Extended.of_word w = Extended.of_word (Core.word w))
    by reflexivity.
  rewrite (map_ext _ _ E ws), (map_ext _ _ E ws0).
  rewrite <- (map_map Core.word Extended.of_word ws).
  rewrite <- (map_map Core.word Extended.of_word ws0). now rewrite H.
Qed.

Lemma of_syl_core (ss ss0 : list Syllable.t) :
  map Core.syl ss = map Core.syl ss0 ->
  map Extended.of_syl ss = map Extended.of_syl ss0.
Proof.
  intros H. assert (E : forall s, Extended.of_syl s = Extended.of_syl (Core.syl s))
    by reflexivity.
  rewrite (map_ext _ _ E ss), (map_ext _ _ E ss0).
  rewrite <- (map_map Core.syl Extended.of_syl ss).
  rewrite <- (map_map Core.syl Extended.of_syl ss0). now rewrite H.
Qed.

Lemma truthy_map {A B} (f g : A -> B) (xs ys : list A) :
  map f xs = map g ys -> truthy xs = truthy ys.
Proof. destruct xs, ys; intros H; try discriminate; reflexivity. Qed.

Lemma words_or_syls_core (ws ws0 : list Word.t) (ss ss0 : list Syllable.t) :
  map Core.word ws = map Core.word ws0 -> map Core.syl ss = map Core.syl ss0 ->
  Extended.words_or_syls ws ss = Extended.words_or_syls ws0 ss0.
Proof.
  intros Hw Hs. unfold Extended.words_or_syls.
  rewrite (truthy_map _ _ _ _ Hs), (of_word_core _ _ Hw), (of_syl_core _ _ Hs).
  reflexivity.
Qed.

End CoreFacts.

(** The words, syllables and characters that a completed pass leaves on a
    line with a resolved style are those of the building loops, up to their
    position fields. *)
Lemma extend_line_cores (font : Font.provider) (meta : Meta.t) (vertical_kanji : bool)
    (l l' : Line.t) (st : Style.t) :
  Line.styleref l = Some st ->
  Extended.extend_line font meta vertical_kanji l = Ok l' ->
  let ws0 := Extended.words_of font st l (Re.sub_groups (Line.raw_text l)) in
  let ss0 := Extended.syls_of font st ws0 (Line.raw_text l) in
  let cs0 := Extended.make_chars font st 0 (Extended.words_or_syls ws0 ss0) in
  exists ws ss cs,
    Line.words l' = Some ws /\ Line.syls l' = Some ss /\ Line.chars l' = Some cs
    /\ map Core.word ws = map Core.word ws0
    /\ map Core.syl ss = map Core.syl ss0
    /\ map Core.char cs = map Core.char cs0.
Proof.
  intros Hst H ws0 ss0 cs0. unfold Extended.extend_line in H.
  cbn [Line.styleref Line.set_duration_text] in H. rewrite Hst in H.
  destruct (Font.get_text_extents font st (Re.sub_groups (Line.raw_text l)))
    as [width height].
  destruct (Extended.positive_resolution meta) as [res|]; cbn [bind] in H; [|discriminate].
  match type of H with
  | bind (Extended.position_words ?m ?s ?sw ?sp ?l3 ?w0) _ = _ =>
      destruct (Extended.position_words m s sw sp l3 w0) as [ws|] eqn:Ew;
        cbn [bind] in H; [|discriminate];
      assert (Hw0 : w0 = ws0)
  end.
  { unfold ws0, Extended.words_of. destruct res as [[px py]|];
      destruct (Font.get_metrics font st) as [[[a d] il] el]; reflexivity. }
  rewrite Hw0 in Ew. apply position_words_core in Ew.
  match type of H with
  | bind (Extended.position_syls ?m ?v ?s ?sw ?sp ?l4 ?s0) _ = _ =>
      destruct (Extended.position_syls m v s sw sp l4 s0) as [ss|] eqn:Es;
        cbn [bind] in H; [|discriminate];
      assert (Hs0 : s0 = ss0)
  end.
  { unfold ss0, Extended.syls_of, Extended.word_boundaries.
    rewrite (boundaries_core ws ws0 Ew 0).
    destruct res as [[px py]|]; destruct (Font.get_metrics font st) as [[[a d] il] el];
      reflexivity. }
  rewrite Hs0 in Es. apply position_syls_core in Es.
  match type of H with
  | bind ?c _ = _ => destruct c as [[l5 cs]|] eqn:Ec; cbn [bind] in H; [|discriminate]
  end.
  injection H as <-. cbn [fst snd].
  pose proof (position_chars_keeps _ _ _ _ _ _ Ec) as (Hkw & Hks & _).
  apply position_chars_core in Ec.
  rewrite (words_or_syls_core ws ws0 ss ss0 Ew Es) in Ec.
  exists ws, ss, cs. cbn [Line.words Line.syls Line.chars Line.set_chars].
  rewrite Hkw, Hks. cbn. repeat split; assumption.
Qed.

(* ================================================================== *)
(** ** Indices, links and characters of a loaded line                  *)
(* ================================================================== *)

Section ElementFacts.
Import Records.
Variable font : Font.provider.
Variable st : Style.t.

Lemma make_words_i (s e d : Z) (found : list (nat * str * nat)) :
  forall wi, map Word.i (Extended.make_words font st s e d wi found) = seq wi (length found).
Proof.
  induction found as [|[[pre wt] post] found IH]; intros wi; [reflexivity|].
  cbn [Extended.make_words]. destruct (Font.get_text_extents font st wt).
  cbn [map length seq Word.i]. now rewrite IH.
Qed.

Lemma make_syls_i (wbs : list (nat * nat * nat)) (data : list Karaoke.syl_data) :
  forall si lt idx,
    map Syllable.i (Extended.make_syls font st wbs si lt idx data) = seq si (length data).
Proof.
  induction data as [|d data IH]; intros si lt idx; [reflexivity|].
  cbn [Extended.make_syls map length seq Syllable.i]. now rewrite IH.
Qed.

Lemma chars_of_i (el : Extended.element) (txt : str) :
  forall char_index ci,
    map Char.i (Extended.chars_of font st el char_index ci txt) = seq char_index (length txt)
    /\ map Char.syl_char_i (Extended.chars_of font st el char_index ci txt)
       = seq ci (length txt)
    /\ concat (map Char.text (Extended.chars_of font st el char_index ci txt)) = txt.
Proof.
  induction txt as [|c txt IH]; intros char_index ci; [repeat split|].
  cbn [Extended.chars_of]. destruct (Font.get_text_extents font st [c]).
  destruct (IH (S char_index) (S ci)) as (H1 & H2 & H3).
  cbn [map length seq concat Char.i Char.syl_char_i Char.text].
  rewrite H1, H2, H3. repeat split.
Qed.

Lemma el_full_text_length (el : Extended.element) :
  length (Extended.el_full_text el) = el_span el.
Proof.
  unfold Extended.el_full_text, el_span. rewrite !length_app, !repeat_length. lia.
Qed.

Lemma make_chars_i (els : list Extended.element) :
  forall char_index,
    map Char.i (Extended.make_chars font st char_index els)
    = seq char_index (list_sum (map el_span els))
    /\ concat (map Char.text (Extended.make_chars font st char_index els))
       = concat (map Extended.el_full_text els).
Proof.
  induction els as [|el els IH]; intros char_index; [split; reflexivity|].
  cbn [Extended.make_chars map concat].
  destruct (IH (char_index + length (Extended.el_full_text el))) as [H1 H2].
  destruct (chars_of_i el (Extended.el_full_text el) char_index 0) as (G1 & _ & G3).
  rewrite !map_app, concat_app, H1, H2, G1, G3.
  change (list_sum (el_span el :: map el_span els))
    with (el_span el + list_sum (map el_span els)).
  rewrite seq_app, el_full_text_length. split; reflexivity.
Qed.



(** The word index that the scan of the boundaries gives: the index of one
    of the words, or the default 0. *)
Lemma find_word_range (ws : list Word.t) (offset : nat) :
  forall idx,
    Extended.find_word (Extended.boundaries idx ws) offset = 0
    \/ In (Extended.find_word (Extended.boundaries idx ws) offset) (map Word.i ws).
Proof.
  induction ws as [|w ws IH]; intros idx; [now left|].
  cbn [Extended.boundaries Extended.find_word map].
  destruct ((idx + Word.prespace w <=? offset)
            && (offset <? idx + Word.prespace w + length (Word.text w))).
  - right. now left.
  - destruct (IH (idx + Word.prespace w + length (Word.text w) + Word.postspace w))
      as [H|H]; [now left|right; now right].
Qed.

Lemma make_syls_word_range (ws : list Word.t) (data : list Karaoke.syl_data) :
  forall si lt idx,
    Forall (fun s => Syllable.word_i s = 0 \/ In (Syllable.word_i s) (map Word.i ws))
           (Extended.make_syls font st (Extended.word_boundaries ws) si lt idx data).
Proof.
  induction data as [|d data IH]; intros si lt idx; [constructor|].
  cbn [Extended.make_syls]. constructor; [|apply IH].
  cbn [Syllable.word_i]. apply find_word_range.
Qed.

End ElementFacts.

Lemma map_through {A B C} (core : A -> B) (f : A -> C) (g : B -> C) (xs ys : list A) :
  (forall a, f a = g (core a)) -> map core xs = map core ys -> map f xs = map f ys.
Proof.
  intros E H. rewrite (map_ext _ _ E xs), (map_ext _ _ E ys).
  rewrite <- (map_map core g xs), <- (map_map core g ys). now rewrite H.
Qed.

Lemma Forall_through {A B} (core : A -> B) (P : A -> Prop) (Q : B -> Prop) (xs ys : list A) :
  (forall a, P a <-> Q (core a)) -> map core xs = map core ys ->
  Forall P ys -> Forall P xs.
Proof.
  intros E H Hy. apply Forall_forall. intros x Hx.
  apply E. apply (in_map core) in Hx. rewrite H in Hx.
  apply in_map_iff in Hx as (y & <- & Hin). apply E.
  rewrite Forall_forall in Hy. now apply Hy.
Qed.

(** X8. On a line with a resolved style that the pass completes, the index
    [i] of every word, syllable and character is its place in its list,
    counted from 0; and when the line has words, the word index of every
    syllable is the index of one of them. *)
Theorem element_indices
    (font : Font.provider) (meta : Meta.t) (vertical_kanji : bool)
    (l l' : Line.t) (st : Style.t) :
  Line.styleref l = Some st ->
  Extended.extend_line font meta vertical_kanji l = Ok l' ->
  exists ws ss cs,
    Line.words l' = Some ws /\ Line.syls l' = Some ss /\ Line.chars l' = Some cs
    /\ map Word.i ws = seq 0 (length ws)
    /\ map Syllable.i ss = seq 0 (length ss)
    /\ map Char.i cs = seq 0 (length cs)
    /\ (ws <> [] -> Forall (fun s => Syllable.word_i s < length ws) ss).
Proof.
  intros Hst H.
  destruct (extend_line_cores font meta vertical_kanji l l' st Hst H)
    as (ws & ss & cs & Hw & Hs & Hc & Ew & Es & Ec).
  exists ws, ss, cs. split; [exact Hw|]. split; [exact Hs|]. split; [exact Hc|].
  assert (Hwi : map Word.i ws = seq 0 (length ws)).
  { rewrite (map_through Core.word Word.i Word.i ws _ (fun _ => eq_refl) Ew).
    unfold Extended.words_of. rewrite make_words_i.
    rewrite <- (length_map Core.word ws), Ew, length_map.
    unfold Extended.words_of. f_equal.
    rewrite <- (length_map Word.i), make_words_i. now rewrite length_seq. }
  split; [exact Hwi|]. split; [|split].
  - rewrite (map_through Core.syl Syllable.i Syllable.i ss _ (fun _ => eq_refl) Es).
    unfold Extended.syls_of. rewrite make_syls_i.
    rewrite <- (length_map Core.syl ss), Es, length_map.
    unfold Extended.syls_of. f_equal.
    rewrite <- (length_map Syllable.i), make_syls_i. now rewrite length_seq.
  - rewrite (map_through Core.char Char.i Char.i cs _ (fun _ => eq_refl) Ec).
    destruct (make_chars_i font st
                (Extended.words_or_syls
                   (Extended.words_of font st l (Re.sub_groups (Line.raw_text l)))
                   (Extended.syls_of font st
                      (Extended.words_of font st l (Re.sub_groups (Line.raw_text l)))
                      (Line.raw_text l))) 0) as [Hi _].
    rewrite Hi. f_equal.
    rewrite <- (length_map Core.char cs), Ec, length_map.
    rewrite <- (length_map Char.i), Hi. now rewrite length_seq.
  - intros Hne.
    assert (Hr : Forall (fun s => Syllable.word_i s = 0
                                  \/ In (Syllable.word_i s) (map Word.i ws)) ss).
    { apply (Forall_through Core.syl _
               (fun s => Syllable.word_i s = 0 \/ In (Syllable.word_i s) (map Word.i ws))
               ss _ (fun _ => iff_refl _) Es).
      unfold Extended.syls_of.
      rewrite (map_through Core.word Word.i Word.i ws _ (fun _ => eq_refl) Ew).
      apply make_syls_word_range. }
    eapply Forall_impl; [|exact Hr]. cbn. intros s [H0|Hin].
    + rewrite H0. destruct ws; [congruence|cbn; lia].
    + rewrite Hwi in Hin. apply in_seq in Hin. lia.
Qed.

Lemma element_indices_witness :
  exists l' ws ss cs,
    Extended.extend_line Fixture.fixed_pitch (Fixture.frame (Some 1920%Z) (Some 1080%Z)) true
      (Fixture.dialogue (Some (Fixture.style 5)) "{\k10}ab {\k20}cd") = Ok l'
    /\ Line.words l' = Some ws /\ Line.syls l' = Some ss /\ Line.chars l' = Some cs
    /\ map Word.i ws = seq 0 (length ws)
    /\ map Syllable.i ss = seq 0 (length ss)
    /\ map Char.i cs = seq 0 (length cs).
Proof.
  destruct (Extended.extend_line Fixture.fixed_pitch
              (Fixture.frame (Some 1920%Z) (Some 1080%Z)) true
              (Fixture.dialogue (Some (Fixture.style 5)) "{\k10}ab {\k20}cd"))
    as [l'|e] eqn:E.
  2:{ vm_compute in E. discriminate E. }
  destruct (element_indices Fixture.fixed_pitch (Fixture.frame (Some 1920%Z) (Some 1080%Z))
              true (Fixture.dialogue (Some (Fixture.style 5)) "{\k10}ab {\k20}cd") l'
              (Fixture.style 5) eq_refl E)
    as (ws & ss & cs & Hw & Hs & Hc & H1 & H2 & H3 & _).
  exists l', ws, ss, cs. repeat split; assumption.
Defined.



(* ================================================================== *)
(** ** A positive resolution places everything                         *)
(* ================================================================== *)

Section PlacedFacts.
Import Vocabulary.
Variable meta : Meta.t.
Variable vertical_kanji : bool.
Variable st : Style.t.
Variables px py : Z.
Hypothesis resolution : Extended.positive_resolution meta = Ok (Some (px, py)).













End PlacedFacts.





(* ================================================================== *)
(** ** Lines of an unknown style                                       *)
(* ================================================================== *)

(** X12. Lines whose style name is unknown (no resolved style) never make
    the pass raise, whatever the frame resolution, even unset: each gets its
    duration and its tag-stripped text, and keeps every other field as it
    was, so no extent, no word, no syllable, no character and no position is
    computed for it. *)
Theorem unknown_style_lines_get_duration_and_text_only
    (font : Font.provider) (meta : Meta.t) (vertical_kanji : bool) (ls : list Line.t) :
  Forall (fun l => Line.styleref l = None) ls ->
  exists ls',
    Loader.extend_all font meta vertical_kanji ls = Ok ls'
    /\ Forall2 (fun l l' =>
                  Line.duration l' = Some (Line.end_time l - Line.start_time l)%Z
                  /\ Line.text l' = Some (Re.sub_groups (Line.raw_text l))
                  /\ (Line.width l', Line.height l') = (Line.width l, Line.height l)
                  /\ (Line.words l', Line.syls l', Line.chars l')
                     = (Line.words l, Line.syls l, Line.chars l)
                  /\ Vocabulary.line_position l' = Vocabulary.line_position l
                  /\ (Line.start_time l', Line.end_time l', Line.raw_text l', Line.i l')
                     = (Line.start_time l, Line.end_time l, Line.raw_text l, Line.i l))
               ls ls'.
Proof.
  induction ls as [|l ls IH]; intros H.
  - exists []. split; [reflexivity|constructor].
  - inversion H as [|? ? Hl Hls]; subst. destruct (IH Hls) as (ls' & E & HF).
    cbn [Loader.extend_all]. unfold Extended.extend_line.
    cbn [Line.styleref Line.set_duration_text]. rewrite Hl. cbn [bind]. rewrite E.
    cbn [bind]. eexists. split; [reflexivity|].
    constructor; [|exact HF]. repeat split.
Qed.

Lemma unknown_style_lines_get_duration_and_text_only_witness :
  exists ls',
    Loader.extend_all Fixture.fixed_pitch (Fixture.frame None None) false
      [Fixture.dialogue None "{\k10}ab {\k20}cd"] = Ok ls'
    /\ map Line.text ls' = [Some (lit "ab cd")]
    /\ map Line.words ls' = [None].
Proof.
  destruct (unknown_style_lines_get_duration_and_text_only Fixture.fixed_pitch
              (Fixture.frame None None) false [Fixture.dialogue None "{\k10}ab {\k20}cd"])
    as (ls' & E & HF).
  - constructor; [reflexivity|constructor].
  - exists ls'. split; [exact E|].
    inversion HF as [|l0 l' r0 r' (Hd & Ht & _ & Hw & _) Hr]; subst.
    inversion Hr; subst. cbn [map]. rewrite Ht. injection Hw as Hw _ _. rewrite Hw.
    split; reflexivity.
Defined.

(* ================================================================== *)
(** ** Lead-in and lead-out across the lines                           *)
(* ================================================================== *)

Section LeadFacts.

Lemma lead_sets (g : list Line.t) (k : nat) (l : Line.t) :
  exists a b, Timing.lead g k l = Line.set_lead l a b.
Proof. unfold Timing.lead. eexists. eexists. reflexivity. Qed.

Lemma in_annotate (g : list Line.t) (l' : Line.t) :
  In l' (Timing.annotate g) ->
  exists k l, nth_error g k = Some l /\ l' = Timing.lead g k l.
Proof.
  intros H. apply In_nth_error in H as [k Hk]. rewrite annotate_nth in Hk.
  destruct (nth_error g k) as [l|] eqn:E; [|discriminate].
  injection Hk as <-. now exists k, l.
Qed.

Lemma annotate_in (g : list Line.t) (k : nat) (l : Line.t) :
  nth_error g k = Some l -> In (Timing.lead g k l) (Timing.annotate g).
Proof.
  intros H. apply (nth_error_In _ k). rewrite annotate_nth, H. reflexivity.
Qed.

Lemma str_eqb_eq (a b : str) : str_eqb a b = true <-> a = b.
Proof.
  revert b. induction a as [|x a IH]; intros [|y b]; cbn; split; intros H;
    try reflexivity; try discriminate.
  - apply andb_true_iff in H as [Hx H]. apply Ascii.eqb_eq in Hx. apply IH in H.
    now subst.
  - injection H as -> ->. rewrite Ascii.eqb_refl. cbn. now apply IH.
Qed.

Lemma style_names_complete (ls : list Line.t) :
  forall seen l, In l ls ->
    existsb (str_eqb (Line.style l)) seen = true
    \/ In (Line.style l) (Timing.style_names seen ls).
Proof.
  induction ls as [|l0 ls IH]; intros seen l Hin; [contradiction|].
  cbn [Timing.style_names].
  destruct Hin as [->|Hin].
  - destruct (existsb (str_eqb (Line.style l)) seen) eqn:E; [now left|right; now left].
  - destruct (existsb (str_eqb (Line.style l0)) seen) eqn:E.
    + now apply IH.
    + destruct (IH (Line.style l0 :: seen) l Hin) as [H|H]; [|right; now right].
      cbn [existsb] in H. apply orb_true_iff in H as [H|H]; [|now left].
      apply str_eqb_eq in H. right. left. now symmetry.
Qed.

Lemma same_index (ls : list Line.t) (a b : Line.t) :
  NoDup (map Line.i ls) -> In a ls -> In b ls -> Line.i a = Line.i b -> a = b.
Proof.
  induction ls as [|l ls IH]; intros Hn Ha Hb E; [contradiction|].
  cbn [map] in Hn. inversion Hn as [|? ? Hnot Hn']; subst.
  destruct Ha as [->|Ha], Hb as [->|Hb].
  - reflexivity.
  - exfalso. apply Hnot. rewrite E. now apply in_map.
  - exfalso. apply Hnot. rewrite <- E. now apply in_map.
  - now apply IH.
Qed.

Lemma Forall2_map_right {A B} (R : A -> B -> Prop) (f : A -> B) (xs : list A) :
  (forall x, In x xs -> R x (f x)) -> Forall2 R xs (map f xs).
Proof.
  induction xs as [|x xs IH]; intros H; [constructor|].
  cbn [map]. constructor; [apply H; now left|]. apply IH. intros y Hy. apply H. now right.
Qed.

(** What the write-back finds for a line of [self.lines]. *)
Lemma lead_pass_line (ls : list Line.t) (l : Line.t) :
  NoDup (map Line.i ls) -> Forall (fun l => Line.i l <> None) ls -> In l ls ->
  exists l',
    find (Timing.same_line l) (concat (Timing.groups ls)) = Some l'
    /\ In l' (Timing.annotate (Timing.sort (Timing.style_group ls (Line.style l))))
    /\ exists a b, l' = Line.set_lead l a b.
Proof.
  intros Hn Hi Hin.
  set (g := Timing.sort (Timing.style_group ls (Line.style l))).
  assert (Hg : In l g).
  { apply (Permutation_in l (Permutation_sym (sort_perm _))).
    apply filter_In. split; [exact Hin|]. now apply str_eqb_eq. }
  apply In_nth_error in Hg as [k Hk].
  assert (HG : In (Timing.lead g k l) (concat (Timing.groups ls))).
  { apply in_concat. exists (Timing.annotate g). split; [|now apply annotate_in].
    unfold Timing.groups. apply in_map_iff. exists (Line.style l). split; [reflexivity|].
    destruct (style_names_complete ls [] l Hin) as [H|H]; [discriminate|exact H]. }
  assert (Hsome : exists n, Line.i l = Some n).
  { rewrite Forall_forall in Hi. specialize (Hi l Hin).
    destruct (Line.i l) as [n|]; [now exists n|congruence]. }
  destruct Hsome as [n Hn'].
  destruct (find (Timing.same_line l) (concat (Timing.groups ls))) as [l'|] eqn:Ef.
  - exists l'. split; [reflexivity|].
    apply find_some in Ef as [Hl' Hsame].
    apply in_concat in Hl' as (grp & Hgrp & Hl').
    unfold Timing.groups in Hgrp. apply in_map_iff in Hgrp as (s & <- & _).
    destruct (in_annotate _ _ Hl') as (k' & l0 & Hk' & ->).
    assert (Hl0 : In l0 (Timing.style_group ls s)).
    { apply (Permutation_in l0 (sort_perm _)). eapply nth_error_In; eassumption. }
    apply filter_In in Hl0 as [Hl0 Hs]. apply str_eqb_eq in Hs.
    assert (E : l0 = l).
    { apply (same_index ls); try assumption.
      unfold Timing.same_line in Hsame. rewrite Hn' in Hsame.
      change (Line.i (Timing.lead (Timing.sort (Timing.style_group ls s)) k' l0))
        with (Line.i l0) in Hsame.
      destruct (Line.i l0) as [m|]; [|discriminate].
      apply Nat.eqb_eq in Hsame. now subst. }
    subst l0. subst s. split; [exact Hl'|]. apply lead_sets.
  - exfalso. eapply find_none in Ef; [|exact HG].
    unfold Timing.same_line in Ef.
    change (Line.i (Timing.lead g k l)) with (Line.i l) in Ef.
    rewrite Hn' in Ef. now rewrite Nat.eqb_refl in Ef.
Qed.

End LeadFacts.

(** X13. In a style group, after the pass, two lines that follow one
    another share their gap: the lead-out of the earlier is the lead-in of
    the later, the start of the later minus the end of the earlier. *)
Theorem neighbours_share_gap (ls : list Line.t) (style : str) (k : nat) (a b : Line.t) :
  let g' := Timing.annotate (Timing.sort (Timing.style_group ls style)) in
  nth_error g' k = Some a -> nth_error g' (S k) = Some b ->
  Line.leadout a = Line.leadin b
  /\ Line.leadin b = Some (PyInt (Line.start_time b - Line.end_time a)).
Proof.
  intros g' Ha Hb. subst g'. rewrite annotate_nth in Ha, Hb.
  set (g := Timing.sort (Timing.style_group ls style)) in *.
  destruct (nth_error g k) as [x|] eqn:Ex; [|discriminate].
  destruct (nth_error g (S k)) as [y|] eqn:Ey; [|discriminate].
  injection Ha as <-. injection Hb as <-.
  assert (Hlt : S k < length g) by (apply nth_error_Some; congruence).
  unfold Timing.lead.
  cbn [Line.leadin Line.leadout Line.set_lead Line.start_time Line.end_time Nat.eqb Nat.sub].
  replace (k =? length g - 1) with false by (symmetry; apply Nat.eqb_neq; lia).
  rewrite Nat.add_1_r, Nat.sub_0_r.
  rewrite (nth_error_nth g (S k) x Ey), (nth_error_nth g k y Ex).
  split; reflexivity.
Qed.

Lemma neighbours_share_gap_witness :
  let line (i : nat) (s e : Z) :=
    Line.parsed false 0 s e (lit "Default") None [] 0 0 0 [] (lit "x") i in
  let ls := [line 0 2000%Z 2500%Z; line 1 0%Z 3000%Z] in
  exists a b,
    nth_error (Timing.annotate (Timing.sort (Timing.style_group ls (lit "Default")))) 0 = Some a
    /\ nth_error (Timing.annotate (Timing.sort (Timing.style_group ls (lit "Default")))) 1
       = Some b
    /\ Line.leadout a = Some (PyInt (-1000)) /\ Line.leadin b = Some (PyInt (-1000)).
Proof.
  intros line ls. eexists. eexists. split; [reflexivity|]. split; [reflexivity|].
  match goal with
  | |- Line.leadout ?a = _ /\ Line.leadin ?b = _ =>
      destruct (neighbours_share_gap ls (lit "Default") 0 a b eq_refl eq_refl) as [H1 H2]
  end.
  split; [rewrite H1|]; exact H2.
Defined.

(** X14. When the lines carry distinct indices (as the loader numbers
    them), the pass writes to every line, and only its lead-in and lead-out:
    [self.lines] keeps its order, each line is the line it was with the two
    fields set, and these are the values computed in the group of its style
    name. *)
Theorem lead_pass_sets_leads_only (ls : list Line.t) :
  NoDup (map Line.i ls) ->
  Forall (fun l => Line.i l <> None) ls ->
  Forall2 (fun l l' =>
             In l' (Timing.annotate (Timing.sort (Timing.style_group ls (Line.style l))))
             /\ exists a b, l' = Line.set_lead l a b)
          ls (Timing.lead_pass ls).
Proof.
  intros Hn Hi. unfold Timing.lead_pass. apply Forall2_map_right.
  intros l Hin. destruct (lead_pass_line ls l Hn Hi Hin) as (l' & -> & H). exact H.
Qed.

Lemma lead_pass_sets_leads_only_witness :
  let line (i : nat) (s e : Z) (style : string) :=
    Line.parsed false 0 s e (lit style) None [] 0 0 0 [] (lit "x") i in
  let ls := [line 0 2000%Z 2500%Z "A"%string; line 1 100%Z 200%Z "B"%string;
             line 2 0%Z 3000%Z "A"%string] in
  map Line.i (Timing.lead_pass ls) = [Some 0; Some 1; Some 2]
  /\ Forall (fun l' => Line.leadin l' <> None) (Timing.lead_pass ls).
Proof.
  intros line ls.
  assert (Hn : NoDup (map Line.i ls)).
  { repeat constructor; cbn; intros H; repeat destruct H as [H|H]; try discriminate; auto. }
  assert (Hi : Forall (fun l => Line.i l <> None) ls) by (repeat constructor; discriminate).
  pose proof (lead_pass_sets_leads_only ls Hn Hi) as H.
  split; [reflexivity|].
  clear Hn Hi. induction H as [|l l' r r' (_ & a & b & ->) _ IH]; constructor;
    [discriminate|exact IH].
Defined.

(* ================================================================== *)
(** ** Extradata and the first line of the file                        *)
(* ================================================================== *)

Section PassThroughFacts.
Variable P : Loader.parsers.

Lemma step_extradata (m : Loader.model) (line : str) :
  Loader.is_header line = false ->
  Loader.step P Loader.extradata m line
  = Ok (Loader.extradata,
        Loader.mk_model (Loader.meta m) (Loader.styles m) (Loader.lines m) (Loader.li m)
          (Loader.output m) (Loader.output_extradata m ++ [line])).
Proof. unfold Loader.step. intros ->. reflexivity. Qed.

Lemma read_extradata (body : list str) :
  forall m,
    forallb (fun line => negb (Loader.is_header line)) body = true ->
    Loader.read P Loader.extradata m body
    = Ok (Loader.extradata,
          Loader.mk_model (Loader.meta m) (Loader.styles m) (Loader.lines m) (Loader.li m)
            (Loader.output m) (Loader.output_extradata m ++ body)).
Proof.
  induction body as [|line body IH]; intros m H.
  - cbn. rewrite app_nil_r. now destruct m.
  - cbn [forallb] in H. apply andb_true_iff in H as [Hl H]. apply negb_true_iff in Hl.
    cbn [Loader.read]. rewrite (step_extradata m line Hl). cbn [bind fst snd].
    rewrite IH by exact H. cbn. now rewrite <- app_assoc.
Qed.

End PassThroughFacts.

(** X15. The extradata section is passed through: after its header, the
    lines up to the next header are appended to the extradata output
    unchanged and in order; the header itself is not added to the output, no
    parsing branch runs, and nothing else of the model changes. *)
Theorem extradata_is_passed_through
    (P : Loader.parsers) (section : str) (m : Loader.model) (header : str) (body : list str) :
  Loader.is_header header = true ->
  Loader.header_name header = Loader.extradata ->
  forallb (fun line => negb (Loader.is_header line)) body = true ->
  Loader.read P section m (header :: body)
  = Ok (Loader.extradata,
        Loader.mk_model (Loader.meta m) (Loader.styles m) (Loader.lines m) (Loader.li m)
          (Loader.output m) (Loader.output_extradata m ++ body)).
Proof.
  intros Hh Hn Hb. cbn [Loader.read]. unfold Loader.step. rewrite Hh, Hn.
  cbn [bind fst snd]. rewrite read_extradata by exact Hb. reflexivity.
Qed.

Lemma extradata_is_passed_through_witness :
  Loader.read (Fixture.parsers None) (lit "Events") Loader.initial
    [lit "[Aegisub Extradata]"; lit "Data: 0,fold,1:2"; lit ""]
  = Ok (Loader.extradata,
        Loader.mk_model Meta.empty [] [] 0 [] [lit "Data: 0,fold,1:2"; lit ""]).
Proof.
  exact (extradata_is_passed_through (Fixture.parsers None) (lit "Events") Loader.initial
           (lit "[Aegisub Extradata]") [lit "Data: 0,fold,1:2"; lit ""]
           eq_refl eq_refl eq_refl).
Defined.

(** X16. A file whose first line is not a section header (a blank line, a
    comment) is refused: the load raises the ValueError of an unexpected
    section with an empty name, whatever follows. *)
Theorem first_line_must_be_a_header
    (P : Loader.parsers) (font : Font.provider) (extended vertical_kanji : bool)
    (line : str) (rest : list str) :
  Loader.is_header line = false ->
  Loader.init P font extended vertical_kanji (line :: rest)
  = Raise (Loader.unexpected_section []).
Proof.
  intros H. unfold Loader.init. cbn [Loader.read]. unfold Loader.step. rewrite H.
  reflexivity.
Qed.

Lemma first_line_must_be_a_header_witness :
  Loader.init (Fixture.parsers None) Fixture.fixed_pitch true false
    [[Re.newline]; lit "[Script Info]"]
  = Raise (Loader.unexpected_section []).
Proof.
  exact (first_line_must_be_a_header (Fixture.parsers None) Fixture.fixed_pitch true false
           [Re.newline] [lit "[Script Info]"] eq_refl).
Defined.

(* ================================================================== *)
(** ** The events branch                                               *)
(* ================================================================== *)

Section EventFacts.
Import Events.

Lemma split_on_nonempty (u field : str) : split_on field u <> [].
Proof.
  revert field. induction u as [|c u IH]; intros field; cbn; [discriminate|].
  destruct (Re.ch c comma); [discriminate|apply IH].
Qed.

Lemma join_cons (f : str) (rest : list str) :
  rest <> [] -> join (f :: rest) = f ++ comma :: join rest.
Proof. destruct rest; [congruence|reflexivity]. Qed.

Lemma split_on_join (u : str) : forall field, join (split_on field u) = rev field ++ u.
Proof.
  induction u as [|c u IH]; intros field; cbn [split_on].
  - cbn. now rewrite app_nil_r.
  - destruct (Re.ch c comma) eqn:E.
    + rewrite join_cons by apply split_on_nonempty. rewrite IH.
      apply ch_eq in E. now subst c.
    + rewrite IH. cbn [rev]. now rewrite <- app_assoc.
Qed.

Local Abbreviation comma_free f := (forallb (fun c => negb (Re.ch c comma)) f).

Lemma forallb_rev_eq {A : Type} (p : A -> bool) (l : list A) :
  forallb p (rev l) = forallb p l.
Proof.
  destruct (forallb p l) eqn:E.
  - apply forallb_forall. intros x Hx. apply in_rev in Hx.
    now apply (proj1 (forallb_forall p l) E).
  - destruct (forallb p (rev l)) eqn:E'; [|reflexivity].
    rewrite <- E. symmetry. apply forallb_forall. intros x Hx. apply in_rev in Hx.
    now apply (proj1 (forallb_forall p (rev l)) E').
Qed.

Lemma split_on_fields (u : str) :
  forall field, comma_free field = true ->
    Forall (fun f => comma_free f = true) (split_on field u)
    /\ length (split_on field u) = S (length (filter (fun c => Re.ch c comma) u)).
Proof.
  induction u as [|c u IH]; intros field Hf; cbn [split_on filter].
  - split; [|reflexivity]. constructor; [|constructor].
    now rewrite forallb_rev_eq.
  - destruct (Re.ch c comma) eqn:E.
    + destruct (IH [] eq_refl) as [Ha Hl]. split.
      * constructor; [|exact Ha]. now rewrite forallb_rev_eq.
      * cbn [length]. now rewrite Hl.
    + apply IH. cbn [forallb]. now rewrite E, Hf.
Qed.

Lemma join_app (a b : list str) :
  a <> [] -> b <> [] -> join (a ++ b) = join a ++ comma :: join b.
Proof.
  induction a as [|f a IH]; intros Ha Hb; [congruence|].
  destruct a as [|g a].
  - cbn [app]. now rewrite join_cons.
  - change ((f :: g :: a) ++ b) with (f :: (g :: a) ++ b).
    rewrite join_cons by discriminate. rewrite IH by (discriminate || assumption).
    rewrite (join_cons f (g :: a)) by discriminate. now rewrite <- app_assoc.
Qed.

(** What a completed call of [Line(...)] was given. *)
Lemma make_line_done (B : builtins) (styles : list (str * Style.t)) (li : nat)
    (comment : bool) (fields : list str) (l : Line.t) :
  make_line B styles li comment fields = Done l ->
  exists layer start_time end_time style actor margin_l margin_r margin_v effect,
    l = Line.parsed comment layer start_time end_time style (get styles style) actor
          margin_l margin_r margin_v effect (join (skipn 9 fields)) li
    /\ nth_error fields 3 = Some style
    /\ nth_error fields 4 = Some actor
    /\ nth_error fields 8 = Some effect.
Proof.
  unfold make_line, and_then, item, lift. intros H.
  repeat match type of H with
         | context [match ?c with _ => _ end] =>
             lazymatch c with
             | nth_error _ _ => destruct c eqn:?
             | int _ _ => destruct c eqn:?
             | time _ _ => destruct c eqn:?
             end; try discriminate H
         end.
  injection H as <-. repeat eexists.
Qed.

Lemma make_line_short (B : builtins) (styles : list (str * Style.t)) (li : nat)
    (comment : bool) (fields : list str) :
  length fields < 9 -> exists e, make_line B styles li comment fields = Fail e.
Proof.
  intros Hlen. destruct (make_line B styles li comment fields) as [l|e] eqn:E;
    [|now exists e].
  apply make_line_done in E as (? & ? & ? & ? & ? & ? & ? & ? & effect & _ & _ & _ & H8).
  assert (8 < length fields) by (apply nth_error_Some; congruence). lia.
Qed.

(** One line of the section: it adds no line, or the line that [Line(...)]
    builds, numbered by [li]. *)
Lemma branch_done (B : builtins) (keep_original : bool) (m m' : Loader.model) (line : str) :
  branch B keep_original m line = Done m' ->
  Loader.meta m' = Loader.meta m /\ Loader.styles m' = Loader.styles m
  /\ Loader.output_extradata m' = Loader.output_extradata m
  /\ ((match_event line = None
       /\ Loader.lines m' = Loader.lines m /\ Loader.li m' = Loader.li m)
      \/ (exists comment content l,
            match_event line = Some (comment, content)
            /\ make_line B (Loader.styles m) (Loader.li m) comment (split content) = Done l
            /\ Loader.lines m' = Loader.lines m ++ [l]
            /\ Loader.li m' = S (Loader.li m))).
Proof.
  unfold branch. intros H.
  destruct (match_event line) as [[comment content]|].
  - destruct (make_line B (Loader.styles m) (Loader.li m) comment (split content))
      as [l|e] eqn:E; cbn [and_then] in H; [|discriminate].
    injection H as <-. cbn. repeat split. right. exists comment, content, l.
    repeat split. exact E.
  - injection H as <-. cbn. repeat split. left. repeat split.
Qed.

Lemma read_numbering (B : builtins) (keep_original : bool) (body : list str) :
  forall m m',
    Events.read B keep_original m body = Done m' ->
    map Line.i (Loader.lines m) = map Some (seq 0 (Loader.li m)) ->
    map Line.i (Loader.lines m') = map Some (seq 0 (Loader.li m'))
    /\ Loader.li m <= Loader.li m'.
Proof.
  induction body as [|line body IH]; intros m m' H Hm; cbn [Events.read] in H.
  - injection H as <-. split; [exact Hm|lia].
  - destruct (branch B keep_original m line) as [m1|e] eqn:E; cbn [and_then] in H;
      [|discriminate].
    apply branch_done in E as (_ & _ & _ & [(_ & Hl & Hi)|(c & content & l & _ & Hmk & Hl & Hi)]).
    + destruct (IH m1 m' H) as [H1 H2]; [now rewrite Hl, Hi|]. split; [exact H1|lia].
    + apply make_line_done in Hmk as (? & ? & ? & ? & ? & ? & ? & ? & ? & -> & _).
      destruct (IH m1 m' H) as [H1 H2].
      * rewrite Hl, Hi, map_app, Hm, seq_S, map_app. reflexivity.
      * split; [exact H1|lia].
Qed.

Lemma branch_output (B : builtins) (keep_original : bool) (m m' : Loader.model) (line : str) :
  branch B keep_original m line = Done m' ->
  Loader.output m'
  = if keep_original then Loader.output m ++ [kept line]
    else match after_prefix (lit "Format") line with
         | Some _ => Loader.output m ++ [Re.strip line]
         | None => Loader.output m
         end.
Proof.
  unfold branch. intros H.
  destruct (match_event line) as [[comment content]|].
  - destruct (make_line B (Loader.styles m) (Loader.li m) comment (split content))
      as [l|e]; cbn [and_then] in H; [|discriminate].
    now injection H as <-.
  - now injection H as <-.
Qed.

Lemma kept_not_dialogue (line : str) : after_prefix (lit "Dialogue:") (kept line) = None.
Proof.
  unfold kept. destruct (after_prefix (lit "Dialogue:") line) eqn:E;
    [reflexivity|exact E].
Qed.

End EventFacts.

(** X17. Splitting the fields of an event on commas loses nothing: the
    fields joined by commas are the text that was split, there is always at
    least one field, one more than there are commas, and no field holds a
    comma. *)
Theorem event_fields_round_trip (content : str) :
  Events.join (Events.split content) = content
  /\ length (Events.split content)
     = S (length (filter (fun c => Re.ch c Events.comma) content))
  /\ Forall (fun f => forallb (fun c => negb (Re.ch c Events.comma)) f = true)
            (Events.split content).
Proof.
  unfold Events.split. split; [apply (split_on_join content [])|].
  destruct (split_on_fields content [] eq_refl) as [Ha Hl]. split; assumption.
Qed.

(** X18. An event line that the branch accepts adds one line, numbered with
    the running index, which then advances; the line holds no word, syllable
    or character yet; its style reference is what the styles read so far give
    for its style name (none for an unknown name); and its raw text is
    everything after the ninth comma of the record, commas included: the
    record is its first nine fields, a comma, and the raw text. *)
Theorem accepted_event_line
    (B : Events.builtins) (keep_original : bool) (m m' : Loader.model) (line : str)
    (comment : bool) (content : str) :
  Events.match_event line = Some (comment, content) ->
  Events.branch B keep_original m line = Events.Done m' ->
  exists l,
    Loader.lines m' = Loader.lines m ++ [l]
    /\ Loader.li m' = S (Loader.li m)
    /\ Line.i l = Some (Loader.li m)
    /\ Line.comment l = comment
    /\ Line.styleref l = Events.get (Loader.styles m) (Line.style l)
    /\ (Line.words l, Line.syls l, Line.chars l) = (None, None, None)
    /\ Line.raw_text l = Events.join (skipn 9 (Events.split content))
    /\ (9 < length (Events.split content) ->
        content = Events.join (firstn 9 (Events.split content))
                  ++ Events.comma :: Line.raw_text l).
Proof.
  intros Hm H. apply branch_done in H as (_ & _ & _ & [(Hn & _)|(c & ct & l & Hm' & Hmk & Hl & Hi)]);
    [congruence|].
  rewrite Hm in Hm'. injection Hm' as <- <-.
  apply make_line_done in Hmk as (? & ? & ? & style & ? & ? & ? & ? & ? & -> & _).
  eexists. split; [exact Hl|]. split; [exact Hi|]. do 5 (split; [reflexivity|]).
  intros Hlen. unfold Line.parsed. cbn [Line.raw_text].
  rewrite <- (split_on_join content []) at 1. cbn [rev app]. fold (Events.split content).
  rewrite <- (firstn_skipn 9 (Events.split content)) at 1.
  apply join_app.
  - intros E. apply (f_equal (@length str)) in E. rewrite length_firstn in E. cbn [length] in E. lia.
  - intros E. apply (f_equal (@length str)) in E. rewrite length_skipn in E. cbn [length] in E. lia.
Qed.

Lemma accepted_event_line_witness :
  exists m' l,
    Events.branch Events.digits_only true Loader.initial
      (lit "Dialogue: 0,1000,3000,Default,,0,0,0,,Hello, {\k50}world, again") = Events.Done m'
    /\ Loader.lines m' = [l]
    /\ Line.raw_text l = lit "Hello, {\k50}world, again"
    /\ Line.styleref l = None.
Proof.
  destruct (Events.branch Events.digits_only true Loader.initial
              (lit "Dialogue: 0,1000,3000,Default,,0,0,0,,Hello, {\k50}world, again"))
    as [m'|e] eqn:E.
  2:{ vm_compute in E. discriminate E. }
  destruct (accepted_event_line Events.digits_only true Loader.initial m'
              (lit "Dialogue: 0,1000,3000,Default,,0,0,0,,Hello, {\k50}world, again")
              false (lit "0,1000,3000,Default,,0,0,0,,Hello, {\k50}world, again")
              eq_refl E)
    as (l & Hl & _ & _ & _ & Hs & _ & Hr & _).
  exists m', l. split; [reflexivity|]. split; [exact Hl|].
  split; [rewrite Hr; reflexivity|exact Hs].
Defined.

(** X19. An event record with fewer than nine fields is not skipped: the
    branch raises (from [int], from [Convert.time], or an IndexError on the
    missing field), and so the load adds no line for it. *)
Theorem short_event_line_raises
    (B : Events.builtins) (keep_original : bool) (m : Loader.model) (line : str)
    (comment : bool) (content : str) :
  Events.match_event line = Some (comment, content) ->
  length (Events.split content) < 9 ->
  exists e, Events.branch B keep_original m line = Events.Fail e.
Proof.
  intros Hm Hlen. unfold Events.branch. rewrite Hm.
  destruct (make_line_short B (Loader.styles m) (Loader.li m) comment
              (Events.split content) Hlen) as [e ->].
  now exists e.
Qed.

Lemma short_event_line_raises_witness :
  Events.branch Events.digits_only false Loader.initial (lit "Dialogue: 0,1000,3000,Default")
  = Events.Fail Events.IndexError.
Proof.
  destruct (short_event_line_raises Events.digits_only false Loader.initial
              (lit "Dialogue: 0,1000,3000,Default") false (lit "0,1000,3000,Default")
              eq_refl) as [e He].
  - cbn. lia.
  - rewrite He. vm_compute in He. injection He as <-. reflexivity.
Defined.

(** X20. The lines that the events branch adds are numbered in order from
    the running index: after an events section read from the start of the
    load, the index of each line is its place in [self.lines], so no two
    lines share an index. *)
Theorem event_lines_are_numbered
    (B : Events.builtins) (keep_original : bool) (body : list str) (m' : Loader.model) :
  Events.read B keep_original Loader.initial body = Events.Done m' ->
  map Line.i (Loader.lines m') = map Some (seq 0 (length (Loader.lines m')))
  /\ Loader.li m' = length (Loader.lines m')
  /\ NoDup (map Line.i (Loader.lines m')).
Proof.
  intros H. destruct (read_numbering B keep_original body Loader.initial m' H eq_refl)
    as [Hi _].
  assert (Hlen : Loader.li m' = length (Loader.lines m')).
  { apply (f_equal (@length (option nat))) in Hi.
    rewrite !length_map, length_seq in Hi. now symmetry. }
  rewrite <- Hlen. split; [exact Hi|]. split; [reflexivity|].
  rewrite Hi. apply Finite.Injective_map_NoDup; [|apply seq_NoDup].
  intros a b E. now injection E.
Qed.

Lemma event_lines_are_numbered_witness :
  exists m',
    Events.read Events.digits_only false Loader.initial
      [lit "Format: Layer, Start, End, Style, Name, MarginL, MarginR, MarginV, Effect, Text";
       lit "Dialogue: 0,1000,3000,Default,,0,0,0,,one";
       lit "Comment: 0,2000,4000,Default,,0,0,0,,two"] = Events.Done m'
    /\ map Line.i (Loader.lines m') = [Some 0; Some 1].
Proof.
  destruct (Events.read Events.digits_only false Loader.initial
      [lit "Format: Layer, Start, End, Style, Name, MarginL, MarginR, MarginV, Effect, Text";
       lit "Dialogue: 0,1000,3000,Default,,0,0,0,,one";
       lit "Comment: 0,2000,4000,Default,,0,0,0,,two"]) as [m'|e] eqn:E.
  2:{ vm_compute in E. discriminate E. }
  destruct (event_lines_are_numbered Events.digits_only false _ m' E) as (Hi & _ & _).
  exists m'. split; [reflexivity|]. rewrite Hi.
  vm_compute in E. injection E as <-. reflexivity.
Defined.

(** X21. What an events section leaves in the output. With
    [keep_original] every line of the section is kept, in order, a dialogue
    turned into a comment and any other line as it is, so that no kept line
    is a dialogue; without it only the lines that start with "Format" are
    kept, stripped, and the events themselves are dropped. *)
Theorem events_section_output
    (B : Events.builtins) (keep_original : bool) (body : list str) (m m' : Loader.model) :
  Events.read B keep_original m body = Events.Done m' ->
  Loader.output m'
  = Loader.output m
    ++ (if keep_original then map Events.kept body
        else map Re.strip
               (filter (fun line =>
                          match Events.after_prefix (lit "Format") line with
                          | Some _ => true
                          | None => false
                          end) body))
  /\ Forall (fun entry => Events.after_prefix (lit "Dialogue:") entry = None)
            (map Events.kept body).
Proof.
  intros H. split.
  - revert m H. induction body as [|line body IH]; intros m H; cbn [Events.read] in H.
    + injection H as <-. destruct keep_original; cbn; now rewrite app_nil_r.
    + destruct (Events.branch B keep_original m line) as [m1|e] eqn:E;
        cbn [Events.and_then] in H; [|discriminate].
      rewrite (IH m1 H). rewrite (branch_output B keep_original m m1 line E).
      destruct keep_original.
      * cbn [map]. now rewrite <- app_assoc.
      * cbn [filter]. destruct (Events.after_prefix (lit "Format") line).
        -- cbn [map]. now rewrite <- app_assoc.
        -- reflexivity.
  - apply Forall_forall. intros entry Hin. apply in_map_iff in Hin as (line & <- & _).
    apply kept_not_dialogue.
Qed.

Lemma events_section_output_witness :
  exists m',
    Events.read Events.digits_only true Loader.initial
      [lit "Format: Layer, Start, End, Style, Name, MarginL, MarginR, MarginV, Effect, Text";
       lit "Dialogue: 0,1000,3000,Default,,0,0,0,,one";
       lit "Comment: 0,2000,4000,Default,,0,0,0,,two"] = Events.Done m'
    /\ Loader.output m'
       = [lit "Format: Layer, Start, End, Style, Name, MarginL, MarginR, MarginV, Effect, Text";
          lit "Comment: 0,1000,3000,Default,,0,0,0,,one";
          lit "Comment: 0,2000,4000,Default,,0,0,0,,two"].
Proof.
  destruct (Events.read Events.digits_only true Loader.initial
      [lit "Format: Layer, Start, End, Style, Name, MarginL, MarginR, MarginV, Effect, Text";
       lit "Dialogue: 0,1000,3000,Default,,0,0,0,,one";
       lit "Comment: 0,2000,4000,Default,,0,0,0,,two"]) as [m'|e] eqn:E.
  2:{ vm_compute in E. discriminate E. }
  destruct (events_section_output Events.digits_only true _ Loader.initial m' E) as [Ho _].
  exists m'. split; [reflexivity|]. rewrite Ho. reflexivity.
Defined.

(* ================================================================== *)
(** ** write_line and save                                             *)
(* ================================================================== *)

Section OutputFacts.
Import Events Output.

Lemma plain_app (a b : str) : plain (a ++ b) = plain a && plain b.
Proof. apply forallb_app. Qed.

Lemma plain_comma_free (f : str) :
  plain f = true -> forallb (fun c => negb (Re.ch c comma)) f = true.
Proof.
  unfold plain. rewrite !forallb_forall. intros H c Hc.
  now destruct (proj1 (andb_true_iff _ _) (H c Hc)).
Qed.

Lemma plain_no_newline (f : str) : plain f = true -> forallb not_newline f = true.
Proof.
  unfold plain, not_newline. rewrite !forallb_forall. intros H c Hc.
  now destruct (proj1 (andb_true_iff _ _) (H c Hc)).
Qed.

Lemma uint_plain (d : Decimal.uint) :
  plain (list_ascii_of_string (DecimalString.NilEmpty.string_of_uint d)) = true.
Proof.
  induction d; cbn [DecimalString.NilEmpty.string_of_uint list_ascii_of_string];
    [reflexivity|..]; unfold plain; cbn [forallb]; fold (plain
      (list_ascii_of_string (DecimalString.NilEmpty.string_of_uint d)));
    rewrite IHd; reflexivity.
Qed.

Lemma percent_d_plain (n : Z) : plain (percent_d n) = true.
Proof.
  assert (Hu : forall d,
    plain (list_ascii_of_string (DecimalString.NilZero.string_of_uint d)) = true).
  { intros d. destruct d; [reflexivity|..]; apply uint_plain. }
  unfold percent_d. destruct n as [|p|p]; cbn [Z.to_int DecimalString.NilZero.string_of_int].
  - reflexivity.
  - apply Hu.
  - cbn [list_ascii_of_string]. unfold plain. cbn [forallb].
    fold (plain (list_ascii_of_string
                   (DecimalString.NilZero.string_of_uint (Pos.to_uint p)))).
    rewrite Hu. reflexivity.
Qed.

Lemma percent_04d_plain (n : Z) : plain (percent_04d n) = true.
Proof.
  unfold percent_04d. rewrite !plain_app, percent_d_plain, andb_true_r.
  apply andb_true_iff. split.
  - now destruct (n <? 0)%Z.
  - generalize (4 - length (if (n <? 0)%Z then ["-"%char] else [])
                - length (percent_d (Z.abs n))).
    intros k. induction k as [|k IH]; [reflexivity|]. cbn [repeat].
    unfold plain in *. cbn [forallb]. now rewrite IH.
Qed.

Lemma split_on_field (a b : str) :
  forall field,
    forallb (fun c => negb (Re.ch c comma)) a = true ->
    split_on field (a ++ comma :: b) = (rev field ++ a) :: split_on [] b.
Proof.
  induction a as [|c a IH]; intros field Ha.
  - cbn [app split_on]. change (Re.ch comma comma) with true. cbn iota.
    now rewrite app_nil_r.
  - cbn [forallb] in Ha. apply andb_true_iff in Ha as [Hc Ha].
    apply negb_true_iff in Hc. cbn [app split_on]. rewrite Hc.
    rewrite (IH (c :: field) Ha). cbn [rev]. now rewrite <- app_assoc.
Qed.

Lemma split_field (a b : str) :
  plain a = true -> split (a ++ comma :: b) = a :: split b.
Proof.
  intros Ha. unfold split. now rewrite split_on_field by now apply plain_comma_free.
Qed.

Lemma not_newline_app (a b : str) :
  forallb not_newline (a ++ b) = forallb not_newline a && forallb not_newline b.
Proof. apply forallb_app. Qed.

Lemma to_end_of_line_ok (content tail : str) :
  content <> [] ->
  forallb not_newline content = true ->
  tail = [] \/ tail = [Re.newline] ->
  to_end_of_line (content ++ tail) = Some content.
Proof.
  intros Hne Hc Ht. unfold to_end_of_line.
  assert (Htake : Re.take_while not_newline (content ++ tail) = content
                  /\ Re.drop_while not_newline (content ++ tail) = tail).
  { clear Hne. induction content as [|c content IH].
    - destruct Ht as [->| ->]; now split.
    - cbn [forallb] in Hc. apply andb_true_iff in Hc as [Hc1 Hc2].
      destruct (IH Hc2) as [I1 I2]. cbn [app Re.take_while Re.drop_while].
      rewrite Hc1. now rewrite I1, I2. }
  destruct Htake as [-> ->]. destruct content as [|c content]; [congruence|].
  destruct Ht as [->| ->]; reflexivity.
Qed.

Lemma lines_from_app_bounded (n : nat) :
  forall (a : str) (cur b : str),
    length a <= n ->
    lines_from cur (a ++ Re.newline :: b)
    = lines_from cur (a ++ [Re.newline]) ++ lines_from [] b.
Proof.
  induction n as [|n IH]; intros a cur b Hlen.
  - destruct a; [|cbn in Hlen; lia]. cbn [app lines_from].
    change (Re.ch Re.newline Re.newline) with true. cbn iota. reflexivity.
  - destruct a as [|c a].
    + cbn [app lines_from]. change (Re.ch Re.newline Re.newline) with true.
      cbn iota. reflexivity.
    + cbn [length] in Hlen. cbn [app lines_from].
      destruct (Re.ch c Re.newline).
      * rewrite (IH a [] b) by lia. reflexivity.
      * destruct (Re.ch c carriage_return).
        -- destruct a as [|d a].
           ++ cbn [app lines_from]. change (Re.ch Re.newline Re.newline) with true.
              cbn iota. reflexivity.
           ++ cbn [length] in Hlen. cbn [app].
              destruct (Re.ch d Re.newline).
              ** rewrite (IH a [] b) by lia. reflexivity.
              ** change (d :: a ++ Re.newline :: b) with ((d :: a) ++ Re.newline :: b).
                 change (d :: a ++ [Re.newline]) with ((d :: a) ++ [Re.newline]).
                 rewrite (IH (d :: a) [] b) by (cbn [length]; lia). reflexivity.
        -- apply IH. lia.
Qed.

Lemma lines_from_app (a b : str) :
  forall cur,
    lines_from cur (a ++ Re.newline :: b)
    = lines_from cur (a ++ [Re.newline]) ++ lines_from [] b.
Proof. intros cur. now apply (lines_from_app_bounded (length a)). Qed.

Lemma lines_from_line (a : str) :
  forall cur,
    one_line a = true ->
    lines_from cur (a ++ [Re.newline]) = [rev cur ++ a ++ [Re.newline]].
Proof.
  induction a as [|c a IH]; intros cur Ha; cbn [app lines_from].
  - change (Re.ch Re.newline Re.newline) with true. cbn iota. reflexivity.
  - unfold one_line in Ha. cbn [forallb] in Ha. apply andb_true_iff in Ha as [Hc Ha].
    apply andb_true_iff in Hc as [Hn Hr]. apply negb_true_iff in Hn, Hr.
    rewrite Hn, Hr. rewrite (IH (c :: cur) Ha). cbn [rev]. now rewrite <- app_assoc.
Qed.

Lemma write_lines_output (time_text : Z -> str) (ls : list Line.t) :
  forall s,
    output (fold_left (write_line time_text) ls s)
    = output s ++ map (record time_text) ls
    /\ output_extradata (fold_left (write_line time_text) ls s) = output_extradata s
    /\ plines (fold_left (write_line time_text) ls s) = plines s + length ls.
Proof.
  induction ls as [|l ls IH]; intros s; cbn [fold_left map length].
  - rewrite app_nil_r. repeat split. lia.
  - destruct (IH (write_line time_text s l)) as (H1 & H2 & H3).
    rewrite H1, H2, H3. cbn [write_line output output_extradata plines].
    rewrite <- app_assoc. repeat split. lia.
Qed.

Lemma lines_of_records (time_text : Z -> str) (ls : list Line.t) :
  Forall (fun l => one_line (tl (record time_text l)) = true) ls ->
  forall pre ext,
    lines_from [] (pre ++ concat (map (record time_text) ls) ++ Re.newline :: ext)
    = lines_from [] (pre ++ [Re.newline])
      ++ map (fun l => tl (record time_text l) ++ [Re.newline]) ls
      ++ lines_from [] ext.
Proof.
  induction 1 as [|l ls Hl Hls IH]; intros pre ext.
  - cbn [map concat app]. apply lines_from_app.
  - cbn [map concat].
    replace (pre ++ (record time_text l ++ concat (map (record time_text) ls))
                 ++ Re.newline :: ext)
      with ((pre ++ Re.newline :: tl (record time_text l))
            ++ concat (map (record time_text) ls) ++ Re.newline :: ext)
      by (rewrite <- !app_assoc; reflexivity).
    rewrite (IH (pre ++ Re.newline :: tl (record time_text l)) ext).
    rewrite <- (app_assoc pre). cbn [app].
    rewrite (lines_from_app pre (tl (record time_text l) ++ [Re.newline]) []).
    rewrite (lines_from_line (tl (record time_text l)) [] Hl).
    cbn [rev app]. rewrite <- !app_assoc. reflexivity.
Qed.

End OutputFacts.

(** X22. A line that [write_line] formats is read back by the events branch.
    When the style, actor and effect of the line and the two timestamps hold
    no comma and no newline, and the text holds no newline, the record
    (without the newline that precedes it, with or without one after it)
    matches the event pattern as the kind it was written as; its first nine
    fields are the nine values that were formatted and the rest, joined, is
    the text, commas included. So whenever the branch accepts it, the line
    it adds has the comment flag, style, actor and effect of the written
    line, and its text as raw text. *)
Theorem written_line_reads_back
    (time_text : Z -> str) (l : Line.t) (tail : str) :
  Output.plain (time_text (Z.max 0 (Line.start_time l))) = true ->
  Output.plain (time_text (Z.max 0 (Line.end_time l))) = true ->
  Output.plain (Line.style l) = true ->
  Output.plain (Line.actor l) = true ->
  Output.plain (Line.effect l) = true ->
  forallb Events.not_newline (Output.percent_s (Line.text l)) = true ->
  tail = [] \/ tail = [Re.newline] ->
  exists content,
    Events.match_event (tl (Output.record time_text l) ++ tail)
    = Some (Line.comment l, content)
    /\ firstn 9 (Events.split content)
       = [Output.percent_d (Line.layer l);
          time_text (Z.max 0 (Line.start_time l));
          time_text (Z.max 0 (Line.end_time l));
          Line.style l; Line.actor l;
          Output.percent_04d (Line.margin_l l);
          Output.percent_04d (Line.margin_r l);
          Output.percent_04d (Line.margin_v l);
          Line.effect l]
    /\ Events.join (skipn 9 (Events.split content)) = Output.percent_s (Line.text l)
    /\ forall (B : Events.builtins) (keep_original : bool) (m m' : Loader.model),
         Events.branch B keep_original m (tl (Output.record time_text l) ++ tail)
         = Events.Done m' ->
         exists l',
           Loader.lines m' = Loader.lines m ++ [l']
           /\ Line.comment l' = Line.comment l
           /\ Line.style l' = Line.style l
           /\ Line.actor l' = Line.actor l
           /\ Line.effect l' = Line.effect l
           /\ Line.raw_text l' = Output.percent_s (Line.text l).
Proof.
  intros Hs He Hst Hac Hef Htx Htail.
  set (content :=
         Output.percent_d (Line.layer l)
         ++ Events.comma :: time_text (Z.max 0 (Line.start_time l))
         ++ Events.comma :: time_text (Z.max 0 (Line.end_time l))
         ++ Events.comma :: Line.style l
         ++ Events.comma :: Line.actor l
         ++ Events.comma :: Output.percent_04d (Line.margin_l l)
         ++ Events.comma :: Output.percent_04d (Line.margin_r l)
         ++ Events.comma :: Output.percent_04d (Line.margin_v l)
         ++ Events.comma :: Line.effect l
         ++ Events.comma :: Output.percent_s (Line.text l)).
  assert (Hsplit : Events.split content
                   = [Output.percent_d (Line.layer l);
                      time_text (Z.max 0 (Line.start_time l));
                      time_text (Z.max 0 (Line.end_time l));
                      Line.style l; Line.actor l;
                      Output.percent_04d (Line.margin_l l);
                      Output.percent_04d (Line.margin_r l);
                      Output.percent_04d (Line.margin_v l);
                      Line.effect l]
                     ++ Events.split (Output.percent_s (Line.text l))).
  { unfold content.
    rewrite !split_field by
      (assumption || apply percent_d_plain || apply percent_04d_plain).
    reflexivity. }
  assert (Hline : forallb Events.not_newline content = true).
  { unfold content.
    repeat (rewrite not_newline_app; apply andb_true_iff; split;
            [apply plain_no_newline;
             (assumption || apply percent_d_plain || apply percent_04d_plain)
            |cbn [forallb]; apply andb_true_iff; split; [reflexivity|]]).
    exact Htx. }
  assert (Hne : content <> []).
  { unfold content. destruct (Output.percent_d (Line.layer l)); discriminate. }
  assert (Hmatch : Events.match_event (tl (Output.record time_text l) ++ tail)
                   = Some (Line.comment l, content)).
  { unfold Output.record. cbn [tl]. fold content.
    destruct (Line.comment l).
    - change (Events.match_event ((lit "Comment" ++ lit ": " ++ content) ++ tail))
        with (option_map (pair true) (Events.to_end_of_line (content ++ tail))).
      now rewrite to_end_of_line_ok.
    - change (Events.match_event ((lit "Dialogue" ++ lit ": " ++ content) ++ tail))
        with (option_map (pair false) (Events.to_end_of_line (content ++ tail))).
      now rewrite to_end_of_line_ok. }
  exists content. split; [exact Hmatch|]. rewrite Hsplit.
  split; [reflexivity|].
  split; [apply (split_on_join (Output.percent_s (Line.text l)) [])|].
  intros B keep_original m m' H.
  apply branch_done in H
    as (_ & _ & _ & [(Hn & _)|(c & ct & l' & Hm' & Hmk & Hl & _)]); [congruence|].
  rewrite Hmatch in Hm'. injection Hm' as <- <-.
  apply make_line_done in Hmk
    as (? & ? & ? & style & actor & ? & ? & ? & effect & -> & H3 & H4 & H8).
  rewrite Hsplit in H3, H4, H8. cbn in H3, H4, H8.
  injection H3 as <-. injection H4 as <-. injection H8 as <-.
  eexists. split; [exact Hl|]. do 4 (split; [reflexivity|]).
  unfold Line.parsed. cbn [Line.raw_text]. rewrite Hsplit.
  apply (split_on_join (Output.percent_s (Line.text l)) []).
Qed.

Lemma written_line_reads_back_witness :
  exists content,
    Events.match_event (lit "Comment: 0,1000,3000,Default,,0000,0010,-005,fx,Hello, world")
    = Some (true, content)
    /\ Events.join (skipn 9 (Events.split content)) = lit "Hello, world".
Proof.
  destruct (written_line_reads_back Output.percent_d
              (Line.set_duration_text
                 (Line.parsed true 0 1000 3000 (lit "Default") None [] 0 10 (-5) (lit "fx")
                    (lit "{\an8}Hello, world") 0)
                 2000 (lit "Hello, world"))
              [] eq_refl eq_refl eq_refl eq_refl eq_refl eq_refl (or_introl eq_refl))
    as (content & Hm & _ & Hj & _).
  exists content. split; [exact Hm|exact Hj].
Defined.

(** X23. The file that [save] writes after lines were written with
    [write_line], read line by line, when no written record holds a line
    ending beside the newline that starts it: first the lines of the output
    that was there, closed by a newline; then one line for each written
    line, in the order they were written (the newline that starts a record
    closes the line before it); then, when there is extradata, an empty line,
    the extradata header and the extradata lines. The count of produced lines
    grows by the number of lines written. *)
Theorem saved_file_lines
    (time_text : Z -> str) (s : Output.t) (ls : list Line.t) :
  Forall (fun l => Output.one_line (tl (Output.record time_text l)) = true) ls ->
  let s' := fold_left (Output.write_line time_text) ls s in
  Output.plines s' = Output.plines s + length ls
  /\ Output.file_lines (fst (Output.save s'))
     = Output.file_lines (concat (Output.output s) ++ [Re.newline])
       ++ map (fun l => tl (Output.record time_text l) ++ [Re.newline]) ls
       ++ (if truthy (Output.output_extradata s)
           then [[Re.newline]; lit "[Aegisub Extradata]" ++ [Re.newline]]
                ++ Output.file_lines (concat (Output.output_extradata s))
           else []).
Proof.
  intros Hls s'. subst s'.
  destruct (write_lines_output time_text ls s) as (Ho & Hx & Hp).
  split; [exact Hp|].
  unfold Output.save. cbn [fst]. rewrite Ho, Hx.
  rewrite !concat_app. cbn [concat]. rewrite app_nil_r.
  set (ext := if truthy (Output.output_extradata s)
              then Output.extradata_header ++ concat (Output.output_extradata s)
              else []).
  assert (Hext : Output.file_lines ext
                 = if truthy (Output.output_extradata s)
                   then [[Re.newline]; lit "[Aegisub Extradata]" ++ [Re.newline]]
                        ++ Output.file_lines (concat (Output.output_extradata s))
                   else []).
  { unfold ext. destruct (truthy (Output.output_extradata s)); [|reflexivity].
    unfold Output.file_lines, Output.extradata_header.
    change ((Re.newline :: lit "[Aegisub Extradata]" ++ [Re.newline])
            ++ concat (Output.output_extradata s))
      with ([] ++ Re.newline :: (lit "[Aegisub Extradata]"
            ++ Re.newline :: concat (Output.output_extradata s))).
    rewrite (lines_from_app [] (lit "[Aegisub Extradata]"
               ++ Re.newline :: concat (Output.output_extradata s)) []).
    rewrite (lines_from_app (lit "[Aegisub Extradata]")
               (concat (Output.output_extradata s)) []).
    rewrite (lines_from_line [] [] eq_refl).
    rewrite (lines_from_line (lit "[Aegisub Extradata]") [] eq_refl).
    reflexivity. }
  transitivity
    (Output.file_lines (concat (Output.output s) ++ [Re.newline])
     ++ map (fun l => tl (Output.record time_text l) ++ [Re.newline]) ls
     ++ Output.file_lines ext); [|rewrite Hext; reflexivity].
  unfold Output.file_lines.
  rewrite <- (lines_of_records time_text ls Hls (concat (Output.output s)) ext).
  f_equal. rewrite <- !app_assoc. reflexivity.
Qed.

Lemma saved_file_lines_witness :
  Output.file_lines
    (fst (Output.save
            (fold_left (Output.write_line Output.percent_d)
               [Line.set_duration_text
                  (Line.parsed false 0 1000 3000 (lit "Default") None [] 0 0 0 []
                     (lit "one") 0) 2000 (lit "one")]
               (Output.mk [lit "[Events]" ++ [Re.newline]; lit "Format: Text"]
                  [lit "Data: 0,e" ++ [Re.newline]] 0 false))))
  = [lit "[Events]" ++ [Re.newline];
     lit "Format: Text" ++ [Re.newline];
     lit "Dialogue: 0,1000,3000,Default,,0000,0000,0000,,one" ++ [Re.newline];
     [Re.newline];
     lit "[Aegisub Extradata]" ++ [Re.newline];
     lit "Data: 0,e" ++ [Re.newline]].
Proof.
  destruct (saved_file_lines Output.percent_d
              (Output.mk [lit "[Events]" ++ [Re.newline]; lit "Format: Text"]
                 [lit "Data: 0,e" ++ [Re.newline]] 0 false)
              [Line.set_duration_text
                 (Line.parsed false 0 1000 3000 (lit "Default") None [] 0 0 0 []
                    (lit "one") 0) 2000 (lit "one")]) as [_ H].
  - repeat constructor.
  - rewrite H. reflexivity.
Defined.

(* ================================================================== *)
(** ** The metadata branch                                             *)
(* ================================================================== *)

Section MetadataFacts.
Import Events Metadata.

Lemma drop_while_app_all (p : ascii -> bool) (x y : str) :
  forallb p x = true -> Re.drop_while p (x ++ y) = Re.drop_while p y.
Proof.
  induction x as [|c x IH]; intros H; [reflexivity|].
  cbn [forallb] in H. apply andb_true_iff in H as [Hc H].
  cbn [app Re.drop_while]. rewrite Hc. now apply IH.
Qed.

Lemma take_while_app_all (p : ascii -> bool) (x y : str) :
  forallb p x = true -> Re.take_while p (x ++ y) = x ++ Re.take_while p y.
Proof.
  induction x as [|c x IH]; intros H; [reflexivity|].
  cbn [forallb] in H. apply andb_true_iff in H as [Hc H].
  cbn [app Re.take_while]. rewrite Hc. now rewrite IH.
Qed.

Lemma digit_not_blank (c : ascii) :
  Re.is_digit c = true -> Re.is_space c = false /\ Re.ch c space = false.
Proof.
  destruct c as [[] [] [] [] [] [] [] []]; intros H; try discriminate H; now split.
Qed.

Lemma spaces_blank (k : nat) :
  forallb (fun c => Re.ch c space) (repeat space k) = true
  /\ forallb Re.is_space (repeat space k) = true.
Proof. induction k as [|k [IH1 IH2]]; [now split|]. cbn. now rewrite IH1, IH2. Qed.

Lemma digits_keep (p : ascii -> bool) (d y : str) :
  d <> [] -> forallb Re.is_digit d = true ->
  (forall c, Re.is_digit c = true -> p c = false) ->
  Re.drop_while p (d ++ y) = d ++ y.
Proof.
  intros Hne Hd Hp. destruct d as [|c d]; [congruence|].
  cbn [forallb] in Hd. apply andb_true_iff in Hd as [Hc _].
  cbn [app Re.drop_while]. now rewrite (Hp c Hc).
Qed.

(** Stripping digits that stand between blanks gives the digits. *)
Lemma strip_digits (before d after : str) :
  forallb Re.is_space before = true ->
  forallb Re.is_digit d = true ->
  forallb Re.is_space after = true ->
  Re.strip (before ++ d ++ after) = d.
Proof.
  intros Hb Hd Ha. unfold Re.strip, Re.lstrip, Re.rstrip.
  rewrite (drop_while_app_all Re.is_space before (d ++ after) Hb).
  destruct d as [|c d].
  - cbn [app]. rewrite <- (app_nil_r after) at 1.
    rewrite (drop_while_app_all Re.is_space after [] Ha). reflexivity.
  - rewrite (digits_keep Re.is_space (c :: d) after) by
      (discriminate || assumption || (intros x Hx; now apply digit_not_blank)).
    rewrite rev_app_distr.
    rewrite (drop_while_app_all Re.is_space (rev after) (rev (c :: d)))
      by now rewrite forallb_rev_eq.
    rewrite <- (app_nil_r (rev (c :: d))).
    rewrite (digits_keep Re.is_space (rev (c :: d)) []).
    + rewrite app_nil_r. apply rev_involutive.
    + intros E. apply (f_equal (@rev ascii)) in E. rewrite rev_involutive in E.
      discriminate E.
    + now rewrite forallb_rev_eq.
    + intros x Hx. now apply digit_not_blank.
Qed.

Lemma tail_blank (tail : str) :
  tail = [] \/ tail = [Re.newline] ->
  forallb Re.is_space tail = true /\ at_end tail = true
  /\ Re.take_while Re.is_digit tail = [] /\ Re.drop_while Re.is_digit tail = tail.
Proof. intros [->| ->]; repeat split. Qed.

(** A number after some spaces is what the number pattern looks for. *)
Lemma number_matches (k : nat) (digits tail : str) :
  digits <> [] -> forallb Re.is_digit digits = true ->
  tail = [] \/ tail = [Re.newline] ->
  let value := Re.drop_while (fun c => Re.ch c space) (repeat space k ++ digits ++ tail) in
  truthy (Re.take_while Re.is_digit value) && at_end (Re.drop_while Re.is_digit value)
  = true.
Proof.
  intros Hne Hd Ht value. subst value.
  destruct (tail_blank tail Ht) as (_ & He & Htk & Hdr).
  rewrite (drop_while_app_all _ (repeat space k) (digits ++ tail))
    by apply spaces_blank.
  rewrite (digits_keep _ digits tail Hne Hd)
    by (intros x Hx; now apply digit_not_blank).
  rewrite (take_while_app_all Re.is_digit digits tail Hd), Htk, app_nil_r.
  rewrite (drop_while_app_all Re.is_digit digits tail Hd), Hdr, He.
  destruct digits; [congruence|reflexivity].
Qed.

(** What the slice after the key and one more character holds. *)
Lemma skip_one (k : nat) (digits tail : str) :
  digits <> [] -> forallb Re.is_digit digits = true ->
  tail = [] \/ tail = [Re.newline] ->
  Re.strip (skipn 1 (repeat space k ++ digits ++ tail))
  = if Nat.eqb k 0 then tl digits else digits.
Proof.
  intros Hne Hd Ht. destruct (tail_blank tail Ht) as (Hs & _).
  destruct k as [|k]; cbn [Nat.eqb repeat app].
  - destruct digits as [|c d]; [congruence|]. cbn [app skipn tl].
    cbn [forallb] in Hd. apply andb_true_iff in Hd as [_ Hd].
    apply (strip_digits [] d tail eq_refl Hd Hs).
  - cbn [skipn]. apply strip_digits; [apply spaces_blank|assumption..].
Qed.

End MetadataFacts.

(** X24. A resolution line of the metadata section. The pattern accepts
    the key, any number of spaces (none too) and a run of digits; the value
    is then read from the eleventh character of the line on. So with one
    space or more after the colon the value is the whole number, and with
    none the first digit is not read: the rest of the digits is converted,
    and a lone digit gives the conversion an empty string. In each case the
    line is appended to the output as it is and nothing but the one
    resolution field changes. *)
Theorem resolution_line
    (B : Events.builtins) (media_arms : Meta.t -> str -> Events.outcome (Meta.t * str))
    (m : Loader.model) (k : nat) (digits tail : str) :
  digits <> [] ->
  forallb Re.is_digit digits = true ->
  tail = [] \/ tail = [Re.newline] ->
  let read := if Nat.eqb k 0 then tl digits else digits in
  let x_line := lit "PlayResX:" ++ repeat Metadata.space k ++ digits ++ tail in
  let y_line := lit "PlayResY:" ++ repeat Metadata.space k ++ digits ++ tail in
  Metadata.branch B media_arms m x_line
  = Events.and_then (Events.lift (Events.int B read))
      (fun v => Events.Done
         (Loader.mk_model (Metadata.set_play_res_x (Loader.meta m) v)
            (Loader.styles m) (Loader.lines m) (Loader.li m)
            (Loader.output m ++ [x_line]) (Loader.output_extradata m)))
  /\ Metadata.branch B media_arms m y_line
     = Events.and_then (Events.lift (Events.int B read))
         (fun v => Events.Done
            (Loader.mk_model (Metadata.set_play_res_y (Loader.meta m) v)
               (Loader.styles m) (Loader.lines m) (Loader.li m)
               (Loader.output m ++ [y_line]) (Loader.output_extradata m))).
Proof.
  intros Hne Hd Ht read x_line y_line. subst read.
  pose proof (number_matches k digits tail Hne Hd Ht) as Hm. cbv zeta in Hm.
  pose proof (skip_one k digits tail Hne Hd Ht) as Hs.
  split.
  - unfold Metadata.branch, Metadata.switch.
    change (Metadata.match_number (lit "WrapStyle:") x_line) with false.
    change (Metadata.match_text (lit "ScaledBorderAndShadow:") x_line) with false.
    cbv iota.
    replace (Metadata.match_number (lit "PlayResX:") x_line) with true
      by (symmetry; exact Hm).
    change (skipn 10 x_line)
      with (skipn 1 (repeat Metadata.space k ++ digits ++ tail)).
    rewrite Hs. destruct (Nat.eqb k 0); cbv iota;
      match goal with |- context [Events.int B ?r] => destruct (Events.int B r) end;
      reflexivity.
  - unfold Metadata.branch, Metadata.switch.
    change (Metadata.match_number (lit "WrapStyle:") y_line) with false.
    change (Metadata.match_text (lit "ScaledBorderAndShadow:") y_line) with false.
    change (Metadata.match_number (lit "PlayResX:") y_line) with false.
    cbv iota.
    replace (Metadata.match_number (lit "PlayResY:") y_line) with true
      by (symmetry; exact Hm).
    change (skipn 10 y_line)
      with (skipn 1 (repeat Metadata.space k ++ digits ++ tail)).
    rewrite Hs. destruct (Nat.eqb k 0); cbv iota;
      match goal with |- context [Events.int B ?r] => destruct (Events.int B r) end;
      reflexivity.
Qed.

Lemma resolution_line_witness :
  let rest := fun (t : Meta.t) (line : str) => Events.Done (t, line) in
  option_map Loader.meta
    (match Metadata.branch Events.digits_only rest Loader.initial
             (lit "PlayResX: 1280" ++ [Re.newline]) with
     | Events.Done m' => Some m'
     | Events.Fail _ => None
     end)
  = Some (Metadata.set_play_res_x Meta.empty 1280)
  /\ option_map Loader.meta
       (match Metadata.branch Events.digits_only rest Loader.initial
                (lit "PlayResX:1280" ++ [Re.newline]) with
        | Events.Done m' => Some m'
        | Events.Fail _ => None
        end)
     = Some (Metadata.set_play_res_x Meta.empty 280)
  /\ Metadata.branch Events.digits_only rest Loader.initial (lit "PlayResY:7")
     = Events.Fail (Events.Builtin (ValueError (lit "invalid literal for int()"))).
Proof.
  intros rest.
  destruct (resolution_line Events.digits_only rest Loader.initial 1 (lit "1280")
              [Re.newline]) as [H1 _];
    [discriminate|reflexivity|now right|].
  destruct (resolution_line Events.digits_only rest Loader.initial 0 (lit "1280")
              [Re.newline]) as [H2 _];
    [discriminate|reflexivity|now right|].
  destruct (resolution_line Events.digits_only rest Loader.initial 0 (lit "7") [])
    as [_ H3]; [discriminate|reflexivity|now left|].
  cbv zeta in H1, H2, H3. split; [|split].
  - change (lit "PlayResX: 1280" ++ [Re.newline])
      with (lit "PlayResX:" ++ repeat Metadata.space 1 ++ lit "1280" ++ [Re.newline]).
    rewrite H1. reflexivity.
  - change (lit "PlayResX:1280" ++ [Re.newline])
      with (lit "PlayResX:" ++ repeat Metadata.space 0 ++ lit "1280" ++ [Re.newline]).
    rewrite H2. reflexivity.
  - change (lit "PlayResY:7")
      with (lit "PlayResY:" ++ repeat Metadata.space 0 ++ lit "7" ++ []).
    rewrite H3. reflexivity.
Defined.
